(** * LE Secure Connections pairing (ble_sm_sc.c): a shallow embedding.

    The embedded functions are those of the Secure Connections part of the
    NimBLE Security Manager: the passkey-action tables and
    [ble_sm_sc_passkey_action], [ble_sm_sc_ensure_keys_generated],
    [ble_sm_sc_gen_ri], the confirm / random / public-key / DHKey-check
    steps.  A procedure ([struct ble_sm_proc]) and a result
    ([struct ble_sm_result]) are records that every step takes and returns;
    the file-scope key pair and the state of the collaborators (controller
    RNG, L2CAP transmit, connection table) live in a [world] that is threaded
    through the steps.

    The caller of the steps, ble_sm.c, is not among the sources.  Where a
    property depends on it (which step is run, and when), it is modelled
    from the specification in the section on the loop; every definition of
    that model says so.

    Conventions.  The named constants of ble_sm.h and ble_sm_priv.h
    (actions, algorithms, states, reasons) are enumerations, so the
    [default:] arms of the switches, which only assert, have no counterpart.
    [BLE_HS_DBG_ASSERT] and the logging calls do not change any state and
    are left out.  An early [return] is the [then] arm of an [if] whose
    [else] arm is the rest of the function. *)

From Stdlib Require Import ZArith List Bool Lia.
Import ListNotations.
Local Open Scope Z_scope.

(** ** Data *)

(** A byte buffer; every element is meant to be in [0, 255]. *)
Definition bytes := list Z.

(** [memcpy(dst, src, n)]: the first [n] bytes of [dst] are replaced. *)
Definition memcpy (dst src : bytes) (n : nat) : bytes :=
  firstn n src ++ skipn n dst.

(** [memcmp(a, b, n) != 0]. *)
Definition memcmp_ne (a b : bytes) (n : nat) : bool :=
  if list_eq_dec Z.eq_dec (firstn n a) (firstn n b) then false else true.

(** BLE_SM_PKACT_*: the user interaction a pairing asks for. *)
Inductive pkact :=
| BLE_SM_PKACT_NONE
| BLE_SM_PKACT_OOB
| BLE_SM_PKACT_INPUT
| BLE_SM_PKACT_DISP
| BLE_SM_PKACT_NUMCMP.

(** BLE_SM_PAIR_ALG_*: the authentication method. *)
Inductive pair_alg_t :=
| BLE_SM_PAIR_ALG_JW
| BLE_SM_PAIR_ALG_PASSKEY
| BLE_SM_PAIR_ALG_OOB
| BLE_SM_PAIR_ALG_NUMCMP.

(** BLE_SM_PROC_STATE_*: the states this file names, and NONE. *)
Inductive proc_state :=
| BLE_SM_PROC_STATE_NONE
| BLE_SM_PROC_STATE_PUBLIC_KEY
| BLE_SM_PROC_STATE_CONFIRM
| BLE_SM_PROC_STATE_RANDOM
| BLE_SM_PROC_STATE_DHKEY_CHECK
| BLE_SM_PROC_STATE_LTK_START
| BLE_SM_PROC_STATE_ENC_START.

(** The IO capability of a pairing request or response; the position in
    this list is the value on the wire and the index into the tables. *)
Inductive io_cap_t :=
| BLE_SM_IO_CAP_DISP_ONLY
| BLE_SM_IO_CAP_DISP_YES_NO
| BLE_SM_IO_CAP_KEYBOARD_ONLY
| BLE_SM_IO_CAP_NO_IO
| BLE_SM_IO_CAP_KEYBOARD_DISP.

Definition io_cap_index (c : io_cap_t) : nat :=
  match c with
  | BLE_SM_IO_CAP_DISP_ONLY => 0
  | BLE_SM_IO_CAP_DISP_YES_NO => 1
  | BLE_SM_IO_CAP_KEYBOARD_ONLY => 2
  | BLE_SM_IO_CAP_NO_IO => 3
  | BLE_SM_IO_CAP_KEYBOARD_DISP => 4
  end%nat.

(** BLE_SM_ERR_*: the Security Manager reasons this file sends. *)
Inductive sm_err_t :=
| BLE_SM_ERR_CONFIRM_MISMATCH
| BLE_SM_ERR_UNSPECIFIED
| BLE_SM_ERR_DHKEY.

(** A host return code.  [HS_OK] is 0; [BLE_HS_SM_US_ERR e] is the host
    code for "we sent SM reason [e]"; [HS_ERR n] is any other failure a
    collaborator hands back. *)
Inductive hs_rc :=
| HS_OK
| BLE_HS_ENOENT
| BLE_HS_EUNKNOWN
| BLE_HS_SM_US_ERR (e : sm_err_t)
| HS_ERR (n : Z).

(** [rc != 0]. *)
Definition failed (rc : hs_rc) : bool :=
  match rc with HS_OK => false | _ => true end.

Definition pair_alg_eqb (a b : pair_alg_t) : bool :=
  match a, b with
  | BLE_SM_PAIR_ALG_JW, BLE_SM_PAIR_ALG_JW
  | BLE_SM_PAIR_ALG_PASSKEY, BLE_SM_PAIR_ALG_PASSKEY
  | BLE_SM_PAIR_ALG_OOB, BLE_SM_PAIR_ALG_OOB
  | BLE_SM_PAIR_ALG_NUMCMP, BLE_SM_PAIR_ALG_NUMCMP => true
  | _, _ => false
  end.

Definition proc_state_eqb (a b : proc_state) : bool :=
  match a, b with
  | BLE_SM_PROC_STATE_NONE, BLE_SM_PROC_STATE_NONE
  | BLE_SM_PROC_STATE_PUBLIC_KEY, BLE_SM_PROC_STATE_PUBLIC_KEY
  | BLE_SM_PROC_STATE_CONFIRM, BLE_SM_PROC_STATE_CONFIRM
  | BLE_SM_PROC_STATE_RANDOM, BLE_SM_PROC_STATE_RANDOM
  | BLE_SM_PROC_STATE_DHKEY_CHECK, BLE_SM_PROC_STATE_DHKEY_CHECK
  | BLE_SM_PROC_STATE_LTK_START, BLE_SM_PROC_STATE_LTK_START
  | BLE_SM_PROC_STATE_ENC_START, BLE_SM_PROC_STATE_ENC_START => true
  | _, _ => false
  end.

(** [struct ble_sm_pair_cmd]: the fields this file reads. *)
Record ble_sm_pair_cmd := mk_pair_cmd {
  io_cap : io_cap_t;
  oob_data_flag : Z;
  authreq : Z
}.

(** [struct ble_sm_public_key]. *)
Record ble_sm_public_key := mk_public_key {
  pk_x : bytes;
  pk_y : bytes
}.

(** [struct ble_sm_keys]: the fields this file writes. *)
Record ble_sm_keys := mk_keys {
  keys_ltk : bytes;
  ltk_valid : bool;
  ediv : Z;
  rand_val : Z;
  ediv_rand_valid : bool
}.

(** [proc->flags]: one boolean per BLE_SM_PROC_F_* bit. *)
Record proc_flags := mk_flags {
  F_INITIATOR : bool;
  F_IO_INJECTED : bool;
  F_ADVANCE_ON_IO : bool;
  F_AUTHENTICATED : bool;
  F_SC : bool
}.

(** [struct ble_sm_proc]. *)
Record ble_sm_proc := mk_proc {
  conn_handle : Z;
  state : proc_state;
  flags : proc_flags;
  pair_req : ble_sm_pair_cmd;
  pair_rsp : ble_sm_pair_cmd;
  pair_alg : pair_alg_t;
  ri : Z;
  passkey_bits_exchanged : Z;
  tk : bytes;
  pub_key_peer : ble_sm_public_key;
  randm : bytes;
  rands : bytes;
  confirm_peer : bytes;
  dhkey : bytes;
  mackey : bytes;
  ltk : bytes;
  our_keys : ble_sm_keys;
  peer_keys : ble_sm_keys
}.

(** [res->passkey_action]. *)
Record ble_sm_passkey_action := mk_pka {
  action : pkact;
  numcmp : Z
}.

(** [struct ble_sm_result]; [sm_err = None] is the 0 of a fresh result. *)
Record ble_sm_result := mk_result {
  app_status : hs_rc;
  sm_err : option sm_err_t;
  enc_cb : bool;
  execute : bool;
  passkey_action : ble_sm_passkey_action
}.

(** Field updates. *)
Definition set_state (s : proc_state) (p : ble_sm_proc) : ble_sm_proc :=
  mk_proc (conn_handle p) s (flags p) (pair_req p) (pair_rsp p) (pair_alg p)
    (ri p) (passkey_bits_exchanged p) (tk p) (pub_key_peer p) (randm p)
    (rands p) (confirm_peer p) (dhkey p) (mackey p) (ltk p) (our_keys p)
    (peer_keys p).

Definition set_flags (f : proc_flags) (p : ble_sm_proc) : ble_sm_proc :=
  mk_proc (conn_handle p) (state p) f (pair_req p) (pair_rsp p) (pair_alg p)
    (ri p) (passkey_bits_exchanged p) (tk p) (pub_key_peer p) (randm p)
    (rands p) (confirm_peer p) (dhkey p) (mackey p) (ltk p) (our_keys p)
    (peer_keys p).

Definition set_pair_alg (a : pair_alg_t) (p : ble_sm_proc) : ble_sm_proc :=
  mk_proc (conn_handle p) (state p) (flags p) (pair_req p) (pair_rsp p) a
    (ri p) (passkey_bits_exchanged p) (tk p) (pub_key_peer p) (randm p)
    (rands p) (confirm_peer p) (dhkey p) (mackey p) (ltk p) (our_keys p)
    (peer_keys p).

Definition set_ri (r : Z) (p : ble_sm_proc) : ble_sm_proc :=
  mk_proc (conn_handle p) (state p) (flags p) (pair_req p) (pair_rsp p)
    (pair_alg p) r (passkey_bits_exchanged p) (tk p) (pub_key_peer p)
    (randm p) (rands p) (confirm_peer p) (dhkey p) (mackey p) (ltk p)
    (our_keys p) (peer_keys p).

Definition set_passkey_bits_exchanged (n : Z) (p : ble_sm_proc)
  : ble_sm_proc :=
  mk_proc (conn_handle p) (state p) (flags p) (pair_req p) (pair_rsp p)
    (pair_alg p) (ri p) n (tk p) (pub_key_peer p) (randm p) (rands p)
    (confirm_peer p) (dhkey p) (mackey p) (ltk p) (our_keys p) (peer_keys p).

Definition set_pub_key_peer (k : ble_sm_public_key) (p : ble_sm_proc)
  : ble_sm_proc :=
  mk_proc (conn_handle p) (state p) (flags p) (pair_req p) (pair_rsp p)
    (pair_alg p) (ri p) (passkey_bits_exchanged p) (tk p) k (randm p)
    (rands p) (confirm_peer p) (dhkey p) (mackey p) (ltk p) (our_keys p)
    (peer_keys p).

Definition set_randm (r : bytes) (p : ble_sm_proc) : ble_sm_proc :=
  mk_proc (conn_handle p) (state p) (flags p) (pair_req p) (pair_rsp p)
    (pair_alg p) (ri p) (passkey_bits_exchanged p) (tk p) (pub_key_peer p) r
    (rands p) (confirm_peer p) (dhkey p) (mackey p) (ltk p) (our_keys p)
    (peer_keys p).

Definition set_rands (r : bytes) (p : ble_sm_proc) : ble_sm_proc :=
  mk_proc (conn_handle p) (state p) (flags p) (pair_req p) (pair_rsp p)
    (pair_alg p) (ri p) (passkey_bits_exchanged p) (tk p) (pub_key_peer p)
    (randm p) r (confirm_peer p) (dhkey p) (mackey p) (ltk p) (our_keys p)
    (peer_keys p).

Definition set_confirm_peer (c : bytes) (p : ble_sm_proc) : ble_sm_proc :=
  mk_proc (conn_handle p) (state p) (flags p) (pair_req p) (pair_rsp p)
    (pair_alg p) (ri p) (passkey_bits_exchanged p) (tk p) (pub_key_peer p)
    (randm p) (rands p) c (dhkey p) (mackey p) (ltk p) (our_keys p)
    (peer_keys p).

Definition set_dhkey (k : bytes) (p : ble_sm_proc) : ble_sm_proc :=
  mk_proc (conn_handle p) (state p) (flags p) (pair_req p) (pair_rsp p)
    (pair_alg p) (ri p) (passkey_bits_exchanged p) (tk p) (pub_key_peer p)
    (randm p) (rands p) (confirm_peer p) k (mackey p) (ltk p) (our_keys p)
    (peer_keys p).

Definition set_mackey_ltk (m l : bytes) (p : ble_sm_proc) : ble_sm_proc :=
  mk_proc (conn_handle p) (state p) (flags p) (pair_req p) (pair_rsp p)
    (pair_alg p) (ri p) (passkey_bits_exchanged p) (tk p) (pub_key_peer p)
    (randm p) (rands p) (confirm_peer p) (dhkey p) m l (our_keys p)
    (peer_keys p).

Definition set_keys (ours peers : ble_sm_keys) (p : ble_sm_proc)
  : ble_sm_proc :=
  mk_proc (conn_handle p) (state p) (flags p) (pair_req p) (pair_rsp p)
    (pair_alg p) (ri p) (passkey_bits_exchanged p) (tk p) (pub_key_peer p)
    (randm p) (rands p) (confirm_peer p) (dhkey p) (mackey p) (ltk p) ours
    peers.

Definition set_authenticated (f : proc_flags) : proc_flags :=
  mk_flags (F_INITIATOR f) (F_IO_INJECTED f) (F_ADVANCE_ON_IO f) true (F_SC f).

Definition set_advance_on_io (f : proc_flags) : proc_flags :=
  mk_flags (F_INITIATOR f) (F_IO_INJECTED f) true (F_AUTHENTICATED f) (F_SC f).

Definition set_execute (r : ble_sm_result) : ble_sm_result :=
  mk_result (app_status r) (sm_err r) (enc_cb r) true (passkey_action r).

Definition set_app_status (rc : hs_rc) (r : ble_sm_result) : ble_sm_result :=
  mk_result rc (sm_err r) (enc_cb r) (execute r) (passkey_action r).

Definition set_enc_cb (r : ble_sm_result) : ble_sm_result :=
  mk_result (app_status r) (sm_err r) true (execute r) (passkey_action r).

Definition set_sm_err (e : sm_err_t) (r : ble_sm_result) : ble_sm_result :=
  mk_result (app_status r) (Some e) (enc_cb r) (execute r) (passkey_action r).

Definition set_pkact (a : pkact) (r : ble_sm_result) : ble_sm_result :=
  mk_result (app_status r) (sm_err r) (enc_cb r) (execute r)
    (mk_pka a (numcmp (passkey_action r))).

Definition set_numcmp (n : Z) (r : ble_sm_result) : ble_sm_result :=
  mk_result (app_status r) (sm_err r) (enc_cb r) (execute r)
    (mk_pka (action (passkey_action r)) n).

(** The block that most error exits share:
    [app_status = rc; enc_cb = 1; sm_err = BLE_SM_ERR_UNSPECIFIED]. *)
Definition fail_unspecified (rc : hs_rc) (r : ble_sm_result) : ble_sm_result :=
  set_sm_err BLE_SM_ERR_UNSPECIFIED (set_enc_cb (set_app_status rc r)).

(** What a step asks of a collaborator, most recent first. *)
Inductive event :=
| EvGenPubPriv
| EvGenDhkey
| EvF4 (u v x : bytes) (z : Z)
| EvF5
| EvF6
| EvG2
| EvRand
| EvGenPairRand
| EvTxPublicKey (conn : Z)
| EvTxConfirm (conn : Z) (value : bytes)
| EvTxRandom (conn : Z) (value : bytes)
| EvTxDhkeyCheck (conn : Z) (value : bytes).

(** ** Collaborators

    What ble_sm_sc.c links against and does not define: the crypto toolbox
    (the ble_sm_alg functions), the controller RNG, the transmit functions, the
    connection table and two helpers of ble_sm.c.  A function with an
    out-parameter takes the old contents of the buffer where the buffer
    belongs to the procedure or the result, and returns the new contents
    next to its return code.  [ext] is whatever state the stateful ones
    keep. *)
Class Host := {
  ext : Type;
  BLE_SM_PAIR_AUTHREQ_MITM : Z;
  ble_sm_pkact_state : pkact -> proc_state;
  ble_sm_proc_can_advance : ble_sm_proc -> bool;
  ble_sm_alg_f4 : bytes -> bytes -> bytes -> Z -> hs_rc * bytes;
  ble_sm_alg_f5 : bytes -> bytes -> bytes -> Z -> bytes -> Z -> bytes ->
                  bytes -> bytes -> hs_rc * (bytes * bytes);
  ble_sm_alg_f6 : bytes -> bytes -> bytes -> bytes -> bytes ->
                  Z -> bytes -> Z -> bytes -> hs_rc * bytes;
  ble_sm_alg_g2 : bytes -> bytes -> bytes -> bytes -> Z -> hs_rc * Z;
  ble_sm_alg_gen_dhkey : bytes -> bytes -> bytes -> bytes -> hs_rc * bytes;
  ble_sm_gen_pub_priv : ext -> bytes -> bytes -> hs_rc * (bytes * bytes) * ext;
  ble_hci_util_rand : ext -> bytes -> nat -> hs_rc * bytes * ext;
  ble_sm_gen_pair_rand : ext -> bytes -> hs_rc * bytes * ext;
  ble_sm_public_key_tx : ext -> Z -> ble_sm_public_key -> hs_rc * ext;
  ble_sm_pair_confirm_tx : ext -> Z -> bytes -> hs_rc * ext;
  ble_sm_pair_random_tx : ext -> Z -> bytes -> hs_rc * ext;
  ble_sm_dhkey_check_tx : ext -> Z -> bytes -> hs_rc * ext;
  ble_sm_addrs : ext -> ble_sm_proc -> hs_rc * (Z * bytes * Z * bytes);
  ble_sm_peer_addr : ext -> ble_sm_proc -> hs_rc * (Z * bytes);
  bls_hs_priv_copy_local_identity_addr : ext -> bytes * Z;
  ble_hs_misc_pullup_base : bytes -> nat -> hs_rc;
  ble_sm_public_key_parse : bytes -> ble_sm_public_key;
  ble_sm_dhkey_check_parse : bytes -> hs_rc * bytes
}.

Definition BLE_SM_SC_PASSKEY_BYTES : Z := 4.
Definition BLE_SM_SC_PASSKEY_BITS : Z := 20.
Definition BLE_SM_PUBLIC_KEY_SZ : nat := 64.
Definition BLE_SM_DHKEY_CHECK_SZ : nat := 16.

(** ** The passkey-action tables (constant data) *)

Definition PKACT_NONE := BLE_SM_PKACT_NONE.
Definition PKACT_OOB := BLE_SM_PKACT_OOB.
Definition PKACT_INPUT := BLE_SM_PKACT_INPUT.
Definition PKACT_DISP := BLE_SM_PKACT_DISP.
Definition PKACT_NUMCMP := BLE_SM_PKACT_NUMCMP.

(** [ble_sm_sc_init_pka[5 /*resp*/][5 /*init*/]]. *)
Definition ble_sm_sc_init_pka : list (list pkact) :=
  [ [PKACT_NONE;    PKACT_NONE;   PKACT_INPUT; PKACT_NONE; PKACT_INPUT];
    [PKACT_NONE;    PKACT_NUMCMP; PKACT_INPUT; PKACT_NONE; PKACT_INPUT];
    [PKACT_DISP;    PKACT_DISP;   PKACT_INPUT; PKACT_NONE; PKACT_DISP];
    [PKACT_NONE;    PKACT_NONE;   PKACT_NONE;  PKACT_NONE; PKACT_NONE];
    [PKACT_DISP;    PKACT_NUMCMP; PKACT_INPUT; PKACT_NONE; PKACT_NUMCMP] ].

(** [ble_sm_sc_resp_pka[5 /*init*/][5 /*resp*/]]. *)
Definition ble_sm_sc_resp_pka : list (list pkact) :=
  [ [PKACT_NONE;    PKACT_NONE;   PKACT_DISP;  PKACT_NONE; PKACT_DISP];
    [PKACT_NONE;    PKACT_NUMCMP; PKACT_DISP;  PKACT_NONE; PKACT_NUMCMP];
    [PKACT_INPUT;   PKACT_INPUT;  PKACT_INPUT; PKACT_NONE; PKACT_INPUT];
    [PKACT_NONE;    PKACT_NONE;   PKACT_NONE;  PKACT_NONE; PKACT_NONE];
    [PKACT_INPUT;   PKACT_NUMCMP; PKACT_DISP;  PKACT_NONE; PKACT_NUMCMP] ].

(** [table[a][b]]. *)
Definition pka_at (table : list (list pkact)) (a b : io_cap_t) : pkact :=
  nth (io_cap_index b) (nth (io_cap_index a) table []) BLE_SM_PKACT_NONE.

(** The [switch (action)] of [ble_sm_sc_passkey_action], on the algorithm. *)
Definition pkact_alg (a : pkact) : pair_alg_t :=
  match a with
  | BLE_SM_PKACT_NONE => BLE_SM_PAIR_ALG_JW
  | BLE_SM_PKACT_OOB => BLE_SM_PAIR_ALG_OOB
  | BLE_SM_PKACT_INPUT | BLE_SM_PKACT_DISP => BLE_SM_PAIR_ALG_PASSKEY
  | BLE_SM_PKACT_NUMCMP => BLE_SM_PAIR_ALG_NUMCMP
  end.

Section Steps.
Context {H : Host}.

(** The file-scope variables of ble_sm_sc.c, the collaborators' state and
    the calls made so far. *)
Record world := mk_world {
  w_ext : ext;
  ble_sm_sc_keys_generated : bool;
  ble_sm_sc_pub_key : bytes;
  ble_sm_sc_priv_key : bytes;
  w_log : list event
}.

Definition log (e : event) (w : world) : world :=
  mk_world (w_ext w) (ble_sm_sc_keys_generated w) (ble_sm_sc_pub_key w)
    (ble_sm_sc_priv_key w) (e :: w_log w).

Definition set_ext (x : ext) (w : world) : world :=
  mk_world x (ble_sm_sc_keys_generated w) (ble_sm_sc_pub_key w)
    (ble_sm_sc_priv_key w) (w_log w).

(** [cmd->authreq & BLE_SM_PAIR_AUTHREQ_MITM]. *)
Definition authreq_mitm (c : ble_sm_pair_cmd) : bool :=
  negb (Z.land (authreq c) BLE_SM_PAIR_AUTHREQ_MITM =? 0).

(** The first part of [ble_sm_sc_passkey_action]: the action. *)
Definition passkey_action_of (proc : ble_sm_proc) : pkact :=
  if negb (oob_data_flag (pair_req proc) =? 0) ||
     negb (oob_data_flag (pair_rsp proc) =? 0) then
    BLE_SM_PKACT_OOB
  else if negb (authreq_mitm (pair_req proc)) &&
          negb (authreq_mitm (pair_rsp proc)) then
    BLE_SM_PKACT_NONE
  else if F_INITIATOR (flags proc) then
    pka_at ble_sm_sc_init_pka (io_cap (pair_rsp proc)) (io_cap (pair_req proc))
  else
    pka_at ble_sm_sc_resp_pka (io_cap (pair_rsp proc)) (io_cap (pair_req proc)).

Definition ble_sm_sc_passkey_action (proc : ble_sm_proc)
  : pkact * ble_sm_proc :=
  let action := passkey_action_of proc in
  let proc :=
    match action with
    | BLE_SM_PKACT_NONE =>
        set_pair_alg BLE_SM_PAIR_ALG_JW proc
    | BLE_SM_PKACT_OOB =>
        let proc := set_pair_alg BLE_SM_PAIR_ALG_OOB proc in
        set_flags (set_authenticated (flags proc)) proc
    | BLE_SM_PKACT_INPUT | BLE_SM_PKACT_DISP =>
        let proc := set_pair_alg BLE_SM_PAIR_ALG_PASSKEY proc in
        set_flags (set_authenticated (flags proc)) proc
    | BLE_SM_PKACT_NUMCMP =>
        let proc := set_pair_alg BLE_SM_PAIR_ALG_NUMCMP proc in
        set_flags (set_authenticated (flags proc)) proc
    end in
  (action, proc).

Definition ble_sm_sc_ensure_keys_generated (w : world) : hs_rc * world :=
  if negb (ble_sm_sc_keys_generated w) then
    let '(rc, (pub, priv), x) :=
      ble_sm_gen_pub_priv (w_ext w) (ble_sm_sc_pub_key w)
        (ble_sm_sc_priv_key w) in
    let w := mk_world x (ble_sm_sc_keys_generated w) pub priv
               (EvGenPubPriv :: w_log w) in
    if failed rc then (rc, w)
    else (HS_OK, mk_world (w_ext w) true (ble_sm_sc_pub_key w)
                   (ble_sm_sc_priv_key w) (w_log w))
  else (HS_OK, w).

Definition ble_sm_sc_initiator_txes_confirm (proc : ble_sm_proc) : bool :=
  negb (pair_alg_eqb (pair_alg proc) BLE_SM_PAIR_ALG_JW) &&
  negb (pair_alg_eqb (pair_alg proc) BLE_SM_PAIR_ALG_NUMCMP).

Definition ble_sm_sc_responder_verifies_random (proc : ble_sm_proc) : bool :=
  negb (pair_alg_eqb (pair_alg proc) BLE_SM_PAIR_ALG_JW) &&
  negb (pair_alg_eqb (pair_alg proc) BLE_SM_PAIR_ALG_NUMCMP).

(** Modelled from the spec: [ble_sm_our_pair_rand] and
    [ble_sm_their_pair_rand] are defined in ble_sm.c, which is not among the
    sources.  They point at the local and the peer nonce of the procedure:
    the initiator's nonce is [randm], the responder's is [rands]. *)
Definition ble_sm_our_pair_rand (proc : ble_sm_proc) : bytes :=
  if F_INITIATOR (flags proc) then randm proc else rands proc.

Definition ble_sm_their_pair_rand (proc : ble_sm_proc) : bytes :=
  if F_INITIATOR (flags proc) then rands proc else randm proc.

(** A write through the pointer [ble_sm_our_pair_rand(proc)]. *)
Definition set_our_pair_rand (v : bytes) (proc : ble_sm_proc) : ble_sm_proc :=
  if F_INITIATOR (flags proc) then set_randm v proc else set_rands v proc.

(** [!!x] on a C integer. *)
Definition c_bool (x : Z) : Z := if x =? 0 then 0 else 1.

(** [proc->passkey_bits_exchanged++] on a [uint8_t]. *)
Definition u8_incr (n : Z) : Z := (n + 1) mod 256.

Definition ble_sm_sc_gen_ri (proc : ble_sm_proc) (w : world)
  : hs_rc * ble_sm_proc * world :=
  match pair_alg proc with
  | BLE_SM_PAIR_ALG_JW | BLE_SM_PAIR_ALG_NUMCMP =>
      (HS_OK, set_ri 0 proc, w)
  | BLE_SM_PAIR_ALG_PASSKEY =>
      let byte := passkey_bits_exchanged proc / 8 in
      let bit := passkey_bits_exchanged proc mod 8 in
      let proc :=
        set_ri (Z.lor 0x80
                  (c_bool (Z.land (nth (Z.to_nat byte) (tk proc) 0)
                                  (Z.shiftl 1 bit)))) proc in
      let proc :=
        set_passkey_bits_exchanged (u8_incr (passkey_bits_exchanged proc))
          proc in
      (HS_OK, proc, w)
  | BLE_SM_PAIR_ALG_OOB =>
      let '(rc, out, x) := ble_hci_util_rand (w_ext w) [ri proc] 1 in
      (rc, set_ri (hd (ri proc) out) proc, log EvRand (set_ext x w))
  end.

Definition ble_sm_sc_confirm_go (proc : ble_sm_proc) (res : ble_sm_result)
  (w : world) : ble_sm_proc * ble_sm_result * world :=
  let '(rc, proc, w) := ble_sm_sc_gen_ri proc w in
  if failed rc then (proc, fail_unspecified rc res, w) else
  let u := ble_sm_sc_pub_key w in
  let v := pk_x (pub_key_peer proc) in
  let x := ble_sm_our_pair_rand proc in
  let '(rc, value) := ble_sm_alg_f4 u v x (ri proc) in
  let w := log (EvF4 u v x (ri proc)) w in
  if failed rc then (proc, fail_unspecified rc res, w) else
  let '(rc, e) := ble_sm_pair_confirm_tx (w_ext w) (conn_handle proc) value in
  let w := log (EvTxConfirm (conn_handle proc) value) (set_ext e w) in
  if failed rc then (proc, fail_unspecified rc res, w) else
  if negb (F_INITIATOR (flags proc)) then
    (set_state BLE_SM_PROC_STATE_RANDOM proc, res, w)
  else (proc, res, w).

Definition ble_sm_sc_gen_numcmp (proc : ble_sm_proc) (res : ble_sm_result)
  (w : world) : ble_sm_result * world :=
  let pka := if F_INITIATOR (flags proc) then ble_sm_sc_pub_key w
             else pk_x (pub_key_peer proc) in
  let pkb := if F_INITIATOR (flags proc) then pk_x (pub_key_peer proc)
             else ble_sm_sc_pub_key w in
  let '(rc, n) := ble_sm_alg_g2 pka pkb (randm proc) (rands proc)
                    (numcmp (passkey_action res)) in
  let res := set_numcmp n (set_app_status rc res) in
  let w := log EvG2 w in
  if failed rc then
    (set_enc_cb (set_sm_err BLE_SM_ERR_UNSPECIFIED res), w)
  else (res, w).

Definition ble_sm_sc_random_advance (proc : ble_sm_proc) (w : world)
  : hs_rc * ble_sm_proc * world :=
  if negb (pair_alg_eqb (pair_alg proc) BLE_SM_PAIR_ALG_PASSKEY) ||
     (passkey_bits_exchanged proc >=? BLE_SM_SC_PASSKEY_BITS) then
    (HS_OK, set_state BLE_SM_PROC_STATE_DHKEY_CHECK proc, w)
  else
    let proc := set_state BLE_SM_PROC_STATE_CONFIRM proc in
    let '(rc, r, x) :=
      ble_sm_gen_pair_rand (w_ext w) (ble_sm_our_pair_rand proc) in
    let proc := set_our_pair_rand r proc in
    let w := log EvGenPairRand (set_ext x w) in
    if failed rc then (rc, proc, w) else (HS_OK, proc, w).

(** The tail that [ble_sm_sc_random_go] and [ble_sm_sc_random_rx] share:
    ask the application for the numeric comparison when it is due.
    [otherwise_execute] is the [else res->execute = 1] that only
    [ble_sm_sc_random_rx] has. *)
Definition random_pkact (otherwise_execute : bool) (proc : ble_sm_proc)
  (res : ble_sm_result) (w : world) : ble_sm_proc * ble_sm_result * world :=
  let '(pkact, proc) := ble_sm_sc_passkey_action proc in
  if proc_state_eqb (ble_sm_pkact_state pkact) (state proc) &&
     negb (F_IO_INJECTED (flags proc)) then
    let res := set_pkact pkact res in
    let '(res, w) := ble_sm_sc_gen_numcmp proc res w in
    (proc, res, w)
  else if otherwise_execute then (proc, set_execute res, w)
  else (proc, res, w).

Definition ble_sm_sc_random_go (proc : ble_sm_proc) (res : ble_sm_result)
  (w : world) : ble_sm_proc * ble_sm_result * world :=
  let value := firstn 16 (ble_sm_our_pair_rand proc) in
  let '(rc, e) := ble_sm_pair_random_tx (w_ext w) (conn_handle proc) value in
  let w := log (EvTxRandom (conn_handle proc) value) (set_ext e w) in
  if failed rc then (proc, fail_unspecified rc res, w) else
  if negb (F_INITIATOR (flags proc)) then
    let '(rc, proc, w) := ble_sm_sc_random_advance proc w in
    if failed rc then (proc, fail_unspecified rc res, w) else
    random_pkact false proc res w
  else (proc, res, w).

(** The part of [ble_sm_sc_random_rx] after the confirm check: derive the
    MAC key and the LTK, store the LTK in both key sets, move on. *)
Definition random_rx_keys (proc : ble_sm_proc) (res : ble_sm_result)
  (w : world) : ble_sm_proc * ble_sm_result * world :=
  let '(rc, (iat, ia, rat, ra)) := ble_sm_addrs (w_ext w) proc in
  if failed rc then (proc, fail_unspecified rc res, w) else
  let '(rc, (mk, lk)) :=
    ble_sm_alg_f5 (dhkey proc) (randm proc) (rands proc) iat ia rat ra
      (mackey proc) (ltk proc) in
  let proc := set_mackey_ltk mk lk proc in
  let w := log EvF5 w in
  if failed rc then (proc, fail_unspecified rc res, w) else
  let ours :=
    mk_keys (memcpy (keys_ltk (our_keys proc)) (ltk proc) 16) true 0 0 true in
  let peers :=
    mk_keys (memcpy (keys_ltk (peer_keys proc)) (ltk proc) 16) true 0 0 true in
  let proc := set_keys ours peers proc in
  if F_INITIATOR (flags proc) then
    let '(_, proc, w) := ble_sm_sc_random_advance proc w in
    random_pkact true proc res w
  else (proc, set_execute res, w).

Definition ble_sm_sc_random_rx (proc : ble_sm_proc) (res : ble_sm_result)
  (w : world) : ble_sm_proc * ble_sm_result * world :=
  if F_INITIATOR (flags proc) || ble_sm_sc_responder_verifies_random proc then
    let u := pk_x (pub_key_peer proc) in
    let v := ble_sm_sc_pub_key w in
    let x := ble_sm_their_pair_rand proc in
    let '(rc, confirm_val) := ble_sm_alg_f4 u v x (ri proc) in
    let w := log (EvF4 u v x (ri proc)) w in
    if failed rc then (proc, fail_unspecified rc res, w) else
    if memcmp_ne (confirm_peer proc) confirm_val 16 then
      (proc,
       set_enc_cb
         (set_sm_err BLE_SM_ERR_UNSPECIFIED
            (set_app_status (BLE_HS_SM_US_ERR BLE_SM_ERR_CONFIRM_MISMATCH)
               res)),
       w)
    else random_rx_keys proc res w
  else random_rx_keys proc res w.

Definition ble_sm_sc_public_key_go (proc : ble_sm_proc) (res : ble_sm_result)
  (w : world) : ble_sm_proc * ble_sm_result * world :=
  let '(rc, w) := ble_sm_sc_ensure_keys_generated w in
  let res := set_app_status rc res in
  if failed rc then
    (proc, set_sm_err BLE_SM_ERR_UNSPECIFIED (set_enc_cb res), w) else
  let cmd := mk_public_key (firstn 32 (ble_sm_sc_pub_key w))
               (firstn 32 (skipn 32 (ble_sm_sc_pub_key w))) in
  let '(rc, e) := ble_sm_public_key_tx (w_ext w) (conn_handle proc) cmd in
  let w := log (EvTxPublicKey (conn_handle proc)) (set_ext e w) in
  let res := set_app_status rc res in
  if failed rc then
    (proc, set_sm_err BLE_SM_ERR_UNSPECIFIED (set_enc_cb res), w) else
  let '(pkact, proc) := ble_sm_sc_passkey_action proc in
  let res :=
    if proc_state_eqb (ble_sm_pkact_state pkact) BLE_SM_PROC_STATE_CONFIRM
    then set_pkact pkact res else res in
  if negb (F_INITIATOR (flags proc)) then
    let proc := set_state BLE_SM_PROC_STATE_CONFIRM proc in
    if ble_sm_proc_can_advance proc &&
       negb (ble_sm_sc_initiator_txes_confirm proc) then
      (proc, set_execute res, w)
    else (proc, res, w)
  else (proc, res, w).

(** [ble_sm_sc_public_key_rx].  [om] is the packet; [found] is what
    [ble_sm_proc_find(conn_handle, BLE_SM_PROC_STATE_PUBLIC_KEY, -1, &prev)]
    returns, NULL or the procedure ([ble_sm_proc_find] belongs to ble_sm.c). *)
Definition ble_sm_sc_public_key_rx (om : bytes) (found : option ble_sm_proc)
  (res : ble_sm_result) (w : world)
  : option ble_sm_proc * ble_sm_result * world :=
  let rc := ble_hs_misc_pullup_base om BLE_SM_PUBLIC_KEY_SZ in
  let res := set_app_status rc res in
  if failed rc then (found, set_enc_cb res, w) else
  let '(rc, w) := ble_sm_sc_ensure_keys_generated w in
  let res := set_app_status rc res in
  if failed rc then
    (found, set_sm_err BLE_SM_ERR_UNSPECIFIED (set_enc_cb res), w) else
  let cmd := ble_sm_public_key_parse om in
  match found with
  | None =>
      (None,
       set_sm_err BLE_SM_ERR_UNSPECIFIED (set_app_status BLE_HS_ENOENT res), w)
  | Some proc =>
      let proc := set_pub_key_peer cmd proc in
      let '(rc, dh) :=
        ble_sm_alg_gen_dhkey (pk_x (pub_key_peer proc))
          (pk_y (pub_key_peer proc)) (ble_sm_sc_priv_key w) (dhkey proc) in
      let proc := set_dhkey dh proc in
      let w := log EvGenDhkey w in
      if failed rc then
        (Some proc,
         set_enc_cb
           (set_sm_err BLE_SM_ERR_DHKEY
              (set_app_status (BLE_HS_SM_US_ERR BLE_SM_ERR_DHKEY) res)), w)
      else if F_INITIATOR (flags proc) then
        let proc := set_state BLE_SM_PROC_STATE_CONFIRM proc in
        if ble_sm_proc_can_advance proc &&
           ble_sm_sc_initiator_txes_confirm proc then
          (Some proc, set_execute res, w)
        else (Some proc, res, w)
      else (Some proc, set_execute res, w)
  end.

(** [ble_sm_sc_dhkey_check_iocap]: the three bytes f6 takes. *)
Definition ble_sm_sc_dhkey_check_iocap (pair_cmd : ble_sm_pair_cmd) : bytes :=
  [Z.of_nat (io_cap_index (io_cap pair_cmd)); oob_data_flag pair_cmd;
   authreq pair_cmd].

Definition ble_sm_sc_dhkey_check_go (proc : ble_sm_proc) (res : ble_sm_result)
  (w : world) : ble_sm_proc * ble_sm_result * world :=
  let iocap :=
    if F_INITIATOR (flags proc) then ble_sm_sc_dhkey_check_iocap (pair_req proc)
    else ble_sm_sc_dhkey_check_iocap (pair_rsp proc) in
  let '(our_addr, our_addr_type) :=
    bls_hs_priv_copy_local_identity_addr (w_ext w) in
  let '(rc, (peer_addr_type, peer_addr)) := ble_sm_peer_addr (w_ext w) proc in
  if failed rc then (proc, fail_unspecified rc res, w) else
  let '(rc, value) :=
    ble_sm_alg_f6 (mackey proc) (ble_sm_our_pair_rand proc)
      (ble_sm_their_pair_rand proc) (tk proc) iocap
      our_addr_type our_addr peer_addr_type peer_addr in
  let w := log EvF6 w in
  if failed rc then (proc, fail_unspecified rc res, w) else
  let '(rc, e) := ble_sm_dhkey_check_tx (w_ext w) (conn_handle proc) value in
  let w := log (EvTxDhkeyCheck (conn_handle proc) value) (set_ext e w) in
  if failed rc then (proc, fail_unspecified rc res, w) else
  if negb (F_INITIATOR (flags proc)) then
    (set_state BLE_SM_PROC_STATE_LTK_START proc, res, w)
  else (proc, res, w).

(** The value [ble_sm_dhkey_check_process] expects from the peer: f6 with
    the peer's nonce first, the peer's IO triple and the peer's address
    first. *)
Definition dhkey_check_expected (proc : ble_sm_proc) (w : world)
  (peer_addr_type : Z) (peer_addr : bytes) : hs_rc * bytes :=
  let iocap :=
    if F_INITIATOR (flags proc) then ble_sm_sc_dhkey_check_iocap (pair_rsp proc)
    else ble_sm_sc_dhkey_check_iocap (pair_req proc) in
  let '(our_addr, our_addr_type) :=
    bls_hs_priv_copy_local_identity_addr (w_ext w) in
  ble_sm_alg_f6 (mackey proc) (ble_sm_their_pair_rand proc)
    (ble_sm_our_pair_rand proc) (tk proc) iocap
    peer_addr_type peer_addr our_addr_type our_addr.

Definition ble_sm_dhkey_check_process (proc : ble_sm_proc) (cmd : bytes)
  (res : ble_sm_result) (w : world) : ble_sm_proc * ble_sm_result * world :=
  let '(rc, (peer_addr_type, peer_addr)) := ble_sm_peer_addr (w_ext w) proc in
  let res := set_app_status rc res in
  if failed rc then
    (proc, set_enc_cb (set_sm_err BLE_SM_ERR_UNSPECIFIED res), w) else
  let '(rc, exp_value) :=
    dhkey_check_expected proc w peer_addr_type peer_addr in
  let w := log EvF6 w in
  let res := set_app_status rc res in
  if failed rc then
    (proc, set_enc_cb (set_sm_err BLE_SM_ERR_UNSPECIFIED res), w) else
  if memcmp_ne cmd exp_value 16 then
    (proc,
     set_enc_cb
       (set_app_status (BLE_HS_SM_US_ERR BLE_SM_ERR_DHKEY)
          (set_sm_err BLE_SM_ERR_DHKEY res)), w)
  else
  let '(pkact, proc) := ble_sm_sc_passkey_action proc in
  let proc :=
    if proc_state_eqb (ble_sm_pkact_state pkact) (state proc)
    then set_flags (set_advance_on_io (flags proc)) proc else proc in
  if ble_sm_proc_can_advance proc then
    let proc :=
      if F_INITIATOR (flags proc)
      then set_state BLE_SM_PROC_STATE_ENC_START proc else proc in
    (proc, set_execute res, w)
  else (proc, res, w).

(** [ble_sm_sc_dhkey_check_rx]; [found] is the result of
    [ble_sm_proc_find(conn_handle, BLE_SM_PROC_STATE_DHKEY_CHECK, -1,
    &prev)]. *)
Definition ble_sm_sc_dhkey_check_rx (om : bytes) (found : option ble_sm_proc)
  (res : ble_sm_result) (w : world)
  : option ble_sm_proc * ble_sm_result * world :=
  let rc := ble_hs_misc_pullup_base om BLE_SM_DHKEY_CHECK_SZ in
  let res := set_app_status rc res in
  if failed rc then
    (found, set_sm_err BLE_SM_ERR_UNSPECIFIED (set_enc_cb res), w) else
  let '(rc, cmd) := ble_sm_dhkey_check_parse om in
  let res := set_app_status rc res in
  if failed rc then
    (found, set_sm_err BLE_SM_ERR_UNSPECIFIED (set_enc_cb res), w) else
  match found with
  | None => (None, set_app_status BLE_HS_ENOENT res, w)
  | Some proc =>
      let '(proc, res, w) := ble_sm_dhkey_check_process proc cmd res w in
      (Some proc, res, w)
  end.

Definition ble_sm_sc_init (w : world) : world :=
  mk_world (w_ext w) false (ble_sm_sc_pub_key w) (ble_sm_sc_priv_key w)
    (w_log w).

End Steps.

(** ** Notions the properties are stated with *)

Section Notions.
Context {H : Host}.

(** The guard of the confirm check in [ble_sm_sc_random_rx]. *)
Definition random_rx_verifies (proc : ble_sm_proc) : bool :=
  F_INITIATOR (flags proc) || ble_sm_sc_responder_verifies_random proc.

(** The number of f4 calls in a log. *)
Definition f4_calls (l : list event) : nat :=
  length
    (filter (fun e => match e with EvF4 _ _ _ _ => true | _ => false end) l).

(** The number of f5 calls in a log. *)
Definition f5_calls (l : list event) : nat :=
  length (filter (fun e => match e with EvF5 => true | _ => false end) l).

(** The number of f6 calls in a log. *)
Definition f6_calls (l : list event) : nat :=
  length (filter (fun e => match e with EvF6 => true | _ => false end) l).

(** The number of key-pair generations in a log. *)
Definition gen_calls (l : list event) : nat :=
  length
    (filter (fun e => match e with EvGenPubPriv => true | _ => false end) l).

(** The number of Pairing Confirm transmissions in a log. *)
Definition confirm_txs (l : list event) : nat :=
  length
    (filter (fun e => match e with EvTxConfirm _ _ => true | _ => false end)
       l).

(** The result after the confirm-mismatch exit of [ble_sm_sc_random_rx]. *)
Definition confirm_mismatch_result (res : ble_sm_result) : ble_sm_result :=
  mk_result (BLE_HS_SM_US_ERR BLE_SM_ERR_CONFIRM_MISMATCH)
    (Some BLE_SM_ERR_UNSPECIFIED) true (execute res) (passkey_action res).

(** A little-endian byte string as a number; the passkey is kept this way
    in the first [BLE_SM_SC_PASSKEY_BYTES] bytes of [proc->tk]. *)
Fixpoint le_value (l : bytes) : Z :=
  match l with
  | [] => 0
  | b :: l => b + 256 * le_value l
  end.

Definition is_byte (b : Z) : Prop := 0 <= b < 256.

(** Whether the three calls of [ble_sm_sc_confirm_go] that can fail all
    succeed from [proc] and [w]. *)
Definition confirm_go_ok (proc : ble_sm_proc) (w : world) : bool :=
  let '(rc, proc, w) := ble_sm_sc_gen_ri proc w in
  negb (failed rc) &&
  let '(rc, value) :=
    ble_sm_alg_f4 (ble_sm_sc_pub_key w) (pk_x (pub_key_peer proc))
      (ble_sm_our_pair_rand proc) (ri proc) in
  negb (failed rc) &&
  negb (failed (fst (ble_sm_pair_confirm_tx (w_ext w) (conn_handle proc)
                       value))).

(** The same for [ble_sm_sc_dhkey_check_go]. *)
Definition dhkey_check_go_ok (proc : ble_sm_proc) (w : world) : bool :=
  let iocap :=
    if F_INITIATOR (flags proc) then ble_sm_sc_dhkey_check_iocap (pair_req proc)
    else ble_sm_sc_dhkey_check_iocap (pair_rsp proc) in
  let '(our_addr, our_addr_type) :=
    bls_hs_priv_copy_local_identity_addr (w_ext w) in
  let '(rc, (peer_addr_type, peer_addr)) := ble_sm_peer_addr (w_ext w) proc in
  negb (failed rc) &&
  let '(rc, value) :=
    ble_sm_alg_f6 (mackey proc) (ble_sm_our_pair_rand proc)
      (ble_sm_their_pair_rand proc) (tk proc) iocap
      our_addr_type our_addr peer_addr_type peer_addr in
  negb (failed rc) &&
  negb (failed (fst (ble_sm_dhkey_check_tx (w_ext w) (conn_handle proc)
                       value))).

(** [q] is [p] but for [ri] and [passkey_bits_exchanged]. *)
Definition same_but_ri_bits (p q : ble_sm_proc) : Prop :=
  q = set_passkey_bits_exchanged (passkey_bits_exchanged q) (set_ri (ri q) p).

(** [q] is [p] but for [ri], [passkey_bits_exchanged] and [state]. *)
Definition same_but_ri_bits_state (p q : ble_sm_proc) : Prop :=
  q = set_state (state q)
        (set_passkey_bits_exchanged (passkey_bits_exchanged q)
           (set_ri (ri q) p)).

(** The loop decision in the spec's words: back to Confirm exactly when the
    method is PasskeyEntry and fewer than 20 bits have been exchanged. *)
Definition loops_back (proc : ble_sm_proc) : bool :=
  pair_alg_eqb (pair_alg proc) BLE_SM_PAIR_ALG_PASSKEY &&
  (passkey_bits_exchanged proc <? 20).

(** The method both tables give for a pair of IO capabilities. *)
Definition init_method (rsp req : io_cap_t) : pair_alg_t :=
  pkact_alg (pka_at ble_sm_sc_init_pka rsp req).

Definition resp_method (rsp req : io_cap_t) : pair_alg_t :=
  pkact_alg (pka_at ble_sm_sc_resp_pka rsp req).

(** The verification rule in the spec's words: a responder always verifies,
    an initiator only for PasskeyEntry and OutOfBand. *)
Definition spec_must_verify (proc : ble_sm_proc) : bool :=
  negb (F_INITIATOR (flags proc)) ||
  pair_alg_eqb (pair_alg proc) BLE_SM_PAIR_ALG_PASSKEY ||
  pair_alg_eqb (pair_alg proc) BLE_SM_PAIR_ALG_OOB.

(** Whether [ble_sm_sc_public_key_rx] gets through its three calls that
    can fail: the pull-up of the packet, the key generation and the DH key
    computation. *)
Definition public_key_rx_ok (om : bytes) (proc : ble_sm_proc) (w : world)
  : bool :=
  negb (failed (ble_hs_misc_pullup_base om BLE_SM_PUBLIC_KEY_SZ)) &&
  let '(rc, w) := ble_sm_sc_ensure_keys_generated w in
  negb (failed rc) &&
  let cmd := ble_sm_public_key_parse om in
  negb (failed (fst (ble_sm_alg_gen_dhkey (pk_x cmd) (pk_y cmd)
                       (ble_sm_sc_priv_key w) (dhkey proc)))).

(** The same for [ble_sm_sc_public_key_go]: the key generation and the
    transmission of the public key. *)
Definition public_key_go_ok (proc : ble_sm_proc) (w : world) : bool :=
  let '(rc, w) := ble_sm_sc_ensure_keys_generated w in
  negb (failed rc) &&
  let cmd := mk_public_key (firstn 32 (ble_sm_sc_pub_key w))
               (firstn 32 (skipn 32 (ble_sm_sc_pub_key w))) in
  negb (failed (fst (ble_sm_public_key_tx (w_ext w) (conn_handle proc) cmd))).

(** The events [ble_sm_sc_random_rx] can log after the confirm check. *)
Definition keys_event (e : event) : bool :=
  match e with
  | EvF5 | EvGenPairRand | EvG2 => true
  | _ => false
  end.

End Notions.

(** ** A small concrete host

    Enough of the collaborators to run the steps on examples: a digest in
    place of the crypto functions, a counter in place of the RNG (the key
    generator fails while the counter is 0), transmissions that succeed. *)
Module Example.

Definition mix (l : bytes) : Z :=
  fold_left (fun a b => (a * 31 + b) mod 256) l 7.

Definition pkact_state (a : pkact) : proc_state :=
  match a with
  | BLE_SM_PKACT_NONE => BLE_SM_PROC_STATE_NONE
  | BLE_SM_PKACT_NUMCMP => BLE_SM_PROC_STATE_DHKEY_CHECK
  | _ => BLE_SM_PROC_STATE_CONFIRM
  end.

#[export] Instance host : Host := {|
  ext := nat;
  BLE_SM_PAIR_AUTHREQ_MITM := 4;
  ble_sm_pkact_state := pkact_state;
  ble_sm_proc_can_advance := fun _ => true;
  ble_sm_alg_f4 := fun u v x z => (HS_OK, repeat (mix (z :: u ++ v ++ x)) 16);
  ble_sm_alg_f5 := fun w n1 n2 a1t a1 a2t a2 _ _ =>
    (HS_OK, (repeat (mix (w ++ n1 ++ n2)) 16,
             repeat (mix (a1 ++ a2 ++ w ++ n1 ++ n2)) 16));
  ble_sm_alg_f6 := fun w n1 n2 r io a1t a1 a2t a2 =>
    (HS_OK, repeat (mix (w ++ n1 ++ n2 ++ r ++ io ++ a1 ++ a2)) 16);
  ble_sm_alg_g2 := fun u v x y _ => (HS_OK, mix (u ++ v ++ x ++ y));
  ble_sm_alg_gen_dhkey := fun x y priv _ =>
    (HS_OK, repeat (mix (x ++ priv)) 32);
  ble_sm_gen_pub_priv := fun e pub priv =>
    match e with
    | O => (HS_ERR 1, (pub, priv), S e)
    | _ => (HS_OK, (repeat (Z.of_nat e) 64, repeat (Z.of_nat e + 1) 32), S e)
    end;
  ble_hci_util_rand := fun e _ n => (HS_OK, repeat (Z.of_nat e mod 256) n, S e);
  ble_sm_gen_pair_rand := fun e _ =>
    (HS_OK, repeat (Z.of_nat e mod 256) 16, S e);
  ble_sm_public_key_tx := fun e _ _ => (HS_OK, e);
  ble_sm_pair_confirm_tx := fun e _ _ => (HS_OK, e);
  ble_sm_pair_random_tx := fun e _ _ => (HS_OK, e);
  ble_sm_dhkey_check_tx := fun e _ _ => (HS_OK, e);
  ble_sm_addrs := fun _ _ =>
    (HS_OK, (0, [1; 2; 3; 4; 5; 6], 0, [6; 5; 4; 3; 2; 1]));
  ble_sm_peer_addr := fun _ _ => (HS_OK, (0, [6; 5; 4; 3; 2; 1]));
  bls_hs_priv_copy_local_identity_addr := fun _ => ([1; 2; 3; 4; 5; 6], 0);
  ble_hs_misc_pullup_base := fun om n =>
    if (length om <? n)%nat then HS_ERR 2 else HS_OK;
  ble_sm_public_key_parse := fun om =>
    mk_public_key (firstn 32 om) (firstn 32 (skipn 32 om));
  ble_sm_dhkey_check_parse := fun om => (HS_OK, firstn 16 om)
|}.

Definition no_keys : ble_sm_keys := mk_keys (repeat 0 16) false 0 0 false.

Definition cmd (c : io_cap_t) (oob auth : Z) : ble_sm_pair_cmd :=
  mk_pair_cmd c oob auth.

(** A procedure of the given role and method, in the given state; both
    sides KeyboardDisplay with MITM set, passkey 0x000a5 in [tk]. *)
Definition proc (initiator : bool) (alg : pair_alg_t) (st : proc_state)
  : ble_sm_proc :=
  mk_proc 1 st (mk_flags initiator false false false true)
    (cmd BLE_SM_IO_CAP_KEYBOARD_DISP 0 4) (cmd BLE_SM_IO_CAP_KEYBOARD_DISP 0 4)
    alg 0 0 (0xa5 :: repeat 0 31)
    (mk_public_key (repeat 3 32) (repeat 4 32))
    (repeat 5 16) (repeat 6 16) (repeat 9 16) (repeat 0 32) (repeat 0 16)
    (repeat 0 16) no_keys no_keys.

(** The same with the IO capabilities of the request and the response
    chosen. *)
Definition proc_io (initiator : bool) (req rsp : ble_sm_pair_cmd)
  : ble_sm_proc :=
  mk_proc 1 BLE_SM_PROC_STATE_PUBLIC_KEY
    (mk_flags initiator false false false true) req rsp BLE_SM_PAIR_ALG_JW
    0 0 (repeat 0 32) (mk_public_key (repeat 3 32) (repeat 4 32))
    (repeat 5 16) (repeat 6 16) (repeat 9 16) (repeat 0 32) (repeat 0 16)
    (repeat 0 16) no_keys no_keys.

Definition res0 : ble_sm_result :=
  mk_result HS_OK None false false (mk_pka BLE_SM_PKACT_NONE 0).

(** Keys generated, RNG counter at 7. *)
Definition w0 : world := mk_world 7%nat true (repeat 1 64) (repeat 2 32) [].

(** Nothing generated yet, RNG counter at 0 (the generator fails once). *)
Definition w_fresh : world :=
  mk_world 0%nat false (repeat 0 64) (repeat 0 32) [].

End Example.

(** ** Sequences of steps *)

(** The entry points of ble_sm_sc.c that work on a procedure.  The two
    receive functions carry the packet. *)
Inductive sc_call :=
| CallPublicKeyGo
| CallPublicKeyRx (om : bytes)
| CallConfirmGo
| CallRandomGo
| CallRandomRx
| CallDhkeyCheckGo
| CallDhkeyCheckRx (om : bytes).

Section Sequences.
Context {H : Host}.

(** The procedure after a receive function that was handed [proc] by
    [ble_sm_proc_find]. *)
Definition found_proc (proc : ble_sm_proc)
  (r : option ble_sm_proc * ble_sm_result * world)
  : ble_sm_proc * ble_sm_result * world :=
  let '(found, res, w) := r in
  (match found with Some q => q | None => proc end, res, w).

(** One call on a procedure, its result and the world. *)
Definition run_call (c : sc_call)
  (st : ble_sm_proc * ble_sm_result * world)
  : ble_sm_proc * ble_sm_result * world :=
  let '(proc, res, w) := st in
  match c with
  | CallPublicKeyGo => ble_sm_sc_public_key_go proc res w
  | CallPublicKeyRx om =>
      found_proc proc (ble_sm_sc_public_key_rx om (Some proc) res w)
  | CallConfirmGo => ble_sm_sc_confirm_go proc res w
  | CallRandomGo => ble_sm_sc_random_go proc res w
  | CallRandomRx => ble_sm_sc_random_rx proc res w
  | CallDhkeyCheckGo => ble_sm_sc_dhkey_check_go proc res w
  | CallDhkeyCheckRx om =>
      found_proc proc (ble_sm_sc_dhkey_check_rx om (Some proc) res w)
  end.

(** Calls in a row, the first of the list first. *)
Fixpoint run_calls (cs : list sc_call)
  (st : ble_sm_proc * ble_sm_result * world)
  : ble_sm_proc * ble_sm_result * world :=
  match cs with
  | [] => st
  | c :: cs => run_calls cs (run_call c st)
  end.

(** What no step of this file writes: the connection, the pairing request
    and response, [tk], the confirm value of the peer, and three of the
    flags. *)
Definition rigid (p : ble_sm_proc)
  : Z * ble_sm_pair_cmd * ble_sm_pair_cmd * bytes * bytes *
    (bool * bool * bool) :=
  (conn_handle p, pair_req p, pair_rsp p, tk p, confirm_peer p,
   (F_INITIATOR (flags p), F_IO_INJECTED (flags p), F_SC (flags p))).

(** What a step keeps between the procedure before, [p], and after, [q]. *)
Definition step_keeps (p q : ble_sm_proc) : Prop :=
  rigid q = rigid p /\
  (F_AUTHENTICATED (flags p) = true -> F_AUTHENTICATED (flags q) = true) /\
  (F_ADVANCE_ON_IO (flags p) = true -> F_ADVANCE_ON_IO (flags q) = true) /\
  (ltk_valid (our_keys p) = true -> ltk_valid (our_keys q) = true) /\
  (ltk_valid (peer_keys p) = true -> ltk_valid (peer_keys q) = true) /\
  (state q = BLE_SM_PROC_STATE_PUBLIC_KEY ->
   state p = BLE_SM_PROC_STATE_PUBLIC_KEY) /\
  (state q = BLE_SM_PROC_STATE_NONE -> state p = BLE_SM_PROC_STATE_NONE).

(** What a step keeps between the world before, [w], and after, [w']: the
    log grows at its head, and a key pair that is there stays. *)
Definition world_keeps (w w' : world) : Prop :=
  (exists l, w_log w' = l ++ w_log w) /\
  (ble_sm_sc_keys_generated w = true ->
   ble_sm_sc_keys_generated w' = true /\
   ble_sm_sc_pub_key w' = ble_sm_sc_pub_key w /\
   ble_sm_sc_priv_key w' = ble_sm_sc_priv_key w).

(** The Ri bytes of [n] successive calls of [ble_sm_sc_gen_ri]. *)
Fixpoint gen_ri_seq (n : nat) (proc : ble_sm_proc) (w : world) : list Z :=
  match n with
  | O => []
  | S n =>
      let '(_, proc, w) := ble_sm_sc_gen_ri proc w in
      ri proc :: gen_ri_seq n proc w
  end.

(** The number whose binary digits, lowest first, are the lowest bits of
    the elements of [l]. *)
Fixpoint low_bits_value (l : list Z) : Z :=
  match l with
  | [] => 0
  | b :: l => Z.land b 1 + 2 * low_bits_value l
  end.

(** Whether the confirm check of [ble_sm_sc_random_rx] lets the step go on:
    it is not made, or f4 succeeds and the first 16 bytes agree. *)
Definition confirm_check_passes (proc : ble_sm_proc) (w : world) : bool :=
  negb (random_rx_verifies proc) ||
  let '(rc, confirm_val) :=
    ble_sm_alg_f4 (pk_x (pub_key_peer proc)) (ble_sm_sc_pub_key w)
      (ble_sm_their_pair_rand proc) (ri proc) in
  negb (failed rc) && negb (memcmp_ne (confirm_peer proc) confirm_val 16).

(** The transmissions in a log, by kind, most recent first. *)
Definition tx_dhkey_checks (l : list event) : list (Z * bytes) :=
  flat_map (fun e => match e with
                     | EvTxDhkeyCheck c v => [(c, v)]
                     | _ => []
                     end) l.

Definition tx_confirms (l : list event) : list (Z * bytes) :=
  flat_map (fun e => match e with
                     | EvTxConfirm c v => [(c, v)]
                     | _ => []
                     end) l.

Definition tx_randoms (l : list event) : list (Z * bytes) :=
  flat_map (fun e => match e with
                     | EvTxRandom c v => [(c, v)]
                     | _ => []
                     end) l.

Definition tx_public_keys (l : list event) : list Z :=
  flat_map (fun e => match e with
                     | EvTxPublicKey c => [c]
                     | _ => []
                     end) l.

(** The number of g2 calls in a log. *)
Definition g2_calls (l : list event) : nat :=
  length (filter (fun e => match e with EvG2 => true | _ => false end) l).

(** The number of DH key computations in a log. *)
Definition dhkey_gens (l : list event) : nat :=
  length
    (filter (fun e => match e with EvGenDhkey => true | _ => false end) l).

End Sequences.

(** ** The loop that runs the steps

    The steps of this file are called from ble_sm.c, which is not among the
    sources: it keeps the procedures, receives the messages of the peer and
    the answers of the application, and runs the step of a procedure's state
    when a result asks for it.  This section is that caller for one
    connection, as far as Secure Connections pairing goes. *)


Section Loop.
Context {H : Host}.
















End Loop.

(** ** A second concrete host

    Two devices on one host description: the state of the collaborators is
    a number, an even one on the first device and an odd one on the second,
    and each device has the other as its peer.  The nonce generator can be
    made to fail. *)
Module Lab.

Definition addr_a : bytes := [1; 2; 3; 4; 5; 6].
Definition addr_b : bytes := [6; 5; 4; 3; 2; 1].

Definition own_addr (e : nat) : bytes :=
  if Nat.even e then addr_a else addr_b.

Definition other_addr (e : nat) : bytes :=
  if Nat.even e then addr_b else addr_a.

Definition host (rng_fails : bool) : Host := {|
  ext := nat;
  BLE_SM_PAIR_AUTHREQ_MITM := 4;
  ble_sm_pkact_state := Example.pkact_state;
  ble_sm_proc_can_advance := fun _ => true;
  ble_sm_alg_f4 := fun u v x z =>
    (HS_OK, repeat (Example.mix (z :: u ++ v ++ x)) 16);
  ble_sm_alg_f5 := fun w n1 n2 a1t a1 a2t a2 _ _ =>
    (HS_OK, (repeat (Example.mix (w ++ n1 ++ n2)) 16,
             repeat (Example.mix (a1 ++ a2 ++ w ++ n1 ++ n2)) 16));
  ble_sm_alg_f6 := fun w n1 n2 r io a1t a1 a2t a2 =>
    (HS_OK, repeat (Example.mix (w ++ n1 ++ n2 ++ r ++ io ++ a1 ++ a2)) 16);
  ble_sm_alg_g2 := fun u v x y _ => (HS_OK, Example.mix (u ++ v ++ x ++ y));
  ble_sm_alg_gen_dhkey := fun x y priv _ =>
    (HS_OK, repeat (Example.mix (x ++ priv)) 32);
  ble_sm_gen_pub_priv := fun e pub priv =>
    (HS_OK, (repeat (Z.of_nat e) 64, repeat (Z.of_nat e + 1) 32), e);
  ble_hci_util_rand := fun e _ n => (HS_OK, repeat (Z.of_nat e mod 256) n, e);
  ble_sm_gen_pair_rand := fun e old =>
    if rng_fails then (HS_ERR 3, old, e)
    else (HS_OK, repeat (Z.of_nat e mod 256) 16, e);
  ble_sm_public_key_tx := fun e _ _ => (HS_OK, e);
  ble_sm_pair_confirm_tx := fun e _ _ => (HS_OK, e);
  ble_sm_pair_random_tx := fun e _ _ => (HS_OK, e);
  ble_sm_dhkey_check_tx := fun e _ _ => (HS_OK, e);
  ble_sm_addrs := fun _ _ => (HS_OK, (0, addr_a, 0, addr_b));
  ble_sm_peer_addr := fun e _ => (HS_OK, (0, other_addr e));
  bls_hs_priv_copy_local_identity_addr := fun e => (own_addr e, 0);
  ble_hs_misc_pullup_base := fun om n =>
    if (length om <? n)%nat then HS_ERR 2 else HS_OK;
  ble_sm_public_key_parse := fun om =>
    mk_public_key (firstn 32 om) (firstn 32 (skipn 32 om));
  ble_sm_dhkey_check_parse := fun om => (HS_OK, firstn 16 om)
|}.

(** The first device's world and the second's. *)
Definition w_a (rng_fails : bool) : world (H := host rng_fails) :=
  mk_world (H := host rng_fails) 0%nat true (repeat 1 64) (repeat 2 32) [].

Definition w_b (rng_fails : bool) : world (H := host rng_fails) :=
  mk_world (H := host rng_fails) 1%nat true (repeat 3 64) (repeat 4 32) [].

(** A PasskeyEntry pairing in the Random step of its first round.  The
    initiator has a keyboard only and the responder a display only, both ask
    for MITM protection, so both tables give PasskeyEntry; the passkey 0xa5
    is in [tk] and has been injected; one bit is exchanged and Ri is
    0x81. *)
Definition passkey_proc (initiator : bool) : ble_sm_proc :=
  mk_proc 1 BLE_SM_PROC_STATE_RANDOM (mk_flags initiator true false true true)
    (mk_pair_cmd BLE_SM_IO_CAP_KEYBOARD_ONLY 0 4)
    (mk_pair_cmd BLE_SM_IO_CAP_DISP_ONLY 0 4)
    BLE_SM_PAIR_ALG_PASSKEY 0x81 1 (0xa5 :: repeat 0 31)
    (mk_public_key (repeat 3 32) (repeat 4 32))
    (repeat 5 16) (repeat 6 16) (repeat 9 16) (repeat 0 32) (repeat 0 16)
    (repeat 0 16) Example.no_keys Example.no_keys.

(** The confirm value a peer with the same passkey bit has sent. *)
Definition peer_confirm (rng_fails : bool) (proc : ble_sm_proc)
  (w : world (H := host rng_fails)) : bytes :=
  snd (ble_sm_alg_f4 (Host := host rng_fails) (pk_x (pub_key_peer proc))
         (ble_sm_sc_pub_key w) (ble_sm_their_pair_rand proc) (ri proc)).

End Lab.

(** ** Bits of a little-endian byte string *)

Lemma testbit_cons_low (b v i : Z) :
  is_byte b -> 0 <= i < 8 -> Z.testbit (b + 256 * v) i = Z.testbit b i.
Proof.
  intros Hb Hi.
  rewrite <- (Z.mod_pow2_bits_low (b + 256 * v) 8 i) by lia.
  f_equal. change (2 ^ 8) with 256.
  replace (b + 256 * v) with (b + v * 256) by lia.
  rewrite Z.mod_add by lia.
  apply Z.mod_small. exact Hb.
Qed.

Lemma testbit_cons_high (b v i : Z) :
  is_byte b -> 8 <= i -> Z.testbit (b + 256 * v) i = Z.testbit v (i - 8).
Proof.
  intros Hb Hi.
  replace i with ((i - 8) + 8) at 1 by lia.
  rewrite <- Z.div_pow2_bits by lia.
  f_equal. change (2 ^ 8) with 256.
  replace (b + 256 * v) with (b + v * 256) by lia.
  rewrite Z.div_add by lia.
  rewrite (Z.div_small b 256) by exact Hb. lia.
Qed.

Lemma le_value_testbit (l : bytes) :
  Forall is_byte l ->
  forall i, 0 <= i ->
  Z.testbit (le_value l) i = Z.testbit (nth (Z.to_nat (i / 8)) l 0) (i mod 8).
Proof.
  induction 1 as [| b l Hb Hl IH]; intros i Hi.
  - simpl. destruct (Z.to_nat (i / 8)); rewrite !Z.bits_0; reflexivity.
  - cbn [le_value].
    destruct (Z_lt_ge_dec i 8) as [Hlt | Hge].
    + rewrite testbit_cons_low by (auto; lia).
      rewrite Z.div_small, Z.mod_small by lia. reflexivity.
    + rewrite testbit_cons_high by (auto; lia).
      rewrite IH by lia.
      replace i with ((i - 8) + 1 * 8) at 3 4 by lia.
      rewrite Z.div_add, Z.mod_add by lia.
      rewrite Z2Nat.inj_add by (try apply Z.div_pos; lia).
      rewrite Nat.add_comm. reflexivity.
Qed.

Lemma le_value_firstn_testbit (l : bytes) (n : nat) (i : Z) :
  Forall is_byte l -> 0 <= i < 8 * Z.of_nat n ->
  Z.testbit (le_value (firstn n l)) i
  = Z.testbit (nth (Z.to_nat (i / 8)) l 0) (i mod 8).
Proof.
  intros Hl Hi.
  rewrite le_value_testbit; [ | | lia].
  - f_equal.
    assert (Hlt : (Z.to_nat (i / 8) < n)%nat).
    { apply Nat2Z.inj_lt. rewrite Z2Nat.id by (apply Z.div_pos; lia).
      apply Z.div_lt_upper_bound; lia. }
    revert Hlt. generalize (Z.to_nat (i / 8)). clear.
    revert l. induction n as [| n IH]; intros l k Hk; [lia | ].
    destruct l as [| b l]; [destruct k; reflexivity | ].
    destruct k as [| k]; [reflexivity | ].
    cbn [firstn nth]. apply IH. lia.
  - clear Hi. revert n. induction Hl; intros [| n]; cbn [firstn]; auto.
Qed.

Lemma c_bool_land_bit (x n : Z) :
  0 <= n -> c_bool (Z.land x (Z.shiftl 1 n)) = Z.b2z (Z.testbit x n).
Proof.
  intros Hn. unfold c_bool. rewrite Z.shiftl_1_l.
  destruct (Z.testbit x n) eqn:Hb.
  - destruct (Z.eqb_spec (Z.land x (2 ^ n)) 0) as [E | E]; [ | reflexivity].
    assert (Hc : Z.testbit (Z.land x (2 ^ n)) n = true).
    { rewrite Z.land_spec, Hb, Z.pow2_bits_true by lia. reflexivity. }
    rewrite E, Z.bits_0 in Hc. discriminate.
  - assert (E : Z.land x (2 ^ n) = 0).
    { apply Z.bits_inj'. intros m Hm.
      rewrite Z.land_spec, Z.bits_0, Z.pow2_bits_eqb by lia.
      destruct (Z.eqb_spec n m) as [-> | _].
      - rewrite Hb. reflexivity.
      - apply andb_false_r. }
    rewrite E. reflexivity.
Qed.

(** ** The steps, one at a time *)

Section Basics.
Context {H : Host}.

Lemma failed_false (rc : hs_rc) : failed rc = false -> rc = HS_OK.
Proof. destruct rc; simpl; congruence. Qed.

(** The algorithm [ble_sm_sc_passkey_action] stores is the one its action
    maps to. *)
Lemma passkey_action_alg (p : ble_sm_proc) :
  pair_alg (snd (ble_sm_sc_passkey_action p)) = pkact_alg (passkey_action_of p)
  /\ fst (ble_sm_sc_passkey_action p) = passkey_action_of p.
Proof.
  unfold ble_sm_sc_passkey_action.
  destruct (passkey_action_of p); split; reflexivity.
Qed.

(** What [ble_sm_sc_passkey_action] leaves alone: everything but
    [pair_alg] and the flags, and of the flags everything but
    AUTHENTICATED. *)
Lemma passkey_action_frame (p : ble_sm_proc) :
  let q := snd (ble_sm_sc_passkey_action p) in
  q = set_flags (flags q) (set_pair_alg (pair_alg q) p) /\
  F_INITIATOR (flags q) = F_INITIATOR (flags p) /\
  F_IO_INJECTED (flags q) = F_IO_INJECTED (flags p).
Proof.
  unfold ble_sm_sc_passkey_action.
  destruct (passkey_action_of p); destruct p; repeat split; reflexivity.
Qed.

(** Away from [DisplayYesNo] responder and [KeyboardDisplay] initiator the
    two tables give the same method. *)
Lemma tables_agree_elsewhere (rsp req : io_cap_t) :
  (rsp, req) <> (BLE_SM_IO_CAP_DISP_YES_NO, BLE_SM_IO_CAP_KEYBOARD_DISP) ->
  init_method rsp req = resp_method rsp req.
Proof.
  destruct rsp, req; intros Hne; try reflexivity.
  exfalso. apply Hne. reflexivity.
Qed.

(** The same when the responder's table is read the other way round, as
    its declaration [[5 /*init*/][5 /*resp*/]] suggests. *)
Lemma tables_agree_elsewhere_transposed (rsp req : io_cap_t) :
  (rsp, req) <> (BLE_SM_IO_CAP_DISP_YES_NO, BLE_SM_IO_CAP_KEYBOARD_DISP) ->
  init_method rsp req = resp_method req rsp.
Proof.
  destruct rsp, req; intros Hne; try reflexivity.
  exfalso. apply Hne. reflexivity.
Qed.

(** With an OOB flag set, or with no MITM bit set, the role does not
    matter: the tables are not consulted. *)
Lemma passkey_action_without_tables (p : ble_sm_proc) (f : proc_flags) :
  (negb (oob_data_flag (pair_req p) =? 0) ||
   negb (oob_data_flag (pair_rsp p) =? 0) ||
   (negb (authreq_mitm (pair_req p)) && negb (authreq_mitm (pair_rsp p))))
  = true ->
  passkey_action_of (set_flags f p) = passkey_action_of p.
Proof.
  unfold passkey_action_of. destruct p; simpl.
  intros Hc.
  destruct (negb (oob_data_flag pair_req0 =? 0) ||
            negb (oob_data_flag pair_rsp0 =? 0)); [reflexivity | ].
  simpl in Hc. rewrite Hc. reflexivity.
Qed.

(** C2, at the input where it fails.  The initiator has KeyboardDisplay
    and asks for MITM protection, the responder has DisplayYesNo, nobody
    has OOB data: the initiator's table gives PasskeyEntry and the
    responder's table gives NumericComparison, so the two ends of one
    pairing resolve different methods. *)
Theorem passkey_action_roles_disagree :
  let req := Example.cmd BLE_SM_IO_CAP_KEYBOARD_DISP 0 4 in
  let rsp := Example.cmd BLE_SM_IO_CAP_DISP_YES_NO 0 0 in
  pair_alg (snd (ble_sm_sc_passkey_action (H := Example.host)
                   (Example.proc_io true req rsp)))
    = BLE_SM_PAIR_ALG_PASSKEY /\
  pair_alg (snd (ble_sm_sc_passkey_action (H := Example.host)
                   (Example.proc_io false req rsp)))
    = BLE_SM_PAIR_ALG_NUMCMP /\
  init_method BLE_SM_IO_CAP_DISP_YES_NO BLE_SM_IO_CAP_KEYBOARD_DISP
    <> resp_method BLE_SM_IO_CAP_DISP_YES_NO BLE_SM_IO_CAP_KEYBOARD_DISP /\
  init_method BLE_SM_IO_CAP_DISP_YES_NO BLE_SM_IO_CAP_KEYBOARD_DISP
    <> resp_method BLE_SM_IO_CAP_KEYBOARD_DISP BLE_SM_IO_CAP_DISP_YES_NO.
Proof.
  repeat split; try reflexivity; vm_compute; discriminate.
Qed.

(** C9.  [ble_sm_sc_ensure_keys_generated] is idempotent.  A call that
    fails found no keys, hands back the generator's code and leaves the
    keys unmarked.  A call that succeeds leaves them marked; if they were
    not marked before, the generator ran once and the key pair is the one it
    produced.  After a success a second call succeeds and changes nothing:
    no generator call, the same public key. *)
Theorem ensure_keys_generated_idempotent (w : world) :
  let gen := ble_sm_gen_pub_priv (w_ext w) (ble_sm_sc_pub_key w)
               (ble_sm_sc_priv_key w) in
  let '(rc1, w1) := ble_sm_sc_ensure_keys_generated w in
  let '(rc2, w2) := ble_sm_sc_ensure_keys_generated w1 in
  if failed rc1 then
    ble_sm_sc_keys_generated w = false /\
    rc1 = fst (fst gen) /\
    ble_sm_sc_keys_generated w1 = false
  else
    rc1 = HS_OK /\
    ble_sm_sc_keys_generated w1 = true /\
    (if ble_sm_sc_keys_generated w then w1 = w
     else ble_sm_sc_pub_key w1 = fst (snd (fst gen)) /\
          ble_sm_sc_priv_key w1 = snd (snd (fst gen)) /\
          w_log w1 = EvGenPubPriv :: w_log w) /\
    rc2 = HS_OK /\ w2 = w1 /\
    ble_sm_sc_pub_key w2 = ble_sm_sc_pub_key w1 /\
    gen_calls (w_log w2) = gen_calls (w_log w1).
Proof.
  unfold ble_sm_sc_ensure_keys_generated.
  destruct w as [x g pub priv l]. cbn [ble_sm_sc_keys_generated w_ext
    ble_sm_sc_pub_key ble_sm_sc_priv_key w_log].
  destruct g; cbn [negb].
  - cbn. repeat split; reflexivity.
  - destruct (ble_sm_gen_pub_priv x pub priv) as [[rc [pub' priv']] x'].
    cbn [fst snd].
    destruct (failed rc) eqn:Hrc.
    + cbn.
      destruct (ble_sm_gen_pub_priv x' pub' priv') as [[rc2 [pub2 priv2]] x2].
      destruct (failed rc2); rewrite Hrc; repeat split; reflexivity.
    + cbn. repeat split; reflexivity.
Qed.

(** [ble_sm_sc_gen_ri] writes [ri] and [passkey_bits_exchanged] only. *)
Lemma gen_ri_frame (p : ble_sm_proc) (w : world) :
  exists r b,
    snd (fst (ble_sm_sc_gen_ri p w))
    = set_passkey_bits_exchanged b (set_ri r p).
Proof.
  unfold ble_sm_sc_gen_ri.
  destruct (pair_alg p) eqn:Ea.
  - exists 0, (passkey_bits_exchanged p). destruct p; reflexivity.
  - eexists _, _. cbn [fst snd]. destruct p; reflexivity.
  - destruct (ble_hci_util_rand (w_ext w) [ri p] 1) as [[rc out] x].
    exists (hd (ri p) out), (passkey_bits_exchanged p). destruct p; reflexivity.
  - exists 0, (passkey_bits_exchanged p). destruct p; reflexivity.
Qed.

(** C7.  The round value Ri that [ble_sm_sc_gen_ri] leaves in the
    procedure: 0 for JustWorks and NumericComparison; for PasskeyEntry
    0x80 or-ed with bit number [passkey_bits_exchanged] of the passkey (the
    little-endian value of the first four bytes of [tk]), the counter being
    incremented afterwards; for OutOfBand the byte the RNG collaborator
    writes.  The counter is below 20, as the function asserts, and [tk]
    holds bytes. *)
Theorem gen_ri_value (p : ble_sm_proc) (w : world) :
  Forall is_byte (tk p) ->
  0 <= passkey_bits_exchanged p < BLE_SM_SC_PASSKEY_BITS ->
  ble_sm_sc_gen_ri p w =
  match pair_alg p with
  | BLE_SM_PAIR_ALG_JW | BLE_SM_PAIR_ALG_NUMCMP => (HS_OK, set_ri 0 p, w)
  | BLE_SM_PAIR_ALG_PASSKEY =>
      let i := passkey_bits_exchanged p in
      let passkey :=
        le_value (firstn (Z.to_nat BLE_SM_SC_PASSKEY_BYTES) (tk p)) in
      (HS_OK,
       set_passkey_bits_exchanged (i + 1)
         (set_ri (Z.lor 0x80 (Z.b2z (Z.testbit passkey i))) p),
       w)
  | BLE_SM_PAIR_ALG_OOB =>
      let '(rc, out, x) := ble_hci_util_rand (w_ext w) [ri p] 1 in
      (rc, set_ri (hd (ri p) out) p, log EvRand (set_ext x w))
  end.
Proof.
  intros Htk Hi. unfold BLE_SM_SC_PASSKEY_BITS in Hi.
  unfold ble_sm_sc_gen_ri.
  destruct (pair_alg p); try reflexivity.
  cbv zeta.
  rewrite c_bool_land_bit by (apply Z.mod_pos_bound; lia).
  rewrite le_value_firstn_testbit
    by (auto; unfold BLE_SM_SC_PASSKEY_BYTES; simpl; lia).
  replace (passkey_bits_exchanged
             (set_ri (Z.lor 128
                (Z.b2z (Z.testbit
                   (nth (Z.to_nat (passkey_bits_exchanged p / 8)) (tk p) 0)
                   (passkey_bits_exchanged p mod 8)))) p))
    with (passkey_bits_exchanged p) by (destruct p; reflexivity).
  unfold u8_incr. rewrite Z.mod_small by lia. reflexivity.
Qed.

End Basics.

Section StateMoves.
Context {H : Host}.

(** C10.  Which step moves the state.  [ble_sm_sc_confirm_go] sets the
    state to RANDOM when its three calls succeed and the procedure is the
    responder, and leaves the state alone otherwise; apart from the state
    it writes [ri] and [passkey_bits_exchanged] only, so an initiator's
    procedure is the same but for these two.  [ble_sm_sc_dhkey_check_go]
    sets the state to LTK_START when its calls succeed and the procedure is
    the responder, and leaves the procedure alone otherwise. *)
Theorem confirm_go_advances_responder_only
  (p : ble_sm_proc) (res : ble_sm_result) (w : world) :
  let '(p', _, _) := ble_sm_sc_confirm_go p res w in
  let '(q', _, _) := ble_sm_sc_dhkey_check_go p res w in
  state p' = (if confirm_go_ok p w && negb (F_INITIATOR (flags p))
              then BLE_SM_PROC_STATE_RANDOM else state p) /\
  same_but_ri_bits_state p p' /\
  (if F_INITIATOR (flags p) then same_but_ri_bits p p' else True) /\
  q' = (if dhkey_check_go_ok p w && negb (F_INITIATOR (flags p))
        then set_state BLE_SM_PROC_STATE_LTK_START p else p).
Proof.
  assert (Hd : let '(q', _, _) := ble_sm_sc_dhkey_check_go p res w in
               q' = (if dhkey_check_go_ok p w && negb (F_INITIATOR (flags p))
                     then set_state BLE_SM_PROC_STATE_LTK_START p else p)).
  { unfold ble_sm_sc_dhkey_check_go, dhkey_check_go_ok.
    destruct (bls_hs_priv_copy_local_identity_addr (w_ext w)) as [oa ot].
    destruct (ble_sm_peer_addr (w_ext w) p) as [rc [pt pa]].
    destruct (failed rc); [reflexivity | ].
    destruct (ble_sm_alg_f6 _ _ _ _ _ _ _ _ _) as [rc6 value].
    destruct (failed rc6); [reflexivity | ].
    cbn [log set_ext w_ext].
    destruct (ble_sm_dhkey_check_tx (w_ext w) (conn_handle p) value)
      as [rct e].
    cbn [fst]. destruct (failed rct); [reflexivity | ].
    destruct (F_INITIATOR (flags p)); reflexivity. }
  destruct (ble_sm_sc_dhkey_check_go p res w) as [[q' rq] wq].
  assert (Hc : let '(p', _, _) := ble_sm_sc_confirm_go p res w in
    state p' = (if confirm_go_ok p w && negb (F_INITIATOR (flags p))
                then BLE_SM_PROC_STATE_RANDOM else state p) /\
    same_but_ri_bits_state p p' /\
    (if F_INITIATOR (flags p) then same_but_ri_bits p p' else True)).
  { unfold ble_sm_sc_confirm_go, confirm_go_ok.
    destruct (gen_ri_frame p w) as (r & b & Hg).
    destruct (ble_sm_sc_gen_ri p w) as [[rc p1] w1]. cbn [fst snd] in Hg.
    subst p1.
    assert (Hsame : same_but_ri_bits p
                      (set_passkey_bits_exchanged b (set_ri r p)))
      by (destruct p; reflexivity).
    assert (Hsame' : same_but_ri_bits_state p
                      (set_passkey_bits_exchanged b (set_ri r p)))
      by (destruct p; reflexivity).
    assert (Hst : state (set_passkey_bits_exchanged b (set_ri r p)) = state p)
      by (destruct p; reflexivity).
    assert (Hfl : flags (set_passkey_bits_exchanged b (set_ri r p)) = flags p)
      by (destruct p; reflexivity).
    assert (Hini : forall T (x : T),
               (if F_INITIATOR (flags p) then same_but_ri_bits p
                   (set_passkey_bits_exchanged b (set_ri r p)) else True))
      by (intros; destruct (F_INITIATOR (flags p)); auto).
    specialize (Hini unit tt).
    destruct (failed rc); cbn [negb andb]; [auto | ].
    destruct (ble_sm_alg_f4 _ _ _ _) as [rc4 value].
    destruct (failed rc4); cbn [negb andb]; [auto | ].
    cbn [log set_ext w_ext].
    destruct (ble_sm_pair_confirm_tx _ _ _) as [rct e]. cbn [fst].
    destruct (failed rct); cbn [negb andb]; [auto | ].
    rewrite Hfl.
    destruct (F_INITIATOR (flags p)) eqn:Ei; cbn [negb]; [auto | ].
    repeat split; destruct p; reflexivity. }
  destruct (ble_sm_sc_confirm_go p res w) as [[p' rp] wp].
  destruct Hc as (H1 & H2 & H3). auto.
Qed.

End StateMoves.

(** ** The Random step *)

Section RandomStep.
Context {H : Host}.

(** The guard of the confirm check, by role and method. *)
Lemma random_rx_verifies_table (p : ble_sm_proc) :
  random_rx_verifies p =
  (F_INITIATOR (flags p) ||
   match pair_alg p with
   | BLE_SM_PAIR_ALG_PASSKEY | BLE_SM_PAIR_ALG_OOB => true
   | BLE_SM_PAIR_ALG_JW | BLE_SM_PAIR_ALG_NUMCMP => false
   end).
Proof.
  unfold random_rx_verifies, ble_sm_sc_responder_verifies_random.
  destruct (pair_alg p); reflexivity.
Qed.

(** [ble_sm_sc_random_advance] writes the state and the local nonce. *)
Lemma random_advance_frame (p : ble_sm_proc) (w : world) :
  let '(_, q, w') := ble_sm_sc_random_advance p w in
  (exists s a b, q = set_rands b (set_randm a (set_state s p))) /\
  exists l, w_log w' = l ++ w_log w /\ forallb keys_event l = true.
Proof.
  unfold ble_sm_sc_random_advance, set_our_pair_rand.
  destruct (negb (pair_alg_eqb (pair_alg p) BLE_SM_PAIR_ALG_PASSKEY) ||
            (passkey_bits_exchanged p >=? BLE_SM_SC_PASSKEY_BITS)).
  - split; [ | exists []; auto].
    exists BLE_SM_PROC_STATE_DHKEY_CHECK, (randm p), (rands p).
    destruct p; reflexivity.
  - destruct (ble_sm_gen_pair_rand _ _) as [[rc r] x].
    assert (Hq : exists s a b,
               (if F_INITIATOR (flags (set_state BLE_SM_PROC_STATE_CONFIRM p))
                then set_randm r (set_state BLE_SM_PROC_STATE_CONFIRM p)
                else set_rands r (set_state BLE_SM_PROC_STATE_CONFIRM p))
               = set_rands b (set_randm a (set_state s p))).
    { destruct (F_INITIATOR (flags (set_state BLE_SM_PROC_STATE_CONFIRM p))).
      - exists BLE_SM_PROC_STATE_CONFIRM, r, (rands p).
        destruct p; reflexivity.
      - exists BLE_SM_PROC_STATE_CONFIRM, (randm p), r.
        destruct p; reflexivity. }
    destruct (failed rc); cbn [log set_ext w_log];
      (split; [exact Hq | exists [EvGenPairRand]; auto]).
Qed.

(** The numeric-comparison tail writes [pair_alg] and the flags. *)
Lemma random_pkact_frame (b : bool) (p : ble_sm_proc) (res : ble_sm_result)
  (w : world) :
  let '(q, _, w') := random_pkact b p res w in
  (exists a f, q = set_flags f (set_pair_alg a p)) /\
  exists l, w_log w' = l ++ w_log w /\ forallb keys_event l = true.
Proof.
  unfold random_pkact.
  pose proof (passkey_action_frame p) as (Hq & _).
  destruct (ble_sm_sc_passkey_action p) as [a q]. cbn [snd] in Hq.
  unfold ble_sm_sc_gen_numcmp.
  destruct (proc_state_eqb (ble_sm_pkact_state a) (state q) &&
            negb (F_IO_INJECTED (flags q))).
  - destruct (ble_sm_alg_g2 _ _ _ _ _) as [rc n].
    destruct (failed rc); cbn [log w_log];
      (split; [eexists _, _; exact Hq | exists [EvG2]; auto]).
  - destruct b; (split; [eexists _, _; exact Hq | exists []; auto]).
Qed.

Lemma keys_events_uncounted (l l0 : list event) :
  forallb keys_event l = true ->
  f4_calls (l ++ l0) = f4_calls l0 /\
  f6_calls (l ++ l0) = f6_calls l0 /\
  confirm_txs (l ++ l0) = confirm_txs l0.
Proof.
  induction l as [| e l IH]; intros Hl; [auto | ].
  cbn [forallb] in Hl. apply andb_true_iff in Hl as [He Hl].
  destruct (IH Hl) as (I4 & I6 & Ic).
  unfold f4_calls, f6_calls, confirm_txs in *.
  destruct e; try discriminate He; cbn; auto.
Qed.

(** After the confirm check: only f5, the nonce generator and g2 are
    called; when the addresses are known and f5 succeeds, the procedure
    holds the MAC key and the LTK of f5, and both key sets hold the LTK,
    marked valid. *)
Lemma random_rx_keys_spec (p : ble_sm_proc) (res : ble_sm_result) (w : world) :
  let '(rca, (iat, ia, rat, ra)) := ble_sm_addrs (w_ext w) p in
  let '(rc5, (mk, lk)) :=
    ble_sm_alg_f5 (dhkey p) (randm p) (rands p) iat ia rat ra
      (mackey p) (ltk p) in
  let '(p', _, w') := random_rx_keys p res w in
  (exists l, w_log w' = l ++ w_log w /\ forallb keys_event l = true) /\
  (failed rca = false -> failed rc5 = false ->
   ltk p' = lk /\ mackey p' = mk /\
   our_keys p' = mk_keys (memcpy (keys_ltk (our_keys p)) lk 16) true 0 0 true /\
   peer_keys p'
   = mk_keys (memcpy (keys_ltk (peer_keys p)) lk 16) true 0 0 true).
Proof.
  unfold random_rx_keys.
  destruct (ble_sm_addrs (w_ext w) p) as [rca [[[iat ia] rat] ra]].
  destruct (ble_sm_alg_f5 _ _ _ _ _ _ _ _ _) as [rc5 [mk lk]].
  destruct (failed rca).
  { split; [exists []; auto | discriminate]. }
  destruct (failed rc5).
  { split; [exists [EvF5]; auto | discriminate]. }
  cbv zeta.
  set (p2 := set_keys _ _ _).
  assert (Hp2 : ltk p2 = lk /\ mackey p2 = mk /\
    our_keys p2
    = mk_keys (memcpy (keys_ltk (our_keys p)) lk 16) true 0 0 true /\
    peer_keys p2
    = mk_keys (memcpy (keys_ltk (peer_keys p)) lk 16) true 0 0 true).
  { subst p2. destruct p; cbn. auto. }
  destruct (F_INITIATOR (flags p2)).
  - pose proof (random_advance_frame p2 (log EvF5 w)) as Ha.
    destruct (ble_sm_sc_random_advance p2 (log EvF5 w)) as [[rcv q] wa].
    destruct Ha as ((s & a & b & Hq) & (l1 & Hl1 & Hk1)).
    pose proof (random_pkact_frame true q res wa) as Hb.
    destruct (random_pkact true q res wa) as [[q2 r2] w2].
    destruct Hb as ((a2 & f2 & Hq2) & (l2 & Hl2 & Hk2)).
    split.
    + exists (l2 ++ l1 ++ [EvF5]). split.
      * rewrite Hl2, Hl1. cbn [log w_log]. rewrite <- !app_assoc. reflexivity.
      * rewrite !forallb_app, Hk2, Hk1. reflexivity.
    + intros _ _. subst q2 q. destruct p2; cbn in *. exact Hp2.
  - split; [exists [EvF5]; auto | intros _ _; exact Hp2].
Qed.

(** The whole of [ble_sm_sc_random_rx], branch by branch. *)
Lemma random_rx_unfold (p : ble_sm_proc) (res : ble_sm_result) (w : world) :
  ble_sm_sc_random_rx p res w =
  if random_rx_verifies p then
    let ev := EvF4 (pk_x (pub_key_peer p)) (ble_sm_sc_pub_key w)
                (ble_sm_their_pair_rand p) (ri p) in
    let '(rc, confirm_val) :=
      ble_sm_alg_f4 (pk_x (pub_key_peer p)) (ble_sm_sc_pub_key w)
        (ble_sm_their_pair_rand p) (ri p) in
    if failed rc then (p, fail_unspecified rc res, log ev w)
    else if memcmp_ne (confirm_peer p) confirm_val 16
         then (p, confirm_mismatch_result res, log ev w)
         else random_rx_keys p res (log ev w)
  else random_rx_keys p res w.
Proof.
  unfold ble_sm_sc_random_rx, random_rx_verifies.
  destruct (F_INITIATOR (flags p) || ble_sm_sc_responder_verifies_random p);
    [ | reflexivity].
  destruct (ble_sm_alg_f4 _ _ _ _) as [rc cv]. reflexivity.
Qed.

Lemma random_rx_keys_log (p : ble_sm_proc) (res : ble_sm_result) (w : world) :
  exists l, w_log (snd (random_rx_keys p res w)) = l ++ w_log w /\
            forallb keys_event l = true.
Proof.
  pose proof (random_rx_keys_spec p res w) as Hs.
  destruct (ble_sm_addrs (w_ext w) p) as [rca [[[iat ia] rat] ra]].
  destruct (ble_sm_alg_f5 _ _ _ _ _ _ _ _ _) as [rc5 [mk lk]].
  destruct (random_rx_keys p res w) as [[p' r'] w'].
  exact (proj1 Hs).
Qed.

(** C1, amended.  On the peer's nonce, [ble_sm_sc_random_rx] recomputes the
    confirm value (f4 over the peer's public key, our public key, the peer's
    nonce and Ri) and compares it with the confirm value received before,
    exactly when the procedure is the initiator, or is the responder with
    PasskeyEntry or OutOfBand; a responder with JustWorks or
    NumericComparison makes no f4 call and goes straight to the key
    derivation.  When the check is made, f4 is the first call, a failure of
    f4 ends the step, a difference in the first 16 bytes ends it with the
    confirm-mismatch status, and equality leads to the key derivation. *)
Theorem random_rx_checks_confirm
  (p : ble_sm_proc) (res : ble_sm_result) (w : world) :
  let u := pk_x (pub_key_peer p) in
  let v := ble_sm_sc_pub_key w in
  let x := ble_sm_their_pair_rand p in
  let checks :=
    F_INITIATOR (flags p) ||
    match pair_alg p with
    | BLE_SM_PAIR_ALG_PASSKEY | BLE_SM_PAIR_ALG_OOB => true
    | BLE_SM_PAIR_ALG_JW | BLE_SM_PAIR_ALG_NUMCMP => false
    end in
  let '(rc, confirm_val) := ble_sm_alg_f4 u v x (ri p) in
  let '(p', res', w') := ble_sm_sc_random_rx p res w in
  f4_calls (w_log w') = ((if checks then 1 else 0) + f4_calls (w_log w))%nat /\
  if checks then
    (exists l, w_log w' = l ++ EvF4 u v x (ri p) :: w_log w) /\
    (if failed rc then
       (p', res', w') = (p, fail_unspecified rc res, log (EvF4 u v x (ri p)) w)
     else if memcmp_ne (confirm_peer p) confirm_val 16 then
       (p', res', w')
       = (p, confirm_mismatch_result res, log (EvF4 u v x (ri p)) w)
     else
       (p', res', w') = random_rx_keys p res (log (EvF4 u v x (ri p)) w))
  else (p', res', w') = random_rx_keys p res w.
Proof.
  cbv zeta.
  rewrite random_rx_unfold, random_rx_verifies_table.
  destruct (F_INITIATOR (flags p) || _).
  - destruct (ble_sm_alg_f4 _ _ _ _) as [rc cv].
    destruct (failed rc).
    { cbn [log w_log]. repeat split. exists []. reflexivity. }
    destruct (memcmp_ne (confirm_peer p) cv 16).
    { cbn [log w_log]. repeat split. exists []. reflexivity. }
    set (ev := EvF4 _ _ _ _).
    destruct (random_rx_keys_log p res (log ev w)) as (l & Hl & Hk).
    destruct (random_rx_keys p res (log ev w)) as [[p' r'] w'].
    cbn [snd log w_log] in Hl.
    destruct (keys_events_uncounted l (ev :: w_log w) Hk) as (H4 & _).
    rewrite Hl, H4. repeat split. exists l. reflexivity.
  - destruct (ble_sm_alg_f4 _ _ _ _) as [rc cv].
    destruct (random_rx_keys_log p res w) as (l & Hl & Hk).
    destruct (random_rx_keys p res w) as [[p' r'] w'].
    cbn [snd] in Hl.
    destruct (keys_events_uncounted l (w_log w) Hk) as (H4 & _).
    rewrite Hl, H4. split; reflexivity.
Qed.

(** C4, what the code does on a mismatch.  When the check is made, f4
    succeeds and its value differs from the received confirm value in the
    first 16 bytes, [ble_sm_sc_random_rx] stops at once: the procedure is
    unchanged, f5 is not called, the application status is the
    confirm-mismatch code and [enc_cb] is set.  The reason for the peer,
    [sm_err], is BLE_SM_ERR_UNSPECIFIED and not
    BLE_SM_ERR_CONFIRM_MISMATCH. *)
Theorem random_rx_confirm_mismatch
  (p : ble_sm_proc) (res : ble_sm_result) (w : world) (confirm_val : bytes) :
  random_rx_verifies p = true ->
  ble_sm_alg_f4 (pk_x (pub_key_peer p)) (ble_sm_sc_pub_key w)
    (ble_sm_their_pair_rand p) (ri p) = (HS_OK, confirm_val) ->
  memcmp_ne (confirm_peer p) confirm_val 16 = true ->
  let '(p', res', w') := ble_sm_sc_random_rx p res w in
  p' = p /\
  f5_calls (w_log w') = f5_calls (w_log w) /\
  ble_sm_sc_keys_generated w' = ble_sm_sc_keys_generated w /\
  app_status res' = BLE_HS_SM_US_ERR BLE_SM_ERR_CONFIRM_MISMATCH /\
  enc_cb res' = true /\
  execute res' = execute res /\
  sm_err res' = Some BLE_SM_ERR_UNSPECIFIED /\
  sm_err res' <> Some BLE_SM_ERR_CONFIRM_MISMATCH.
Proof.
  intros Hv Hf Hm.
  rewrite random_rx_unfold, Hv. cbv zeta. rewrite Hf. cbn [failed].
  rewrite Hm. cbn. repeat split. discriminate.
Qed.

(** *** The passkey loop *)

Lemma loops_back_guard (q : ble_sm_proc) :
  negb (pair_alg_eqb (pair_alg q) BLE_SM_PAIR_ALG_PASSKEY) ||
  (passkey_bits_exchanged q >=? BLE_SM_SC_PASSKEY_BITS)
  = negb (loops_back q).
Proof.
  unfold loops_back, BLE_SM_SC_PASSKEY_BITS.
  rewrite negb_andb, Z.geb_leb, Z.leb_antisym. reflexivity.
Qed.

(** The decision at the end of a Random step: back to CONFIRM with a new
    local nonce from the generator when the method is PasskeyEntry and
    fewer than 20 bits are exchanged, on to DHKEY_CHECK otherwise.  The
    counter and the method are not touched. *)
Lemma random_advance_decision (q : ble_sm_proc) (w : world) :
  let '(rc, q', w') := ble_sm_sc_random_advance q w in
  passkey_bits_exchanged q' = passkey_bits_exchanged q /\
  pair_alg q' = pair_alg q /\
  state q' = (if loops_back q then BLE_SM_PROC_STATE_CONFIRM
              else BLE_SM_PROC_STATE_DHKEY_CHECK) /\
  if loops_back q then
    let '(rc0, r, x) :=
      ble_sm_gen_pair_rand (w_ext w) (ble_sm_our_pair_rand q) in
    rc = rc0 /\ ble_sm_our_pair_rand q' = r /\
    w_log w' = EvGenPairRand :: w_log w
  else rc = HS_OK /\ q' = set_state BLE_SM_PROC_STATE_DHKEY_CHECK q /\ w' = w.
Proof.
  unfold ble_sm_sc_random_advance. rewrite loops_back_guard.
  destruct (loops_back q); cbn [negb].
  - replace (ble_sm_our_pair_rand (set_state BLE_SM_PROC_STATE_CONFIRM q))
      with (ble_sm_our_pair_rand q) by (destruct q; reflexivity).
    destruct (ble_sm_gen_pair_rand _ _) as [[rc0 r] x].
    assert (Hq : forall q',
      q' = set_our_pair_rand r (set_state BLE_SM_PROC_STATE_CONFIRM q) ->
      passkey_bits_exchanged q' = passkey_bits_exchanged q /\
      pair_alg q' = pair_alg q /\ state q' = BLE_SM_PROC_STATE_CONFIRM /\
      ble_sm_our_pair_rand q' = r).
    { intros q' ->. unfold set_our_pair_rand, ble_sm_our_pair_rand.
      destruct q as [c s f]; cbn. destruct (F_INITIATOR f) eqn:Ef; cbn;
        rewrite Ef; auto. }
    destruct (Hq _ eq_refl) as (Hb & Ha & Hs & Hr).
    destruct (failed rc0) eqn:Hrc; cbn [log set_ext w_log]; repeat split; auto.
    symmetry. apply failed_false. exact Hrc.
  - repeat split; destruct q; reflexivity.
Qed.

(** The advance ends the Random step of either role.  A responder makes it
    in [ble_sm_sc_random_go], once its nonce is sent. *)
Lemma random_go_ends_round
  (p : ble_sm_proc) (res : ble_sm_result) (w : world) :
  F_INITIATOR (flags p) = false ->
  failed (fst (ble_sm_pair_random_tx (w_ext w) (conn_handle p)
                 (firstn 16 (ble_sm_our_pair_rand p)))) = false ->
  let '(q, _, _) := ble_sm_sc_random_go p res w in
  passkey_bits_exchanged q = passkey_bits_exchanged p /\
  state q = (if loops_back p then BLE_SM_PROC_STATE_CONFIRM
             else BLE_SM_PROC_STATE_DHKEY_CHECK).
Proof.
  intros Hi Htx. unfold ble_sm_sc_random_go.
  destruct (ble_sm_pair_random_tx _ _ _) as [rct e]. cbn [fst] in Htx.
  rewrite Htx, Hi. cbn [negb].
  set (w1 := log _ _).
  pose proof (random_advance_decision p w1) as Hd.
  destruct (ble_sm_sc_random_advance p w1) as [[rc q] w2].
  destruct Hd as (Hb & _ & Hs & _).
  destruct (failed rc); [auto | ].
  pose proof (random_pkact_frame false q res w2) as Hf.
  destruct (random_pkact false q res w2) as [[q2 r2] w3].
  destruct Hf as ((a & f & Hq) & _).
  subst q2. destruct q; cbn in *. auto.
Qed.

(** An initiator makes it in [ble_sm_sc_random_rx], once the keys are
    derived. *)
Lemma random_rx_ends_round
  (p : ble_sm_proc) (res : ble_sm_result) (w : world) :
  F_INITIATOR (flags p) = true ->
  failed (fst (ble_sm_addrs (w_ext w) p)) = false ->
  (forall iat ia rat ra,
     failed (fst (ble_sm_alg_f5 (dhkey p) (randm p) (rands p) iat ia rat ra
                    (mackey p) (ltk p))) = false) ->
  let '(q, _, _) := random_rx_keys p res w in
  passkey_bits_exchanged q = passkey_bits_exchanged p /\
  state q = (if loops_back p then BLE_SM_PROC_STATE_CONFIRM
             else BLE_SM_PROC_STATE_DHKEY_CHECK).
Proof.
  intros Hi Ha H5. unfold random_rx_keys.
  destruct (ble_sm_addrs (w_ext w) p) as [rca [[[iat ia] rat] ra]].
  cbn [fst] in Ha. rewrite Ha.
  specialize (H5 iat ia rat ra).
  destruct (ble_sm_alg_f5 _ _ _ _ _ _ _ _ _) as [rc5 [mk lk]].
  cbn [fst] in H5. rewrite H5. cbv zeta.
  set (p2 := set_keys _ _ _).
  assert (Hp2 : F_INITIATOR (flags p2) = true /\
                passkey_bits_exchanged p2 = passkey_bits_exchanged p /\
                loops_back p2 = loops_back p).
  { subst p2. unfold loops_back. destruct p; cbn in *. auto. }
  destruct Hp2 as (Hi2 & Hb2 & Hl2). rewrite Hi2.
  pose proof (random_advance_decision p2 (log EvF5 w)) as Hd.
  destruct (ble_sm_sc_random_advance p2 (log EvF5 w)) as [[rc q] w2].
  destruct Hd as (Hb & _ & Hs & _).
  pose proof (random_pkact_frame true q res w2) as Hf.
  destruct (random_pkact true q res w2) as [[q2 r2] w3].
  destruct Hf as ((a & f & Hq) & _).
  rewrite <- Hl2, <- Hb2.
  subst q2. destruct q; cbn in *. auto.
Qed.

(** With PasskeyEntry the Confirm step counts one bit. *)
Lemma confirm_go_counts_one_bit
  (q : ble_sm_proc) (res : ble_sm_result) (w : world) :
  pair_alg q = BLE_SM_PAIR_ALG_PASSKEY ->
  let '(q', _, _) := ble_sm_sc_confirm_go q res w in
  passkey_bits_exchanged q' = u8_incr (passkey_bits_exchanged q) /\
  pair_alg q' = BLE_SM_PAIR_ALG_PASSKEY.
Proof.
  intros Ha. unfold ble_sm_sc_confirm_go, ble_sm_sc_gen_ri. rewrite Ha.
  cbv zeta. cbn [failed].
  set (q1 := set_passkey_bits_exchanged _ _).
  assert (H1 : passkey_bits_exchanged q1 = u8_incr (passkey_bits_exchanged q)
               /\ pair_alg q1 = BLE_SM_PAIR_ALG_PASSKEY).
  { subst q1. destruct q; cbn in *. auto. }
  destruct (ble_sm_alg_f4 _ _ _ _) as [rc4 value].
  destruct (failed rc4); [exact H1 | ].
  destruct (ble_sm_pair_confirm_tx _ _ _) as [rct e].
  destruct (failed rct); [exact H1 | ].
  destruct (negb (F_INITIATOR (flags q1))); [ | exact H1].
  destruct q1; cbn in *. exact H1.
Qed.

End RandomStep.


(** ** The DHKey check *)

Section DhkeyCheck.
Context {H : Host}.

(** [ble_sm_dhkey_check_process] writes [pair_alg], the flags and the state
    only: no key material. *)
Lemma dhkey_check_process_frame
  (p : ble_sm_proc) (cmd : bytes) (res : ble_sm_result) (w : world) :
  let '(q, _, _) := ble_sm_dhkey_check_process p cmd res w in
  ltk q = ltk p /\ mackey q = mackey p /\
  our_keys q = our_keys p /\ peer_keys q = peer_keys p.
Proof.
  unfold ble_sm_dhkey_check_process.
  destruct (ble_sm_peer_addr (w_ext w) p) as [rc [pt pa]].
  destruct (failed rc); [auto | ].
  destruct (dhkey_check_expected p w pt pa) as [rc6 exp_value].
  destruct (failed rc6); [auto | ].
  destruct (memcmp_ne cmd exp_value 16); [auto | ].
  pose proof (passkey_action_frame p) as (Hq & _).
  destruct (ble_sm_sc_passkey_action p) as [a q]. cbn [snd] in Hq.
  assert (Hk : ltk q = ltk p /\ mackey q = mackey p /\
               our_keys q = our_keys p /\ peer_keys q = peer_keys p).
  { rewrite Hq. destruct p; cbn. auto. }
  destruct (proc_state_eqb (ble_sm_pkact_state a) (state q));
    match goal with
    | |- context [ble_sm_proc_can_advance ?x] =>
        destruct (ble_sm_proc_can_advance x);
        [destruct (F_INITIATOR (flags x)) | ]
    end;
    destruct q; cbn in *; exact Hk.
Qed.

(** The value [ble_sm_sc_dhkey_check_go] transmits: f6 with our nonce, our
    IO triple and our address first. *)
Lemma dhkey_check_go_sends
  (p : ble_sm_proc) (res : ble_sm_result) (w : world)
  (pt : Z) (pa value : bytes) :
  let own_cmd := if F_INITIATOR (flags p) then pair_req p else pair_rsp p in
  let our := bls_hs_priv_copy_local_identity_addr (w_ext w) in
  ble_sm_peer_addr (w_ext w) p = (HS_OK, (pt, pa)) ->
  ble_sm_alg_f6 (mackey p) (ble_sm_our_pair_rand p) (ble_sm_their_pair_rand p)
    (tk p)
    [Z.of_nat (io_cap_index (io_cap own_cmd)); oob_data_flag own_cmd;
     authreq own_cmd]
    (snd our) (fst our) pt pa = (HS_OK, value) ->
  exists l,
    w_log (snd (ble_sm_sc_dhkey_check_go p res w))
    = EvTxDhkeyCheck (conn_handle p) value :: l.
Proof.
  cbv zeta. intros Hpa Hf6.
  unfold ble_sm_sc_dhkey_check_go, ble_sm_sc_dhkey_check_iocap. cbv zeta.
  destruct (bls_hs_priv_copy_local_identity_addr (w_ext w)) as [oa ot].
  cbn [fst snd] in Hf6. rewrite Hpa. cbn [failed].
  revert Hf6.
  destruct (F_INITIATOR (flags p)) eqn:Ei; intros Hf6; rewrite Hf6;
    cbn [failed log set_ext w_ext negb];
    destruct (ble_sm_dhkey_check_tx _ _ _) as [rct e];
    destruct (failed rct); eexists; reflexivity.
Qed.

(** The value expected from the peer is the value the peer's own
    [ble_sm_sc_dhkey_check_go] computes: for [q] the other end of [p] (the
    opposite role, the same pairing request and response, MAC key, [tk] and
    nonces), whose address is [p]'s peer address and whose peer address is
    [p]'s own, the two f6 calls are the same call. *)
Lemma dhkey_check_expected_mirror
  (p q : ble_sm_proc) (w : world) (pt qt : Z) (pa qa : bytes) :
  F_INITIATOR (flags q) = negb (F_INITIATOR (flags p)) ->
  pair_req q = pair_req p -> pair_rsp q = pair_rsp p ->
  mackey q = mackey p -> tk q = tk p ->
  randm q = randm p -> rands q = rands p ->
  bls_hs_priv_copy_local_identity_addr (w_ext w) = (qa, qt) ->
  dhkey_check_expected p w pt pa
  = ble_sm_alg_f6 (mackey q) (ble_sm_our_pair_rand q)
      (ble_sm_their_pair_rand q) (tk q)
      (ble_sm_sc_dhkey_check_iocap
         (if F_INITIATOR (flags q) then pair_req q else pair_rsp q))
      pt pa qt qa.
Proof.
  intros Hi Hreq Hrsp Hm Htk Hrm Hrs Hl.
  unfold dhkey_check_expected, ble_sm_our_pair_rand, ble_sm_their_pair_rand.
  rewrite Hl, Hi, Hreq, Hrsp, Hm, Htk, Hrm, Hrs.
  destruct (F_INITIATOR (flags p)); reflexivity.
Qed.

(** C5.  On the peer's check value, [ble_sm_dhkey_check_process] computes
    the expected value with f6 over the MAC key, the peer's nonce before
    ours, [tk], the peer's IO triple, and the peer's address before ours.
    When the received value differs from it in the first 16 bytes the step
    ends there: status and reason are the DHKEY code, which is not the
    confirm-mismatch code, [enc_cb] is set, [execute] is not, and the
    procedure, its state included, is what it was. *)
Theorem dhkey_check_mismatch_aborts
  (p : ble_sm_proc) (cmd : bytes) (res : ble_sm_result) (w : world)
  (pt : Z) (pa exp_value : bytes) :
  let peer_cmd := if F_INITIATOR (flags p) then pair_rsp p else pair_req p in
  let our := bls_hs_priv_copy_local_identity_addr (w_ext w) in
  ble_sm_peer_addr (w_ext w) p = (HS_OK, (pt, pa)) ->
  ble_sm_alg_f6 (mackey p) (ble_sm_their_pair_rand p) (ble_sm_our_pair_rand p)
    (tk p)
    [Z.of_nat (io_cap_index (io_cap peer_cmd)); oob_data_flag peer_cmd;
     authreq peer_cmd]
    pt pa (snd our) (fst our) = (HS_OK, exp_value) ->
  memcmp_ne cmd exp_value 16 = true ->
  let '(p', res', w') := ble_sm_dhkey_check_process p cmd res w in
  p' = p /\ state p' = state p /\
  w' = log EvF6 w /\
  app_status res' = BLE_HS_SM_US_ERR BLE_SM_ERR_DHKEY /\
  sm_err res' = Some BLE_SM_ERR_DHKEY /\
  enc_cb res' = true /\
  execute res' = execute res /\
  app_status res' <> BLE_HS_SM_US_ERR BLE_SM_ERR_CONFIRM_MISMATCH /\
  sm_err res' <> Some BLE_SM_ERR_CONFIRM_MISMATCH.
Proof.
  cbv zeta. intros Hpa Hf6 Hne.
  unfold ble_sm_dhkey_check_process, dhkey_check_expected,
    ble_sm_sc_dhkey_check_iocap. cbv zeta.
  rewrite Hpa. cbn [failed].
  destruct (bls_hs_priv_copy_local_identity_addr (w_ext w)) as [oa ot].
  cbn [fst snd] in Hf6. revert Hf6.
  destruct (F_INITIATOR (flags p)) eqn:Ei; intros Hf6; rewrite Hf6;
    cbn [failed]; rewrite Hne; cbn; repeat split; discriminate.
Qed.

End DhkeyCheck.

(** ** When the LTK is written *)

Section LtkWritten.
Context {H : Host}.

(** C3, amended.  The LTK is written in the Random step, before any DHKey
    check.  When [ble_sm_sc_random_rx] gets past the confirm check (not
    made, or made and passed), the addresses are known and f5 succeeds,
    the procedure holds the MAC key and the LTK of f5 and both key sets
    hold that LTK marked valid, and no f6 call has been made by the step.
    [ble_sm_dhkey_check_process] writes none of these fields, whatever the
    check value it receives. *)
Theorem random_rx_writes_ltk
  (p : ble_sm_proc) (res : ble_sm_result) (w : world)
  (iat rat : Z) (ia ra mk lk : bytes) :
  (random_rx_verifies p = false \/
   exists cv,
     ble_sm_alg_f4 (pk_x (pub_key_peer p)) (ble_sm_sc_pub_key w)
       (ble_sm_their_pair_rand p) (ri p) = (HS_OK, cv) /\
     memcmp_ne (confirm_peer p) cv 16 = false) ->
  ble_sm_addrs (w_ext w) p = (HS_OK, (iat, ia, rat, ra)) ->
  ble_sm_alg_f5 (dhkey p) (randm p) (rands p) iat ia rat ra
    (mackey p) (ltk p) = (HS_OK, (mk, lk)) ->
  let '(p', _, w') := ble_sm_sc_random_rx p res w in
  (ltk p' = lk /\ mackey p' = mk /\
   our_keys p' = mk_keys (memcpy (keys_ltk (our_keys p)) lk 16) true 0 0 true /\
   peer_keys p'
   = mk_keys (memcpy (keys_ltk (peer_keys p)) lk 16) true 0 0 true) /\
  f6_calls (w_log w') = f6_calls (w_log w) /\
  forall cmd res2 w2,
    let '(q, _, _) := ble_sm_dhkey_check_process p' cmd res2 w2 in
    ltk q = ltk p' /\ mackey q = mackey p' /\
    our_keys q = our_keys p' /\ peer_keys q = peer_keys p'.
Proof.
  intros Hv Ha H5.
  assert (Hk : forall w0, w_ext w0 = w_ext w ->
            f6_calls (w_log w0) = f6_calls (w_log w) ->
            let '(p', _, w') := random_rx_keys p res w0 in
            (ltk p' = lk /\ mackey p' = mk /\
             our_keys p'
             = mk_keys (memcpy (keys_ltk (our_keys p)) lk 16) true 0 0 true /\
             peer_keys p'
             = mk_keys (memcpy (keys_ltk (peer_keys p)) lk 16) true 0 0 true) /\
            f6_calls (w_log w') = f6_calls (w_log w)).
  { intros w0 He Hl.
    pose proof (random_rx_keys_spec p res w0) as Hs.
    rewrite He, Ha, H5 in Hs.
    destruct (random_rx_keys p res w0) as [[p' r'] w'].
    destruct Hs as ((l & Hl' & Hkl) & Hf).
    split; [apply Hf; reflexivity | ].
    rewrite Hl'.
    destruct (keys_events_uncounted l (w_log w0) Hkl) as (_ & H6 & _).
    rewrite H6. exact Hl. }
  assert (Hr : let '(p', _, w') := ble_sm_sc_random_rx p res w in
            (ltk p' = lk /\ mackey p' = mk /\
             our_keys p'
             = mk_keys (memcpy (keys_ltk (our_keys p)) lk 16) true 0 0 true /\
             peer_keys p'
             = mk_keys (memcpy (keys_ltk (peer_keys p)) lk 16) true 0 0 true) /\
            f6_calls (w_log w') = f6_calls (w_log w)).
  { rewrite random_rx_unfold.
    destruct (random_rx_verifies p) eqn:Ev.
    - destruct Hv as [Hv | (cv & Hf4 & Hm)]; [discriminate | ].
      cbv zeta. rewrite Hf4. cbn [failed]. rewrite Hm.
      apply Hk; reflexivity.
    - apply Hk; reflexivity. }
  destruct (ble_sm_sc_random_rx p res w) as [[p' r'] w'].
  destruct Hr as (Hr1 & Hr2). split; [exact Hr1 | ]. split; [exact Hr2 | ].
  intros cmd res2 w2. apply dhkey_check_process_frame.
Qed.

End LtkWritten.

(** ** Who sends a Pairing Confirm *)

Section ConfirmGuard.
Context {H : Host}.

Lemma ensure_keys_confirm_txs (w : world) :
  confirm_txs (w_log (snd (ble_sm_sc_ensure_keys_generated w)))
  = confirm_txs (w_log w).
Proof.
  unfold ble_sm_sc_ensure_keys_generated.
  destruct (negb (ble_sm_sc_keys_generated w)); [ | reflexivity].
  destruct (ble_sm_gen_pub_priv _ _ _) as [[rc [pub priv]] x].
  destruct (failed rc); reflexivity.
Qed.

Lemma initiator_txes_confirm_table (p : ble_sm_proc) :
  ble_sm_sc_initiator_txes_confirm p =
  match pair_alg p with
  | BLE_SM_PAIR_ALG_JW | BLE_SM_PAIR_ALG_NUMCMP => false
  | BLE_SM_PAIR_ALG_PASSKEY | BLE_SM_PAIR_ALG_OOB => true
  end.
Proof.
  unfold ble_sm_sc_initiator_txes_confirm. destruct (pair_alg p); reflexivity.
Qed.

(** On the peer's public key the next step is asked for ([execute]) when
    the three calls succeed and, for an initiator, the procedure can advance
    and the initiator sends a confirm with this method; no Pairing Confirm
    is sent by the step itself. *)
Lemma public_key_rx_schedules
  (om : bytes) (p : ble_sm_proc) (res : ble_sm_result) (w : world) :
  let '(found', res', w') := ble_sm_sc_public_key_rx om (Some p) res w in
  confirm_txs (w_log w') = confirm_txs (w_log w) /\
  match found' with
  | None => False
  | Some p' =>
      pair_alg p' = pair_alg p /\
      F_INITIATOR (flags p') = F_INITIATOR (flags p) /\
      execute res'
      = execute res ||
        (public_key_rx_ok om p w &&
         (if F_INITIATOR (flags p)
          then ble_sm_proc_can_advance p' && ble_sm_sc_initiator_txes_confirm p
          else true))
  end.
Proof.
  unfold ble_sm_sc_public_key_rx, public_key_rx_ok.
  destruct (failed (ble_hs_misc_pullup_base om BLE_SM_PUBLIC_KEY_SZ)).
  { cbn. rewrite orb_false_r. auto. }
  pose proof (ensure_keys_confirm_txs w) as Hc.
  destruct (ble_sm_sc_ensure_keys_generated w) as [rc w1]. cbn [snd] in Hc.
  cbn [negb andb].
  destruct (failed rc).
  { cbn. rewrite orb_false_r. auto. }
  cbn [negb andb].
  replace (dhkey (set_pub_key_peer (ble_sm_public_key_parse om) p))
    with (dhkey p) by (destruct p; reflexivity).
  replace (pub_key_peer (set_pub_key_peer (ble_sm_public_key_parse om) p))
    with (ble_sm_public_key_parse om) by (destruct p; reflexivity).
  destruct (ble_sm_alg_gen_dhkey _ _ _ _) as [rcd dh]. cbn [fst].
  destruct (failed rcd).
  { cbn. rewrite orb_false_r. split; [exact Hc | ].
    destruct p; cbn. auto. }
  cbn [negb andb].
  replace (F_INITIATOR (flags (set_dhkey dh
             (set_pub_key_peer (ble_sm_public_key_parse om) p))))
    with (F_INITIATOR (flags p)) by (destruct p; reflexivity).
  destruct (F_INITIATOR (flags p)) eqn:Ei.
  - set (p' := set_state _ _).
    replace (ble_sm_sc_initiator_txes_confirm p')
      with (ble_sm_sc_initiator_txes_confirm p)
      by (subst p'; destruct p; reflexivity).
    assert (Hp' : pair_alg p' = pair_alg p /\
                  F_INITIATOR (flags p') = true)
      by (subst p'; destruct p; cbn in *; auto).
    destruct (ble_sm_proc_can_advance p' &&
              ble_sm_sc_initiator_txes_confirm p) eqn:Eg;
      cbn [log w_log execute set_execute]; rewrite ?Eg;
      rewrite ?orb_true_r, ?orb_false_r; tauto.
  - cbn [log w_log execute set_execute]. rewrite orb_true_r.
    split; [exact Hc | ]. destruct p; cbn in *; auto.
Qed.



End ConfirmGuard.

(** ** More on the passkey action *)

Section PasskeyAction.
Context {H : Host}.

Lemma passkey_action_of_stable (p q : ble_sm_proc) :
  pair_req q = pair_req p -> pair_rsp q = pair_rsp p ->
  F_INITIATOR (flags q) = F_INITIATOR (flags p) ->
  passkey_action_of q = passkey_action_of p.
Proof.
  intros Hreq Hrsp Hi. unfold passkey_action_of.
  rewrite Hreq, Hrsp, Hi. reflexivity.
Qed.

(** X1.  OOB data on either side decides: the action is OOB, the method
    OutOfBand and the procedure authenticated, whatever the IO capabilities,
    the MITM bits and the role. *)
Theorem passkey_action_oob_first (p : ble_sm_proc) :
  oob_data_flag (pair_req p) <> 0 \/ oob_data_flag (pair_rsp p) <> 0 ->
  let '(a, q) := ble_sm_sc_passkey_action p in
  a = BLE_SM_PKACT_OOB /\
  pair_alg q = BLE_SM_PAIR_ALG_OOB /\
  F_AUTHENTICATED (flags q) = true.
Proof.
  intros Ho. unfold ble_sm_sc_passkey_action.
  assert (Ha : passkey_action_of p = BLE_SM_PKACT_OOB).
  { unfold passkey_action_of.
    destruct (Z.eqb_spec (oob_data_flag (pair_req p)) 0) as [E1 | E1];
      destruct (Z.eqb_spec (oob_data_flag (pair_rsp p)) 0) as [E2 | E2];
      try reflexivity.
    destruct Ho; contradiction. }
  rewrite Ha. repeat split.
Qed.

(** X2.  Without OOB data and without a MITM bit on either side the action
    is NONE and the method JustWorks, for both roles and all IO
    capabilities, and only [pair_alg] is written: the procedure is not
    marked authenticated. *)
Theorem passkey_action_no_mitm (p : ble_sm_proc) :
  oob_data_flag (pair_req p) = 0 -> oob_data_flag (pair_rsp p) = 0 ->
  Z.land (authreq (pair_req p)) BLE_SM_PAIR_AUTHREQ_MITM = 0 ->
  Z.land (authreq (pair_rsp p)) BLE_SM_PAIR_AUTHREQ_MITM = 0 ->
  ble_sm_sc_passkey_action p
  = (BLE_SM_PKACT_NONE, set_pair_alg BLE_SM_PAIR_ALG_JW p).
Proof.
  intros O1 O2 M1 M2.
  unfold ble_sm_sc_passkey_action, passkey_action_of, authreq_mitm.
  rewrite O1, O2, M1, M2. reflexivity.
Qed.

(** X3.  Resolving twice is resolving once: a second call returns the same
    action and leaves the procedure as the first call left it. *)
Theorem passkey_action_idempotent (p : ble_sm_proc) :
  ble_sm_sc_passkey_action (snd (ble_sm_sc_passkey_action p))
  = ble_sm_sc_passkey_action p.
Proof.
  pose proof (passkey_action_frame p) as (Hq & Hi & _).
  pose proof (passkey_action_alg p) as (Ha & Hf).
  destruct (ble_sm_sc_passkey_action p) as [a q] eqn:E.
  cbn [fst snd] in *. subst a.
  assert (Hs : passkey_action_of q = passkey_action_of p).
  { apply passkey_action_of_stable; [ | | exact Hi];
      rewrite Hq; destruct p; reflexivity. }
  unfold ble_sm_sc_passkey_action in *. rewrite Hs.
  injection E as E. rewrite <- E.
  destruct (passkey_action_of p); destruct p; reflexivity.
Qed.

(** X4.  A side without input and output gets JustWorks: with no OOB data,
    if the initiator or the responder is NoInputNoOutput the action is NONE
    and the method JustWorks for both roles, MITM asked for or not. *)
Theorem passkey_action_no_io (p : ble_sm_proc) :
  oob_data_flag (pair_req p) = 0 -> oob_data_flag (pair_rsp p) = 0 ->
  io_cap (pair_req p) = BLE_SM_IO_CAP_NO_IO \/
  io_cap (pair_rsp p) = BLE_SM_IO_CAP_NO_IO ->
  let '(a, q) := ble_sm_sc_passkey_action p in
  a = BLE_SM_PKACT_NONE /\ pair_alg q = BLE_SM_PAIR_ALG_JW /\
  flags q = flags p.
Proof.
  intros O1 O2 Hio.
  assert (Ha : passkey_action_of p = BLE_SM_PKACT_NONE).
  { unfold passkey_action_of. rewrite O1, O2. cbn [Z.eqb negb orb].
    destruct (negb (authreq_mitm (pair_req p)) &&
              negb (authreq_mitm (pair_rsp p))); [reflexivity | ].
    destruct (F_INITIATOR (flags p)); destruct Hio as [E | E]; rewrite E;
      destruct (io_cap (pair_rsp p)), (io_cap (pair_req p)); reflexivity. }
  unfold ble_sm_sc_passkey_action. rewrite Ha.
  repeat split.
Qed.

(** X5.  The two tables fit together.  Where the initiator is to display
    the passkey the responder is to type it, where the responder is to
    display it the initiator is to type it, and where the initiator is to
    compare numbers so is the responder; no entry has both sides
    displaying. *)
Theorem tables_display_meets_input (rsp req : io_cap_t) :
  match pka_at ble_sm_sc_init_pka rsp req with
  | BLE_SM_PKACT_DISP => pka_at ble_sm_sc_resp_pka rsp req = BLE_SM_PKACT_INPUT
  | BLE_SM_PKACT_NUMCMP =>
      pka_at ble_sm_sc_resp_pka rsp req = BLE_SM_PKACT_NUMCMP
  | _ => True
  end /\
  match pka_at ble_sm_sc_resp_pka rsp req with
  | BLE_SM_PKACT_DISP => pka_at ble_sm_sc_init_pka rsp req = BLE_SM_PKACT_INPUT
  | _ => True
  end /\
  pka_at ble_sm_sc_init_pka rsp req <> BLE_SM_PKACT_OOB /\
  pka_at ble_sm_sc_resp_pka rsp req <> BLE_SM_PKACT_OOB.
Proof.
  destruct rsp, req; cbn; repeat split; discriminate.
Qed.

(** What [ble_sm_sc_passkey_action] writes, flag by flag. *)
Lemma passkey_action_writes (p : ble_sm_proc) :
  let '(a, q) := ble_sm_sc_passkey_action p in
  F_AUTHENTICATED (flags q)
  = F_AUTHENTICATED (flags p) ||
    negb (pair_alg_eqb (pair_alg q) BLE_SM_PAIR_ALG_JW) /\
  pair_alg q = pkact_alg a /\
  q = set_flags
        (mk_flags (F_INITIATOR (flags p)) (F_IO_INJECTED (flags p))
           (F_ADVANCE_ON_IO (flags p)) (F_AUTHENTICATED (flags q))
           (F_SC (flags p)))
        (set_pair_alg (pair_alg q) p).
Proof.
  unfold ble_sm_sc_passkey_action.
  destruct (passkey_action_of p); destruct p as [c s f]; destruct f; cbn;
    rewrite ?orb_true_r, ?orb_false_r; repeat split.
Qed.

(** X6.  The authenticated flag.  After [ble_sm_sc_passkey_action] the
    procedure is marked authenticated exactly when it was before or the
    method is not JustWorks; the flag is never cleared, and no other flag
    and no field but [pair_alg] is written. *)
Theorem passkey_action_authenticated (p : ble_sm_proc) :
  let '(a, q) := ble_sm_sc_passkey_action p in
  F_AUTHENTICATED (flags q)
  = F_AUTHENTICATED (flags p) ||
    negb (pair_alg_eqb (pair_alg q) BLE_SM_PAIR_ALG_JW) /\
  (if F_AUTHENTICATED (flags p) then F_AUTHENTICATED (flags q) = true
   else True) /\
  pair_alg q = pkact_alg a /\
  q = set_flags
        (mk_flags (F_INITIATOR (flags p)) (F_IO_INJECTED (flags p))
           (F_ADVANCE_ON_IO (flags p)) (F_AUTHENTICATED (flags q))
           (F_SC (flags p)))
        (set_pair_alg (pair_alg q) p).
Proof.
  pose proof (passkey_action_writes p) as Hw.
  destruct (ble_sm_sc_passkey_action p) as [a q].
  destruct Hw as (H1 & H2 & H3).
  split; [exact H1 | ]. split; [ | split; assumption].
  rewrite H1. destruct (F_AUTHENTICATED (flags p)); [reflexivity | exact I].
Qed.

End PasskeyAction.

(** ** More on the key pair *)

Section KeyPair.
Context {H : Host}.

(** X7.  [ble_sm_sc_init] forgets the key pair without erasing it: it
    writes the generated flag only, and the next
    [ble_sm_sc_ensure_keys_generated] calls the generator once, whether or
    not a key pair was there, returns its code and marks the keys on success
    only. *)
Theorem init_then_ensure_regenerates (w : world) :
  let w0 := ble_sm_sc_init w in
  let gen := ble_sm_gen_pub_priv (w_ext w) (ble_sm_sc_pub_key w)
               (ble_sm_sc_priv_key w) in
  let '(rc, w1) := ble_sm_sc_ensure_keys_generated w0 in
  (ble_sm_sc_pub_key w0 = ble_sm_sc_pub_key w /\
   ble_sm_sc_priv_key w0 = ble_sm_sc_priv_key w /\
   w_ext w0 = w_ext w /\ w_log w0 = w_log w) /\
  rc = fst (fst gen) /\
  gen_calls (w_log w1) = S (gen_calls (w_log w)) /\
  ble_sm_sc_keys_generated w1 = negb (failed rc) /\
  ble_sm_sc_pub_key w1 = fst (snd (fst gen)) /\
  ble_sm_sc_priv_key w1 = snd (snd (fst gen)).
Proof.
  unfold ble_sm_sc_init, ble_sm_sc_ensure_keys_generated.
  cbn [ble_sm_sc_keys_generated negb w_ext ble_sm_sc_pub_key
       ble_sm_sc_priv_key w_log].
  destruct (ble_sm_gen_pub_priv _ _ _) as [[rc [pub priv]] x].
  cbn [fst snd].
  destruct (failed rc) eqn:Hrc; cbn; rewrite ?Hrc; repeat split.
  symmetry. apply failed_false. exact Hrc.
Qed.

End KeyPair.

(** ** What the steps transmit and how they fail *)

Section Transmissions.
Context {H : Host}.

Lemma keys_events_quiet (l : list event) :
  forallb keys_event l = true ->
  tx_confirms l = [] /\ tx_randoms l = [] /\
  tx_dhkey_checks l = [] /\ tx_public_keys l = [].
Proof.
  induction l as [| e l IH]; intros Hl; [repeat split | ].
  cbn [forallb] in Hl. apply andb_true_iff in Hl as [He Hl].
  destruct (IH Hl) as (I1 & I2 & I3 & I4).
  unfold tx_confirms, tx_randoms, tx_dhkey_checks, tx_public_keys in *.
  destruct e; try discriminate He; cbn; auto.
Qed.

Lemma gen_ri_log (p : ble_sm_proc) (w : world) :
  exists l, w_log (snd (ble_sm_sc_gen_ri p w)) = l ++ w_log w /\
            tx_confirms l = [].
Proof.
  unfold ble_sm_sc_gen_ri. destruct (pair_alg p).
  - exists []. split; reflexivity.
  - exists []. split; reflexivity.
  - destruct (ble_hci_util_rand _ _ _) as [[rc out] x].
    exists [EvRand]. split; reflexivity.
  - exists []. split; reflexivity.
Qed.

(** X8.  The Confirm step hands the transport at most one Pairing Confirm,
    on the procedure's connection, and its value is f4 over our public key,
    the peer's, our nonce and the Ri just generated; nothing is sent when
    the Ri generation or f4 fails.  When one of its three calls fails the
    step reports a failure with [enc_cb] set and the reason UNSPECIFIED, and
    leaves [execute] and the state alone; when none fails the result is
    untouched. *)
Theorem confirm_go_transmits
  (p : ble_sm_proc) (res : ble_sm_result) (w : world) :
  let '(rc, p1, w1) := ble_sm_sc_gen_ri p w in
  let '(rc4, value) :=
    ble_sm_alg_f4 (ble_sm_sc_pub_key w1) (pk_x (pub_key_peer p1))
      (ble_sm_our_pair_rand p1) (ri p1) in
  let '(p', res', w') := ble_sm_sc_confirm_go p res w in
  (exists l, w_log w' = l ++ w_log w /\
     tx_confirms l
     = if failed rc || failed rc4 then [] else [(conn_handle p, value)]) /\
  (if confirm_go_ok p w then res' = res
   else failed (app_status res') = true /\ enc_cb res' = true /\
        sm_err res' = Some BLE_SM_ERR_UNSPECIFIED /\
        execute res' = execute res /\ state p' = state p).
Proof.
  unfold ble_sm_sc_confirm_go, confirm_go_ok.
  destruct (gen_ri_frame p w) as (r & b & Hg).
  destruct (gen_ri_log p w) as (l0 & Hl0 & Hq0).
  destruct (ble_sm_sc_gen_ri p w) as [[rc p1] w1]. cbn [fst snd] in Hg, Hl0.
  assert (Hc : conn_handle p1 = conn_handle p /\ state p1 = state p)
    by (subst p1; destruct p; split; reflexivity).
  destruct Hc as (Hc & Hs).
  destruct (ble_sm_alg_f4 _ _ _ _) as [rc4 value].
  destruct (failed rc) eqn:Erc.
  { cbn [orb negb andb]. split; [exists l0; split; assumption | ].
    cbn. auto. }
  cbn [orb negb andb].
  destruct (failed rc4) eqn:Erc4.
  { cbn [negb andb log w_log]. split.
    - exists (EvF4 (ble_sm_sc_pub_key w1) (pk_x (pub_key_peer p1))
                (ble_sm_our_pair_rand p1) (ri p1) :: l0).
      rewrite Hl0. split; [reflexivity | exact Hq0].
    - cbn. auto. }
  cbn [negb andb log w_log w_ext set_ext].
  destruct (ble_sm_pair_confirm_tx _ _ _) as [rct e]. cbn [fst].
  assert (Hlog : exists l,
            EvTxConfirm (conn_handle p1) value
              :: EvF4 (ble_sm_sc_pub_key w1) (pk_x (pub_key_peer p1))
                   (ble_sm_our_pair_rand p1) (ri p1) :: w_log w1
            = l ++ w_log w /\
            tx_confirms l = [(conn_handle p, value)]).
  { eexists (_ :: _ :: l0). rewrite Hl0. split; [reflexivity | ].
    unfold tx_confirms in *. cbn. rewrite Hq0, Hc. reflexivity. }
  destruct (failed rct) eqn:Erct; cbn [negb].
  { split; [exact Hlog | ]. cbn. auto. }
  destruct (negb (F_INITIATOR (flags p1))); split; auto.
Qed.

(** X9.  The Random step always hands the transport one Pairing Random, on
    the procedure's connection, with the first 16 bytes of the local nonce
    as it was on entry: a nonce generated by the advance that follows is
    never the one sent.  A failed transmission leaves the procedure alone,
    and so does every call on an initiator, which only transmits here. *)
Theorem random_go_transmits
  (p : ble_sm_proc) (res : ble_sm_result) (w : world) :
  let value := firstn 16 (ble_sm_our_pair_rand p) in
  let rct := fst (ble_sm_pair_random_tx (w_ext w) (conn_handle p) value) in
  let '(p', res', w') := ble_sm_sc_random_go p res w in
  (exists l, w_log w' = l ++ w_log w /\
             tx_randoms l = [(conn_handle p, value)]) /\
  (if failed rct then p' = p /\ res' = fail_unspecified rct res
   else if F_INITIATOR (flags p) then p' = p /\ res' = res
   else True).
Proof.
  cbv zeta. unfold ble_sm_sc_random_go.
  destruct (ble_sm_pair_random_tx _ _ _) as [rct e]. cbn [fst].
  set (ev := EvTxRandom _ _).
  destruct (failed rct).
  { split; [exists [ev]; split; reflexivity | auto]. }
  destruct (F_INITIATOR (flags p)); cbn [negb].
  { split; [exists [ev]; split; reflexivity | auto]. }
  set (w1 := log ev (set_ext e w)).
  pose proof (random_advance_frame p w1) as Ha.
  destruct (ble_sm_sc_random_advance p w1) as [[rc q] w2].
  destruct Ha as (_ & (l1 & Hl1 & Hk1)).
  destruct (keys_events_quiet l1 Hk1) as (_ & Hr1 & _).
  assert (Hw2 : exists l, w_log w2 = l ++ w_log w /\
                          tx_randoms l = [(conn_handle p, firstn 16
                                             (ble_sm_our_pair_rand p))]).
  { exists (l1 ++ [ev]). rewrite Hl1. subst w1. cbn [log w_log set_ext].
    rewrite <- app_assoc. split; [reflexivity | ].
    unfold tx_randoms in *. rewrite flat_map_app, Hr1. reflexivity. }
  destruct (failed rc); [split; [exact Hw2 | exact I] | ].
  pose proof (random_pkact_frame false q res w2) as Hb.
  destruct (random_pkact false q res w2) as [[q2 r2] w3].
  destruct Hb as (_ & (l2 & Hl2 & Hk2)).
  destruct (keys_events_quiet l2 Hk2) as (_ & Hr2 & _).
  destruct Hw2 as (l & Hl & Hr).
  split; [ | exact I].
  exists (l2 ++ l). rewrite Hl2, Hl, <- app_assoc. split; [reflexivity | ].
  unfold tx_randoms in *. rewrite flat_map_app, Hr2. exact Hr.
Qed.

(** X10.  The DHKey-check step hands the transport at most one DHKey
    check, with the f6 value over the MAC key, our nonce before the
    peer's, [tk], our IO triple and our address before the peer's; nothing
    is sent, and f6 is not called, when the peer's address is not known,
    and nothing is sent when f6 fails.  A failure of any of the three
    calls is reported with [enc_cb] set and the reason UNSPECIFIED, and the
    procedure and [execute] are left alone. *)
Theorem dhkey_check_go_transmits
  (p : ble_sm_proc) (res : ble_sm_result) (w : world) :
  let own_cmd := if F_INITIATOR (flags p) then pair_req p else pair_rsp p in
  let our := bls_hs_priv_copy_local_identity_addr (w_ext w) in
  let '(rca, (pt, pa)) := ble_sm_peer_addr (w_ext w) p in
  let '(rc6, value) :=
    ble_sm_alg_f6 (mackey p) (ble_sm_our_pair_rand p)
      (ble_sm_their_pair_rand p) (tk p)
      [Z.of_nat (io_cap_index (io_cap own_cmd)); oob_data_flag own_cmd;
       authreq own_cmd]
      (snd our) (fst our) pt pa in
  let '(p', res', w') := ble_sm_sc_dhkey_check_go p res w in
  (exists l, w_log w' = l ++ w_log w /\
     tx_dhkey_checks l
     = (if failed rca || failed rc6 then [] else [(conn_handle p, value)]) /\
     f6_calls l = if failed rca then 0%nat else 1%nat) /\
  (if dhkey_check_go_ok p w then res' = res
   else p' = p /\ failed (app_status res') = true /\ enc_cb res' = true /\
        sm_err res' = Some BLE_SM_ERR_UNSPECIFIED /\
        execute res' = execute res).
Proof.
  cbv zeta.
  unfold ble_sm_sc_dhkey_check_go, dhkey_check_go_ok,
    ble_sm_sc_dhkey_check_iocap. cbv zeta.
  destruct (bls_hs_priv_copy_local_identity_addr (w_ext w)) as [oa ot].
  cbn [fst snd].
  destruct (ble_sm_peer_addr (w_ext w) p) as [rca [pt pa]].
  destruct (failed rca) eqn:Ea; cbn [orb negb andb].
  { destruct (ble_sm_alg_f6 _ _ _ _ _ _ _ _ _) as [rc6 value].
    split; [exists []; repeat split | cbn; auto]. }
  destruct (F_INITIATOR (flags p)) eqn:Ei;
    destruct (ble_sm_alg_f6 _ _ _ _ _ _ _ _ _) as [rc6 value];
    (destruct (failed rc6) eqn:E6; cbn [negb andb log w_log w_ext set_ext];
     [ split; [exists [EvF6]; repeat split | cbn; auto]
     | destruct (ble_sm_dhkey_check_tx _ _ _) as [rct e]; cbn [fst];
       destruct (failed rct) eqn:Et; cbn [negb];
       (split; [eexists [_; _]; repeat split | cbn; auto]) ]).
Qed.

(** X11.  What [ble_sm_dhkey_check_process] can do to a procedure.  A
    responder's state is never changed.  An initiator's state is unchanged
    or becomes ENC_START, and it becomes ENC_START only together with
    [execute] set and a status of 0, that is after a check value that
    matched.  Nothing but [pair_alg], the authenticated and advance-on-IO
    flags and the state is written, and f6 is called at most once. *)
Theorem dhkey_check_process_effect
  (p : ble_sm_proc) (cmd : bytes) (res : ble_sm_result) (w : world) :
  let '(q, res', w') := ble_sm_dhkey_check_process p cmd res w in
  (if F_INITIATOR (flags p) then
     state q = state p \/
     (state q = BLE_SM_PROC_STATE_ENC_START /\ execute res' = true /\
      app_status res' = HS_OK)
   else state q = state p) /\
  q = set_state (state q)
        (set_flags
           (mk_flags (F_INITIATOR (flags p)) (F_IO_INJECTED (flags p))
              (F_ADVANCE_ON_IO (flags q)) (F_AUTHENTICATED (flags q))
              (F_SC (flags p)))
           (set_pair_alg (pair_alg q) p)) /\
  (f6_calls (w_log w') <= S (f6_calls (w_log w)))%nat.
Proof.
  unfold ble_sm_dhkey_check_process.
  assert (Hp : p = set_state (state p)
        (set_flags
           (mk_flags (F_INITIATOR (flags p)) (F_IO_INJECTED (flags p))
              (F_ADVANCE_ON_IO (flags p)) (F_AUTHENTICATED (flags p))
              (F_SC (flags p)))
           (set_pair_alg (pair_alg p) p))).
  { destruct p as [c s f]; destruct f; reflexivity. }
  assert (Hst : if F_INITIATOR (flags p) then
                  state p = state p \/
                  (state p = BLE_SM_PROC_STATE_ENC_START /\
                   execute res = true /\ app_status res = HS_OK)
                else state p = state p)
    by (destruct (F_INITIATOR (flags p)); auto).
  destruct (ble_sm_peer_addr (w_ext w) p) as [rc [pt pa]].
  destruct (failed rc) eqn:Erc.
  { split; [destruct (F_INITIATOR (flags p)); auto | ].
    split; [exact Hp | lia]. }
  destruct (dhkey_check_expected p w pt pa) as [rc6 exp_value].
  assert (Hlog : (f6_calls (w_log (log EvF6 w)) <= S (f6_calls (w_log w)))%nat)
    by (unfold f6_calls; cbn; lia).
  destruct (failed rc6) eqn:Erc6.
  { split; [destruct (F_INITIATOR (flags p)); auto | ].
    split; [exact Hp | exact Hlog]. }
  destruct (memcmp_ne cmd exp_value 16).
  { split; [destruct (F_INITIATOR (flags p)); auto | ].
    split; [exact Hp | exact Hlog]. }
  apply failed_false in Erc6. subst rc6.
  pose proof (passkey_action_writes p) as Hpa.
  destruct (ble_sm_sc_passkey_action p) as [a q].
  destruct Hpa as (_ & _ & Hq).
  set (q1 := if proc_state_eqb (ble_sm_pkact_state a) (state q)
             then set_flags (set_advance_on_io (flags q)) q else q).
  assert (Hq1 : state q1 = state p /\
                F_INITIATOR (flags q1) = F_INITIATOR (flags p) /\
                q1 = set_state (state q1)
                  (set_flags
                     (mk_flags (F_INITIATOR (flags p))
                        (F_IO_INJECTED (flags p))
                        (F_ADVANCE_ON_IO (flags q1))
                        (F_AUTHENTICATED (flags q1)) (F_SC (flags p)))
                     (set_pair_alg (pair_alg q1) p))).
  { subst q1. destruct (proc_state_eqb _ _); rewrite Hq;
      destruct p as [c s f]; destruct f; cbn; auto. }
  destruct Hq1 as (Hs1 & Hi1 & Hf1).
  destruct (ble_sm_proc_can_advance q1).
  - rewrite Hi1. destruct (F_INITIATOR (flags p)) eqn:Ei.
    + split; [right; repeat split | ].
      split; [ | exact Hlog].
      rewrite Hf1. destruct p as [c s f]; destruct f; cbn in *.
      rewrite Ei. reflexivity.
    + split; [exact Hs1 | ]. split; [exact Hf1 | exact Hlog].
  - split; [destruct (F_INITIATOR (flags p)); auto | ].
    split; [exact Hf1 | exact Hlog].
Qed.

End Transmissions.

(** ** The public key exchange and the receive functions *)

Section PublicKey.
Context {H : Host}.

Lemma ensure_keys_log (w : world) :
  exists l, w_log (snd (ble_sm_sc_ensure_keys_generated w)) = l ++ w_log w /\
            tx_public_keys l = [] /\ dhkey_gens l = 0%nat /\
            w_ext (snd (ble_sm_sc_ensure_keys_generated w))
            = (if ble_sm_sc_keys_generated w then w_ext w
               else snd (ble_sm_gen_pub_priv (w_ext w) (ble_sm_sc_pub_key w)
                           (ble_sm_sc_priv_key w))).
Proof.
  unfold ble_sm_sc_ensure_keys_generated.
  destruct (ble_sm_sc_keys_generated w); cbn [negb].
  - exists []. repeat split.
  - destruct (ble_sm_gen_pub_priv _ _ _) as [[rc [pub priv]] x].
    destruct (failed rc); exists [EvGenPubPriv]; repeat split.
Qed.

(** X12.  Sending our public key.  The key pair is ensured first; when
    that fails nothing is transmitted, otherwise one Public Key goes out on
    the procedure's connection.  When both calls succeed the status is 0,
    the method is the one the passkey action maps to, and a responder moves
    to CONFIRM while an initiator stays where it is.  When one fails the
    procedure is untouched, and the failure is reported with [enc_cb] set
    and the reason UNSPECIFIED, without [execute] and without a passkey
    action. *)
Theorem public_key_go_effect
  (p : ble_sm_proc) (res : ble_sm_result) (w : world) :
  let '(rck, _) := ble_sm_sc_ensure_keys_generated w in
  let '(p', res', w') := ble_sm_sc_public_key_go p res w in
  (exists l, w_log w' = l ++ w_log w /\
             tx_public_keys l = if failed rck then [] else [conn_handle p]) /\
  (if public_key_go_ok p w then
     app_status res' = HS_OK /\
     enc_cb res' = enc_cb res /\ sm_err res' = sm_err res /\
     pair_alg p' = pkact_alg (passkey_action_of p) /\
     state p' = (if F_INITIATOR (flags p) then state p
                 else BLE_SM_PROC_STATE_CONFIRM)
   else
     p' = p /\ failed (app_status res') = true /\ enc_cb res' = true /\
     sm_err res' = Some BLE_SM_ERR_UNSPECIFIED /\
     execute res' = execute res /\
     passkey_action res' = passkey_action res).
Proof.
  unfold ble_sm_sc_public_key_go, public_key_go_ok.
  destruct (ensure_keys_log w) as (l0 & Hl0 & Hq0 & _).
  destruct (ble_sm_sc_ensure_keys_generated w) as [rck wk]. cbn [snd] in Hl0.
  destruct (failed rck) eqn:Ek; cbn [negb andb].
  { split; [exists l0; split; assumption | ]. cbn. repeat split; auto. }
  destruct (ble_sm_public_key_tx _ _ _) as [rct e]. cbn [fst].
  assert (Hlog : exists l,
            w_log (log (EvTxPublicKey (conn_handle p)) (set_ext e wk))
            = l ++ w_log w /\ tx_public_keys l = [conn_handle p]).
  { exists (EvTxPublicKey (conn_handle p) :: l0). cbn [log w_log set_ext].
    rewrite Hl0. split; [reflexivity | ].
    unfold tx_public_keys in *. cbn. rewrite Hq0. reflexivity. }
  destruct (failed rct) eqn:Et; cbn [negb].
  { split; [exact Hlog | ]. cbn. repeat split; auto. }
  apply failed_false in Et. subst rct.
  pose proof (passkey_action_alg p) as (Ha & _).
  pose proof (passkey_action_frame p) as (Hq & Hi & _).
  destruct (ble_sm_sc_passkey_action p) as [a q]. cbn [fst snd] in *.
  rewrite Hi.
  set (res1 := if proc_state_eqb _ _ then _ else _).
  assert (Hr : app_status res1 = HS_OK /\ enc_cb res1 = enc_cb res /\
               sm_err res1 = sm_err res).
  { subst res1. destruct (proc_state_eqb _ _); cbn; auto. }
  destruct Hr as (R1 & R2 & R3).
  assert (Hsq : state q = state p) by (rewrite Hq; destruct p; reflexivity).
  destruct (F_INITIATOR (flags p)); cbn [negb].
  - split; [exact Hlog | ]. repeat split; assumption.
  - destruct (ble_sm_proc_can_advance _ && negb _);
      (split; [exact Hlog | ]); cbn; repeat split; assumption.
Qed.

(** X13.  Receiving the peer's public key for a procedure.  When the
    packet is too short or the key pair cannot be ensured the procedure is
    untouched.  Otherwise the peer's key and the DH key are stored and
    nothing else is written but the state, which becomes CONFIRM for an
    initiator whose DH key was computed.  A DH key that cannot be computed
    is reported as the DHKEY reason, to the application and to the peer.
    Every failure sets [enc_cb] and leaves [execute] alone; a short packet
    does not even generate the key pair. *)
Theorem public_key_rx_effect
  (om : bytes) (p : ble_sm_proc) (res : ble_sm_result) (w : world) :
  let rcp := ble_hs_misc_pullup_base om BLE_SM_PUBLIC_KEY_SZ in
  let '(rck, wk) := ble_sm_sc_ensure_keys_generated w in
  let cmd := ble_sm_public_key_parse om in
  let '(rcd, dh) :=
    ble_sm_alg_gen_dhkey (pk_x cmd) (pk_y cmd) (ble_sm_sc_priv_key wk)
      (dhkey p) in
  let '(found', res', w') := ble_sm_sc_public_key_rx om (Some p) res w in
  match found' with
  | None => False
  | Some q =>
      (if failed rcp || failed rck then q = p
       else if negb (failed rcd) && F_INITIATOR (flags p)
            then q = set_state BLE_SM_PROC_STATE_CONFIRM
                       (set_dhkey dh (set_pub_key_peer cmd p))
            else q = set_dhkey dh (set_pub_key_peer cmd p)) /\
      (if public_key_rx_ok om p w then
         app_status res' = HS_OK /\ enc_cb res' = enc_cb res /\
         sm_err res' = sm_err res
       else
         failed (app_status res') = true /\ enc_cb res' = true /\
         execute res' = execute res) /\
      (if negb (failed rcp) && negb (failed rck) && failed rcd then
         app_status res' = BLE_HS_SM_US_ERR BLE_SM_ERR_DHKEY /\
         sm_err res' = Some BLE_SM_ERR_DHKEY
       else True) /\
      (if failed rcp then w' = w else True)
  end.
Proof.
  cbv zeta. unfold ble_sm_sc_public_key_rx, public_key_rx_ok.
  destruct (ble_sm_sc_ensure_keys_generated w) as [rck wk].
  replace (dhkey (set_pub_key_peer (ble_sm_public_key_parse om) p))
    with (dhkey p) by (destruct p; reflexivity).
  replace (pub_key_peer (set_pub_key_peer (ble_sm_public_key_parse om) p))
    with (ble_sm_public_key_parse om) by (destruct p; reflexivity).
  destruct (ble_sm_alg_gen_dhkey _ _ _ _) as [rcd dh]. cbn [fst].
  destruct (failed (ble_hs_misc_pullup_base om BLE_SM_PUBLIC_KEY_SZ)) eqn:Ep.
  { cbn. repeat split; auto. }
  cbn [orb negb andb].
  destruct (failed rck) eqn:Ek.
  { cbn. repeat split; auto. }
  cbn [orb negb andb].
  apply failed_false in Ek. subst rck.
  destruct (failed rcd) eqn:Ed; cbn [negb andb].
  { cbn. repeat split; auto. }
  apply failed_false in Ed. subst rcd.
  replace (F_INITIATOR (flags (set_dhkey dh
             (set_pub_key_peer (ble_sm_public_key_parse om) p))))
    with (F_INITIATOR (flags p)) by (destruct p; reflexivity).
  destruct (F_INITIATOR (flags p)).
  - destruct (ble_sm_proc_can_advance _ && _); cbn; repeat split; auto.
  - cbn. repeat split; auto.
Qed.

(** X14.  Receiving the peer's public key when no procedure is waiting for
    it.  No DH key is computed and the result is a failure without
    [execute].  If the packet is long enough and the key pair can be
    ensured, the status is ENOENT, the reason UNSPECIFIED and [enc_cb] is
    not set by the step; the key pair has been generated all the same. *)
Theorem public_key_rx_no_proc
  (om : bytes) (res : ble_sm_result) (w : world) :
  let rcp := ble_hs_misc_pullup_base om BLE_SM_PUBLIC_KEY_SZ in
  let '(rck, wk) := ble_sm_sc_ensure_keys_generated w in
  let '(found', res', w') := ble_sm_sc_public_key_rx om None res w in
  found' = None /\
  dhkey_gens (w_log w') = dhkey_gens (w_log w) /\
  execute res' = execute res /\
  failed (app_status res') = true /\
  (if failed rcp then w' = w /\ enc_cb res' = true
   else if failed rck then w' = wk /\ enc_cb res' = true
   else w' = wk /\ app_status res' = BLE_HS_ENOENT /\
        sm_err res' = Some BLE_SM_ERR_UNSPECIFIED /\
        enc_cb res' = enc_cb res).
Proof.
  cbv zeta. unfold ble_sm_sc_public_key_rx.
  destruct (ensure_keys_log w) as (l0 & Hl0 & _ & Hd0 & _).
  destruct (ble_sm_sc_ensure_keys_generated w) as [rck wk]. cbn [snd] in Hl0.
  assert (Hd : dhkey_gens (w_log wk) = dhkey_gens (w_log w)).
  { rewrite Hl0. unfold dhkey_gens in *. rewrite filter_app, length_app, Hd0.
    reflexivity. }
  destruct (failed (ble_hs_misc_pullup_base om BLE_SM_PUBLIC_KEY_SZ)) eqn:Ep.
  { cbn. repeat split; auto. }
  destruct (failed rck) eqn:Ek.
  { cbn. repeat split; auto. }
  cbn. repeat split. exact Hd.
Qed.

(** X15.  Receiving a DHKey check.  A packet that is too short or does not
    parse, or one for which no procedure is waiting, changes neither the
    procedure nor the world, so f6 is not called.  The first two are
    reported with [enc_cb] set and the reason UNSPECIFIED; the third with
    the status ENOENT only, [enc_cb] and the reason left as they were.
    Otherwise the step is [ble_sm_dhkey_check_process] on the parsed
    value. *)
Theorem dhkey_check_rx_effect
  (om : bytes) (found : option ble_sm_proc) (res : ble_sm_result)
  (w : world) :
  let rcp := ble_hs_misc_pullup_base om BLE_SM_DHKEY_CHECK_SZ in
  let '(rcq, cmd) := ble_sm_dhkey_check_parse om in
  let '(found', res', w') := ble_sm_sc_dhkey_check_rx om found res w in
  if failed rcp || failed rcq then
    found' = found /\ w' = w /\ failed (app_status res') = true /\
    enc_cb res' = true /\ sm_err res' = Some BLE_SM_ERR_UNSPECIFIED /\
    execute res' = execute res
  else
    match found with
    | None =>
        found' = None /\ w' = w /\ app_status res' = BLE_HS_ENOENT /\
        enc_cb res' = enc_cb res /\ sm_err res' = sm_err res /\
        execute res' = execute res
    | Some p =>
        let '(q, res2, w2) :=
          ble_sm_dhkey_check_process p cmd (set_app_status HS_OK res) w in
        found' = Some q /\ res' = res2 /\ w' = w2
    end.
Proof.
  cbv zeta. unfold ble_sm_sc_dhkey_check_rx.
  destruct (ble_sm_dhkey_check_parse om) as [rcq cmd].
  destruct (failed (ble_hs_misc_pullup_base om BLE_SM_DHKEY_CHECK_SZ)) eqn:Ep.
  { cbn. rewrite Ep. repeat split. }
  cbn [orb].
  destruct (failed rcq) eqn:Eq.
  { cbn. rewrite Eq. repeat split. }
  apply failed_false in Eq. subst rcq.
  destruct found as [p | ]; [ | cbn; repeat split].
  change (set_app_status HS_OK
            (set_app_status
               (ble_hs_misc_pullup_base om BLE_SM_DHKEY_CHECK_SZ) res))
    with (set_app_status HS_OK res).
  destruct (ble_sm_dhkey_check_process p cmd (set_app_status HS_OK res) w)
    as [[q res2] w2].
  repeat split.
Qed.

End PublicKey.

(** ** The two ends of one pairing *)

Section TwoEnds.
Context {H : Host}.

Lemma memcmp_ne_same (v : bytes) (n : nat) : memcmp_ne v v n = false.
Proof.
  unfold memcmp_ne.
  destruct (list_eq_dec Z.eq_dec (firstn n v) (firstn n v)) as [_ | Hne];
    [reflexivity | exfalso; apply Hne; reflexivity].
Qed.

(** X16.  The check value of an honest peer is accepted.  Let [q] be the
    other end of [p]: the opposite role, the same pairing request and
    response, MAC key, [tk] and nonces, each device knowing its own address
    and the other's.  If f6 succeeds for [q], then
    [ble_sm_sc_dhkey_check_go] on [q] transmits a value that
    [ble_sm_dhkey_check_process] on [p] does not reject: the status is 0
    and neither [enc_cb] nor the reason is written. *)
Theorem dhkey_check_honest_peer_accepted
  (p q : ble_sm_proc) (resp resq : ble_sm_result) (wp wq : world)
  (lt pt : Z) (la pa v : bytes) :
  F_INITIATOR (flags q) = negb (F_INITIATOR (flags p)) ->
  pair_req q = pair_req p -> pair_rsp q = pair_rsp p ->
  mackey q = mackey p -> tk q = tk p ->
  randm q = randm p -> rands q = rands p ->
  bls_hs_priv_copy_local_identity_addr (w_ext wp) = (la, lt) ->
  ble_sm_peer_addr (w_ext wp) p = (HS_OK, (pt, pa)) ->
  bls_hs_priv_copy_local_identity_addr (w_ext wq) = (pa, pt) ->
  ble_sm_peer_addr (w_ext wq) q = (HS_OK, (lt, la)) ->
  ble_sm_alg_f6 (mackey q) (ble_sm_our_pair_rand q)
    (ble_sm_their_pair_rand q) (tk q)
    (ble_sm_sc_dhkey_check_iocap
       (if F_INITIATOR (flags q) then pair_req q else pair_rsp q))
    pt pa lt la = (HS_OK, v) ->
  (exists l,
     w_log (snd (ble_sm_sc_dhkey_check_go q resq wq))
     = EvTxDhkeyCheck (conn_handle q) v :: l) /\
  let '(_, res', _) := ble_sm_dhkey_check_process p v resp wp in
  app_status res' = HS_OK /\ enc_cb res' = enc_cb resp /\
  sm_err res' = sm_err resp.
Proof.
  intros Hi Hreq Hrsp Hm Htk Hrm Hrs Hlp Hpp Hlq Hpq Hf6.
  split.
  - apply (dhkey_check_go_sends q resq wq lt la v); [exact Hpq | ].
    rewrite Hlq. cbn [fst snd].
    unfold ble_sm_sc_dhkey_check_iocap in Hf6. exact Hf6.
  - pose proof (dhkey_check_expected_mirror p q wp pt lt pa la
                  Hi Hreq Hrsp Hm Htk Hrm Hrs Hlp) as He.
    rewrite Hf6 in He.
    unfold ble_sm_dhkey_check_process. rewrite Hpp. cbn [failed].
    rewrite He. cbn [failed]. rewrite memcmp_ne_same.
    destruct (ble_sm_sc_passkey_action p) as [a p1].
    destruct (ble_sm_proc_can_advance _); cbn; repeat split.
Qed.

Lemma random_rx_passes
  (p : ble_sm_proc) (res : ble_sm_result) (w : world) :
  confirm_check_passes p w = true ->
  exists w0, ble_sm_sc_random_rx p res w = random_rx_keys p res w0 /\
             w_ext w0 = w_ext w.
Proof.
  unfold confirm_check_passes. intros Hc.
  rewrite random_rx_unfold.
  destruct (random_rx_verifies p); [ | exists w; split; reflexivity].
  cbn [negb orb] in Hc. cbv zeta.
  destruct (ble_sm_alg_f4 _ _ _ _) as [rc cv].
  apply andb_true_iff in Hc as [H1 H2].
  apply negb_true_iff in H1, H2. rewrite H1, H2.
  eexists. split; reflexivity.
Qed.

(** X17.  Both ends derive the same keys.  f5 is given the initiator's
    nonce, then the responder's, and the initiator's address, then the
    responder's, on either end; so two procedures that hold the same DH
    key and nonces, see the same addresses and whose key buffers hold the
    same bytes beforehand leave [ble_sm_sc_random_rx], when the confirm
    check lets them through and f5 succeeds, with the same MAC key and the
    same LTK, marked valid in their key sets. *)
Theorem both_ends_derive_same_keys
  (p q : ble_sm_proc) (resp resq : ble_sm_result) (wp wq : world)
  (iat rat : Z) (ia ra : bytes) :
  dhkey q = dhkey p -> randm q = randm p -> rands q = rands p ->
  mackey q = mackey p -> ltk q = ltk p ->
  ble_sm_addrs (w_ext wp) p = (HS_OK, (iat, ia, rat, ra)) ->
  ble_sm_addrs (w_ext wq) q = (HS_OK, (iat, ia, rat, ra)) ->
  failed (fst (ble_sm_alg_f5 (dhkey p) (randm p) (rands p) iat ia rat ra
                 (mackey p) (ltk p))) = false ->
  confirm_check_passes p wp = true ->
  confirm_check_passes q wq = true ->
  let '(p', _, _) := ble_sm_sc_random_rx p resp wp in
  let '(q', _, _) := ble_sm_sc_random_rx q resq wq in
  ltk q' = ltk p' /\ mackey q' = mackey p' /\
  ltk_valid (our_keys p') = true /\ ltk_valid (our_keys q') = true /\
  keys_ltk (our_keys p') = memcpy (keys_ltk (our_keys p)) (ltk p') 16 /\
  keys_ltk (our_keys q') = memcpy (keys_ltk (our_keys q)) (ltk p') 16.
Proof.
  intros Hd Hrm Hrs Hm Hl Hap Haq H5 Hcp Hcq.
  destruct (random_rx_passes p resp wp Hcp) as (wp0 & Ep & Hep).
  destruct (random_rx_passes q resq wq Hcq) as (wq0 & Eq & Heq).
  rewrite Ep, Eq.
  pose proof (random_rx_keys_spec p resp wp0) as Sp.
  pose proof (random_rx_keys_spec q resq wq0) as Sq.
  rewrite Hep, Hap in Sp. rewrite Heq, Haq, Hd, Hrm, Hrs, Hm, Hl in Sq.
  destruct (ble_sm_alg_f5 _ _ _ _ _ _ _ _ _) as [rc5 [mk lk]].
  cbn [fst] in H5.
  destruct (random_rx_keys p resp wp0) as [[p' rp] wp'].
  destruct (random_rx_keys q resq wq0) as [[q' rq] wq'].
  destruct Sp as (_ & Sp). destruct Sq as (_ & Sq).
  destruct (Sp eq_refl H5) as (P1 & P2 & P3 & _).
  destruct (Sq eq_refl H5) as (Q1 & Q2 & Q3 & _).
  rewrite P1, P2, P3, Q1, Q2, Q3. cbn [ltk_valid keys_ltk].
  repeat split.
Qed.

End TwoEnds.

(** ** The passkey in the round values *)

Section PasskeyBits.
Context {H : Host}.

Lemma gen_ri_passkey_step (p : ble_sm_proc) (w : world) :
  pair_alg p = BLE_SM_PAIR_ALG_PASSKEY ->
  Forall is_byte (tk p) ->
  0 <= passkey_bits_exchanged p < 32 ->
  let '(_, q, w') := ble_sm_sc_gen_ri p w in
  let passkey := le_value (firstn (Z.to_nat BLE_SM_SC_PASSKEY_BYTES) (tk p)) in
  ri q = Z.lor 0x80 (Z.b2z (Z.testbit passkey (passkey_bits_exchanged p))) /\
  pair_alg q = BLE_SM_PAIR_ALG_PASSKEY /\ tk q = tk p /\
  passkey_bits_exchanged q = passkey_bits_exchanged p + 1 /\ w' = w.
Proof.
  intros Ha Htk Hb. unfold ble_sm_sc_gen_ri. rewrite Ha. cbv zeta.
  rewrite c_bool_land_bit by (apply Z.mod_pos_bound; lia).
  rewrite le_value_firstn_testbit
    by (auto; unfold BLE_SM_SC_PASSKEY_BYTES; simpl; lia).
  destruct p; cbn in *. repeat split; auto.
  unfold u8_incr. apply Z.mod_small. lia.
Qed.

Lemma gen_ri_seq_value (n : nat) :
  forall (p : ble_sm_proc) (w : world),
  pair_alg p = BLE_SM_PAIR_ALG_PASSKEY ->
  Forall is_byte (tk p) ->
  0 <= passkey_bits_exchanged p ->
  passkey_bits_exchanged p + Z.of_nat n <= 32 ->
  let passkey := le_value (firstn (Z.to_nat BLE_SM_SC_PASSKEY_BYTES) (tk p)) in
  low_bits_value (gen_ri_seq n p w)
  = (passkey / 2 ^ passkey_bits_exchanged p) mod 2 ^ Z.of_nat n /\
  Forall (fun r => Z.land r 0x80 = 0x80) (gen_ri_seq n p w) /\
  length (gen_ri_seq n p w) = n.
Proof.
  induction n as [| n IH]; intros p w Ha Htk Hb Hn.
  - cbn. rewrite Z.mod_1_r. repeat split. constructor.
  - cbn [gen_ri_seq].
    pose proof (gen_ri_passkey_step p w Ha Htk ltac:(lia)) as Hs.
    destruct (ble_sm_sc_gen_ri p w) as [[rc q] w'].
    cbv zeta in Hs. destruct Hs as (Hr & Hqa & Hqt & Hqb & _).
    specialize (IH q w' Hqa ltac:(rewrite Hqt; exact Htk)
                  ltac:(lia) ltac:(lia)).
    cbv zeta in IH. rewrite Hqt, Hqb in IH.
    destruct IH as (Iv & If & Il).
    set (pk := le_value _) in *.
    set (k := passkey_bits_exchanged p) in *.
    split; [ | split].
    + cbn [low_bits_value]. rewrite Iv, Hr.
      replace (Z.land (Z.lor 128 (Z.b2z (Z.testbit pk k))) 1)
        with (Z.b2z (Z.testbit pk k))
        by (destruct (Z.testbit pk k); reflexivity).
      rewrite Z.testbit_spec' by lia.
      rewrite Nat2Z.inj_succ, Z.pow_succ_r by lia.
      rewrite (Z.rem_mul_r (pk / 2 ^ k) 2 (2 ^ Z.of_nat n))
        by (try apply Z.pow_pos_nonneg; lia).
      rewrite Z.div_div by (try apply Z.pow_pos_nonneg; lia).
      rewrite Z.pow_add_r by lia. reflexivity.
    + constructor; [ | exact If]. rewrite Hr.
      destruct (Z.testbit pk k); reflexivity.
    + cbn [length]. rewrite Il. reflexivity.
Qed.

(** X18.  The passkey can be read back from the round values.  For a
    PasskeyEntry procedure that starts with no bit exchanged, the Ri bytes
    of 20 successive calls of [ble_sm_sc_gen_ri] all have bit 7 set, and
    their lowest bits, the first call giving the lowest digit, spell the
    passkey held in the first four bytes of [tk] modulo 2^20. *)
Theorem gen_ri_seq_spells_passkey (p : ble_sm_proc) (w : world) :
  pair_alg p = BLE_SM_PAIR_ALG_PASSKEY ->
  passkey_bits_exchanged p = 0 ->
  Forall is_byte (tk p) ->
  let passkey := le_value (firstn (Z.to_nat BLE_SM_SC_PASSKEY_BYTES) (tk p)) in
  let ris := gen_ri_seq (Z.to_nat BLE_SM_SC_PASSKEY_BITS) p w in
  low_bits_value ris = passkey mod 2 ^ BLE_SM_SC_PASSKEY_BITS /\
  Forall (fun r => Z.land r 0x80 = 0x80) ris /\
  length ris = 20%nat.
Proof.
  intros Ha Hb Htk.
  pose proof (gen_ri_seq_value (Z.to_nat BLE_SM_SC_PASSKEY_BITS) p w Ha Htk
                ltac:(lia)
                ltac:(rewrite Hb; unfold BLE_SM_SC_PASSKEY_BITS; simpl; lia))
    as Hv.
  cbv zeta in *. rewrite Hb in Hv.
  change (2 ^ 0) with 1 in Hv. rewrite Z.div_1_r in Hv.
  rewrite Z2Nat.id in Hv by (unfold BLE_SM_SC_PASSKEY_BITS; lia).
  exact Hv.
Qed.

End PasskeyBits.

(** ** What no sequence of steps undoes *)

Section Kept.
Context {H : Host}.

Ltac keeps :=
  unfold step_keeps, rigid;
  repeat match goal with
         | p : ble_sm_proc |- _ => destruct p
         | f : proc_flags |- _ => destruct f
         end;
  cbn in *; repeat split; auto; try congruence.

Lemma keeps_refl (p : ble_sm_proc) : step_keeps p p.
Proof. keeps. Qed.

Lemma keeps_trans (p q r : ble_sm_proc) :
  step_keeps p q -> step_keeps q r -> step_keeps p r.
Proof.
  unfold step_keeps.
  intros (P1 & P2 & P3 & P4 & P5 & P6 & P7) (Q1 & Q2 & Q3 & Q4 & Q5 & Q6 & Q7).
  repeat split; auto. congruence.
Qed.

Lemma keeps_set_state (s : proc_state) (p : ble_sm_proc) :
  s <> BLE_SM_PROC_STATE_PUBLIC_KEY -> s <> BLE_SM_PROC_STATE_NONE ->
  step_keeps p (set_state s p).
Proof. intros H1 H2. keeps; intros E; contradiction. Qed.

Lemma keeps_passkey_action (p : ble_sm_proc) :
  step_keeps p (snd (ble_sm_sc_passkey_action p)).
Proof.
  unfold ble_sm_sc_passkey_action.
  destruct (passkey_action_of p); cbn [snd]; keeps.
Qed.

Lemma keeps_gen_ri (p : ble_sm_proc) (w : world) :
  step_keeps p (snd (fst (ble_sm_sc_gen_ri p w))).
Proof.
  destruct (gen_ri_frame p w) as (r & b & ->). keeps.
Qed.

Lemma keeps_random_advance (p : ble_sm_proc) (w : world) :
  step_keeps p (snd (fst (ble_sm_sc_random_advance p w))).
Proof.
  pose proof (random_advance_frame p w) as Hf.
  pose proof (random_advance_decision p w) as Hd.
  destruct (ble_sm_sc_random_advance p w) as [[rc q] w'].
  destruct Hf as ((s & a & b & Hq) & _).
  destruct Hd as (_ & _ & Hs & _). cbn [fst snd].
  assert (Hs' : s = state q) by (rewrite Hq; destruct p; reflexivity).
  assert (Hn : s <> BLE_SM_PROC_STATE_PUBLIC_KEY /\
               s <> BLE_SM_PROC_STATE_NONE).
  { rewrite Hs', Hs. destruct (loops_back p); split; discriminate. }
  destruct Hn as (N1 & N2). rewrite Hq.
  apply (keeps_trans p (set_state s p)); [apply keeps_set_state; auto | ].
  keeps.
Qed.

Lemma random_pkact_proc (b : bool) (p : ble_sm_proc) (res : ble_sm_result)
  (w : world) :
  fst (fst (random_pkact b p res w)) = snd (ble_sm_sc_passkey_action p).
Proof.
  unfold random_pkact.
  destruct (ble_sm_sc_passkey_action p) as [a q]. cbn [snd].
  destruct (proc_state_eqb _ _ && _).
  - destruct (ble_sm_sc_gen_numcmp q (set_pkact a res) w). reflexivity.
  - destruct b; reflexivity.
Qed.

Lemma world_keeps_refl (w : world) : world_keeps w w.
Proof. split; [exists []; reflexivity | auto]. Qed.

Lemma world_keeps_trans (w1 w2 w3 : world) :
  world_keeps w1 w2 -> world_keeps w2 w3 -> world_keeps w1 w3.
Proof.
  intros ((l1 & H1) & K1) ((l2 & H2) & K2). split.
  - exists (l2 ++ l1). rewrite H2, H1, app_assoc. reflexivity.
  - intros Hg. destruct (K1 Hg) as (G1 & P1 & R1).
    destruct (K2 G1) as (G2 & P2 & R2). repeat split; congruence.
Qed.

Lemma world_keeps_log (e : event) (x : ext) (w : world) :
  world_keeps w (log e (set_ext x w)).
Proof. split; [exists [e]; reflexivity | auto]. Qed.

Lemma world_keeps_log_only (e : event) (w : world) :
  world_keeps w (log e w).
Proof. split; [exists [e]; reflexivity | auto]. Qed.

Lemma world_keeps_ensure (w : world) :
  world_keeps w (snd (ble_sm_sc_ensure_keys_generated w)).
Proof.
  unfold ble_sm_sc_ensure_keys_generated.
  destruct (ble_sm_sc_keys_generated w) eqn:Eg; cbn [negb snd].
  - apply world_keeps_refl.
  - destruct (ble_sm_gen_pub_priv _ _ _) as [[rc [pub priv]] x].
    destruct (failed rc); cbn [snd];
      (split; [exists [EvGenPubPriv]; reflexivity | ]);
      intros Hg; rewrite Hg in Eg; discriminate.
Qed.

Lemma world_keeps_gen_ri (p : ble_sm_proc) (w : world) :
  world_keeps w (snd (ble_sm_sc_gen_ri p w)).
Proof.
  unfold ble_sm_sc_gen_ri. destruct (pair_alg p); cbn [snd];
    try apply world_keeps_refl.
  destruct (ble_hci_util_rand _ _ _) as [[rc out] x]. cbn [snd].
  apply world_keeps_log.
Qed.

Lemma world_keeps_random_advance (p : ble_sm_proc) (w : world) :
  world_keeps w (snd (ble_sm_sc_random_advance p w)).
Proof.
  unfold ble_sm_sc_random_advance.
  destruct (_ || _); [apply world_keeps_refl | ].
  destruct (ble_sm_gen_pair_rand _ _) as [[rc r] x].
  destruct (failed rc); cbn [snd]; apply world_keeps_log.
Qed.

Lemma world_keeps_random_pkact (b : bool) (p : ble_sm_proc)
  (res : ble_sm_result) (w : world) :
  world_keeps w (snd (random_pkact b p res w)).
Proof.
  unfold random_pkact, ble_sm_sc_gen_numcmp.
  destruct (ble_sm_sc_passkey_action p) as [a q].
  destruct (proc_state_eqb _ _ && _).
  - destruct (ble_sm_alg_g2 _ _ _ _ _) as [rc n].
    destruct (failed rc); cbn [snd]; apply world_keeps_log_only.
  - destruct b; apply world_keeps_refl.
Qed.

Lemma confirm_go_keeps (p : ble_sm_proc) (res : ble_sm_result) (w : world) :
  let '(q, _, w') := ble_sm_sc_confirm_go p res w in
  step_keeps p q /\ world_keeps w w'.
Proof.
  unfold ble_sm_sc_confirm_go.
  pose proof (keeps_gen_ri p w) as Kp.
  pose proof (world_keeps_gen_ri p w) as Kw.
  destruct (ble_sm_sc_gen_ri p w) as [[rc p1] w1]. cbn [fst snd] in Kp, Kw.
  destruct (failed rc); [auto | ].
  destruct (ble_sm_alg_f4 _ _ _ _) as [rc4 value].
  assert (Kw4 : forall e, world_keeps w (log e w1)).
  { intros e. apply (world_keeps_trans w w1); [exact Kw | ].
    apply world_keeps_log_only. }
  destruct (failed rc4); [auto | ].
  destruct (ble_sm_pair_confirm_tx _ _ _) as [rct e].
  assert (Kwt : forall e1 e2 x, world_keeps w (log e1 (set_ext x (log e2 w1)))).
  { intros e1 e2 x. apply (world_keeps_trans w (log e2 w1)); [apply Kw4 | ].
    apply world_keeps_log. }
  destruct (failed rct); [auto | ].
  destruct (negb (F_INITIATOR (flags p1))); [ | auto].
  split; [ | apply Kwt].
  apply (keeps_trans p p1); [exact Kp | ].
  apply keeps_set_state; discriminate.
Qed.

Lemma random_go_keeps (p : ble_sm_proc) (res : ble_sm_result) (w : world) :
  let '(q, _, w') := ble_sm_sc_random_go p res w in
  step_keeps p q /\ world_keeps w w'.
Proof.
  unfold ble_sm_sc_random_go.
  destruct (ble_sm_pair_random_tx _ _ _) as [rct e].
  set (w1 := log _ _).
  assert (K1 : world_keeps w w1) by apply world_keeps_log.
  destruct (failed rct); [split; [apply keeps_refl | exact K1] | ].
  destruct (negb (F_INITIATOR (flags p)));
    [ | split; [apply keeps_refl | exact K1]].
  pose proof (keeps_random_advance p w1) as Kp.
  pose proof (world_keeps_random_advance p w1) as Kw.
  destruct (ble_sm_sc_random_advance p w1) as [[rc q] w2].
  cbn [fst snd] in Kp, Kw.
  assert (K2 : world_keeps w w2) by (eapply world_keeps_trans; eassumption).
  destruct (failed rc); [split; assumption | ].
  pose proof (random_pkact_proc false q res w2) as Hq.
  pose proof (world_keeps_random_pkact false q res w2) as Kw3.
  destruct (random_pkact false q res w2) as [[q2 r2] w3].
  cbn [fst snd] in Hq, Kw3. subst q2. split.
  - eapply keeps_trans; [exact Kp | apply keeps_passkey_action].
  - eapply world_keeps_trans; eassumption.
Qed.

Lemma random_rx_keys_keeps
  (p : ble_sm_proc) (res : ble_sm_result) (w : world) :
  let '(q, _, w') := random_rx_keys p res w in
  step_keeps p q /\ world_keeps w w'.
Proof.
  unfold random_rx_keys.
  destruct (ble_sm_addrs (w_ext w) p) as [rca [[[iat ia] rat] ra]].
  destruct (failed rca); [split; [apply keeps_refl | apply world_keeps_refl] | ].
  destruct (ble_sm_alg_f5 _ _ _ _ _ _ _ _ _) as [rc5 [mk lk]].
  assert (K1 : world_keeps w (log EvF5 w)) by apply world_keeps_log_only.
  destruct (failed rc5); [split; [keeps | exact K1] | ].
  cbv zeta.
  set (p2 := set_keys _ _ _).
  assert (Kp2 : step_keeps p p2) by (subst p2; keeps).
  destruct (F_INITIATOR (flags p2)); [ | split; assumption].
  pose proof (keeps_random_advance p2 (log EvF5 w)) as Kp.
  pose proof (world_keeps_random_advance p2 (log EvF5 w)) as Kw.
  destruct (ble_sm_sc_random_advance p2 (log EvF5 w)) as [[rc q] w2].
  cbn [fst snd] in Kp, Kw.
  pose proof (random_pkact_proc true q res w2) as Hq.
  pose proof (world_keeps_random_pkact true q res w2) as Kw3.
  destruct (random_pkact true q res w2) as [[q2 r2] w3].
  cbn [fst snd] in Hq, Kw3. subst q2. split.
  - eapply keeps_trans; [exact Kp2 | ].
    eapply keeps_trans; [exact Kp | apply keeps_passkey_action].
  - eapply world_keeps_trans; [exact K1 | ].
    eapply world_keeps_trans; eassumption.
Qed.

Lemma random_rx_step_keeps
  (p : ble_sm_proc) (res : ble_sm_result) (w : world) :
  let '(q, _, w') := ble_sm_sc_random_rx p res w in
  step_keeps p q /\ world_keeps w w'.
Proof.
  rewrite random_rx_unfold.
  destruct (random_rx_verifies p); [ | apply random_rx_keys_keeps].
  cbv zeta. destruct (ble_sm_alg_f4 _ _ _ _) as [rc cv].
  set (ev := EvF4 _ _ _ _).
  assert (K1 : world_keeps w (log ev w)) by apply world_keeps_log_only.
  destruct (failed rc); [split; [apply keeps_refl | exact K1] | ].
  destruct (memcmp_ne _ _ _); [split; [apply keeps_refl | exact K1] | ].
  pose proof (random_rx_keys_keeps p res (log ev w)) as Hk.
  destruct (random_rx_keys p res (log ev w)) as [[q r] w'].
  destruct Hk as (Kp & Kw). split; [exact Kp | ].
  eapply world_keeps_trans; eassumption.
Qed.

Lemma public_key_go_keeps
  (p : ble_sm_proc) (res : ble_sm_result) (w : world) :
  let '(q, _, w') := ble_sm_sc_public_key_go p res w in
  step_keeps p q /\ world_keeps w w'.
Proof.
  unfold ble_sm_sc_public_key_go.
  pose proof (world_keeps_ensure w) as K0.
  destruct (ble_sm_sc_ensure_keys_generated w) as [rck wk]. cbn [snd] in K0.
  destruct (failed rck); [split; [apply keeps_refl | exact K0] | ].
  destruct (ble_sm_public_key_tx _ _ _) as [rct e].
  set (w1 := log _ _).
  assert (K1 : world_keeps w w1).
  { eapply world_keeps_trans; [exact K0 | apply world_keeps_log]. }
  destruct (failed rct); [split; [apply keeps_refl | exact K1] | ].
  pose proof (keeps_passkey_action p) as Kq.
  destruct (ble_sm_sc_passkey_action p) as [a q]. cbn [snd] in Kq.
  destruct (negb (F_INITIATOR (flags q))); [ | split; assumption].
  assert (Kc : step_keeps p (set_state BLE_SM_PROC_STATE_CONFIRM q)).
  { eapply keeps_trans; [exact Kq | apply keeps_set_state; discriminate]. }
  destruct (ble_sm_proc_can_advance _ && negb _); split; assumption.
Qed.

Lemma public_key_rx_keeps
  (om : bytes) (p : ble_sm_proc) (res : ble_sm_result) (w : world) :
  let '(q, _, w') :=
    found_proc p (ble_sm_sc_public_key_rx om (Some p) res w) in
  step_keeps p q /\ world_keeps w w'.
Proof.
  unfold ble_sm_sc_public_key_rx, found_proc.
  destruct (failed (ble_hs_misc_pullup_base om BLE_SM_PUBLIC_KEY_SZ));
    [split; [apply keeps_refl | apply world_keeps_refl] | ].
  pose proof (world_keeps_ensure w) as K0.
  destruct (ble_sm_sc_ensure_keys_generated w) as [rck wk]. cbn [snd] in K0.
  destruct (failed rck); [split; [apply keeps_refl | exact K0] | ].
  destruct (ble_sm_alg_gen_dhkey _ _ _ _) as [rcd dh].
  set (p1 := set_dhkey dh _).
  assert (Kp1 : step_keeps p p1) by (subst p1; keeps).
  assert (K1 : world_keeps w (log EvGenDhkey wk)).
  { eapply world_keeps_trans; [exact K0 | apply world_keeps_log_only]. }
  destruct (failed rcd); [split; assumption | ].
  destruct (F_INITIATOR (flags p1)); [ | split; assumption].
  assert (Kc : step_keeps p (set_state BLE_SM_PROC_STATE_CONFIRM p1)).
  { eapply keeps_trans; [exact Kp1 | apply keeps_set_state; discriminate]. }
  destruct (ble_sm_proc_can_advance _ && _); split; assumption.
Qed.

Lemma dhkey_check_go_keeps
  (p : ble_sm_proc) (res : ble_sm_result) (w : world) :
  let '(q, _, w') := ble_sm_sc_dhkey_check_go p res w in
  step_keeps p q /\ world_keeps w w'.
Proof.
  unfold ble_sm_sc_dhkey_check_go.
  destruct (bls_hs_priv_copy_local_identity_addr (w_ext w)) as [oa ot].
  destruct (ble_sm_peer_addr (w_ext w) p) as [rca [pt pa]].
  destruct (failed rca); [split; [apply keeps_refl | apply world_keeps_refl] | ].
  destruct (ble_sm_alg_f6 _ _ _ _ _ _ _ _ _) as [rc6 value].
  assert (K1 : world_keeps w (log EvF6 w)) by apply world_keeps_log_only.
  destruct (failed rc6); [split; [apply keeps_refl | exact K1] | ].
  destruct (ble_sm_dhkey_check_tx _ _ _) as [rct e].
  set (w2 := log _ (set_ext _ _)).
  assert (K2 : world_keeps w w2).
  { eapply world_keeps_trans; [exact K1 | apply world_keeps_log]. }
  destruct (failed rct); [split; [apply keeps_refl | exact K2] | ].
  destruct (negb (F_INITIATOR (flags p)));
    [ | split; [apply keeps_refl | exact K2]].
  split; [apply keeps_set_state; discriminate | exact K2].
Qed.

Lemma dhkey_check_process_keeps
  (p : ble_sm_proc) (cmd : bytes) (res : ble_sm_result) (w : world) :
  let '(q, _, w') := ble_sm_dhkey_check_process p cmd res w in
  step_keeps p q /\ world_keeps w w'.
Proof.
  unfold ble_sm_dhkey_check_process.
  destruct (ble_sm_peer_addr (w_ext w) p) as [rca [pt pa]].
  destruct (failed rca); [split; [apply keeps_refl | apply world_keeps_refl] | ].
  destruct (dhkey_check_expected p w pt pa) as [rc6 exp_value].
  assert (K1 : world_keeps w (log EvF6 w)) by apply world_keeps_log_only.
  destruct (failed rc6); [split; [apply keeps_refl | exact K1] | ].
  destruct (memcmp_ne _ _ _); [split; [apply keeps_refl | exact K1] | ].
  pose proof (keeps_passkey_action p) as Kq.
  destruct (ble_sm_sc_passkey_action p) as [a q]. cbn [snd] in Kq.
  set (q1 := if proc_state_eqb _ _ then _ else _).
  assert (Kq1 : step_keeps p q1).
  { subst q1. destruct (proc_state_eqb _ _); [ | exact Kq].
    eapply keeps_trans; [exact Kq | keeps]. }
  destruct (ble_sm_proc_can_advance q1); [ | split; assumption].
  destruct (F_INITIATOR (flags q1)); [ | split; assumption].
  split; [ | exact K1].
  eapply keeps_trans; [exact Kq1 | apply keeps_set_state; discriminate].
Qed.

Lemma dhkey_check_rx_keeps
  (om : bytes) (p : ble_sm_proc) (res : ble_sm_result) (w : world) :
  let '(q, _, w') :=
    found_proc p (ble_sm_sc_dhkey_check_rx om (Some p) res w) in
  step_keeps p q /\ world_keeps w w'.
Proof.
  unfold ble_sm_sc_dhkey_check_rx, found_proc.
  destruct (failed (ble_hs_misc_pullup_base om BLE_SM_DHKEY_CHECK_SZ));
    [split; [apply keeps_refl | apply world_keeps_refl] | ].
  destruct (ble_sm_dhkey_check_parse om) as [rcq cmd].
  destruct (failed rcq);
    [split; [apply keeps_refl | apply world_keeps_refl] | ].
  match goal with
  | |- context [ble_sm_dhkey_check_process p cmd ?r w] =>
      pose proof (dhkey_check_process_keeps p cmd r w) as Hk;
      destruct (ble_sm_dhkey_check_process p cmd r w) as [[q r2] w2]
  end.
  exact Hk.
Qed.

Lemma run_call_keeps (c : sc_call)
  (p : ble_sm_proc) (res : ble_sm_result) (w : world) :
  let '(q, _, w') := run_call c (p, res, w) in
  step_keeps p q /\ world_keeps w w'.
Proof.
  destruct c; cbn [run_call].
  - apply public_key_go_keeps.
  - apply public_key_rx_keeps.
  - apply confirm_go_keeps.
  - apply random_go_keeps.
  - apply random_rx_step_keeps.
  - apply dhkey_check_go_keeps.
  - apply dhkey_check_rx_keeps.
Qed.

Lemma run_calls_keeps (cs : list sc_call) :
  forall (p : ble_sm_proc) (res : ble_sm_result) (w : world),
  let '(q, _, w') := run_calls cs (p, res, w) in
  step_keeps p q /\ world_keeps w w'.
Proof.
  induction cs as [| c cs IH]; intros p res w.
  - cbn. split; [apply keeps_refl | apply world_keeps_refl].
  - cbn [run_calls].
    pose proof (run_call_keeps c p res w) as Hc.
    destruct (run_call c (p, res, w)) as [[p1 r1] w1].
    specialize (IH p1 r1 w1).
    destruct (run_calls cs (p1, r1, w1)) as [[q r2] w2].
    destruct Hc as (C1 & C2). destruct IH as (I1 & I2). split.
    + eapply keeps_trans; eassumption.
    + eapply world_keeps_trans; eassumption.
Qed.

(** X19.  No sequence of steps of this file writes the connection handle,
    the pairing request or response, [tk], the confirm value received from
    the peer, or the initiator, IO-injected and SC flags: they are what the
    caller has set. *)
Theorem run_calls_keep_inputs (cs : list sc_call)
  (p : ble_sm_proc) (res : ble_sm_result) (w : world) :
  let '(q, _, _) := run_calls cs (p, res, w) in
  conn_handle q = conn_handle p /\
  pair_req q = pair_req p /\ pair_rsp q = pair_rsp p /\
  tk q = tk p /\ confirm_peer q = confirm_peer p /\
  F_INITIATOR (flags q) = F_INITIATOR (flags p) /\
  F_IO_INJECTED (flags q) = F_IO_INJECTED (flags p) /\
  F_SC (flags q) = F_SC (flags p).
Proof.
  pose proof (run_calls_keeps cs p res w) as Hk.
  destruct (run_calls cs (p, res, w)) as [[q r] w'].
  destruct Hk as ((Hr & _) & _). unfold rigid in Hr.
  injection Hr as -> -> -> -> -> -> -> ->. repeat split.
Qed.

(** X20.  What is set stays set.  Through any sequence of steps a procedure
    that is marked authenticated stays so, one with the advance-on-IO flag
    keeps it, and a key set whose LTK is marked valid stays valid. *)
Theorem run_calls_never_clear (cs : list sc_call)
  (p : ble_sm_proc) (res : ble_sm_result) (w : world) :
  let '(q, _, _) := run_calls cs (p, res, w) in
  (if F_AUTHENTICATED (flags p) then F_AUTHENTICATED (flags q) = true
   else True) /\
  (if F_ADVANCE_ON_IO (flags p) then F_ADVANCE_ON_IO (flags q) = true
   else True) /\
  (if ltk_valid (our_keys p) then ltk_valid (our_keys q) = true else True) /\
  (if ltk_valid (peer_keys p) then ltk_valid (peer_keys q) = true else True).
Proof.
  pose proof (run_calls_keeps cs p res w) as Hk.
  destruct (run_calls cs (p, res, w)) as [[q r] w'].
  destruct Hk as ((_ & H1 & H2 & H3 & H4 & _) & _).
  destruct (F_AUTHENTICATED (flags p)), (F_ADVANCE_ON_IO (flags p)),
    (ltk_valid (our_keys p)), (ltk_valid (peer_keys p)); repeat split; auto.
Qed.

(** X21.  No way back to the public key exchange.  After any sequence of
    steps a procedure is in state PUBLIC_KEY only if it started there and
    in state NONE only if it started there: no step assigns either. *)
Theorem run_calls_never_back_to_public_key (cs : list sc_call)
  (p : ble_sm_proc) (res : ble_sm_result) (w : world) :
  let '(q, _, _) := run_calls cs (p, res, w) in
  match state q with
  | BLE_SM_PROC_STATE_PUBLIC_KEY => state p = BLE_SM_PROC_STATE_PUBLIC_KEY
  | BLE_SM_PROC_STATE_NONE => state p = BLE_SM_PROC_STATE_NONE
  | _ => True
  end.
Proof.
  pose proof (run_calls_keeps cs p res w) as Hk.
  destruct (run_calls cs (p, res, w)) as [[q r] w'].
  destruct Hk as ((_ & _ & _ & _ & _ & H6 & H7) & _).
  destruct (state q); auto.
Qed.

(** X22.  The key pair is generated once for all procedures.  Once the
    keys are marked generated, no sequence of steps on any procedure calls
    for another pair: the flag stays set and the public and private keys are
    the same bytes afterwards. *)
Theorem run_calls_keep_key_pair (cs : list sc_call)
  (p : ble_sm_proc) (res : ble_sm_result) (w : world) :
  let '(_, _, w') := run_calls cs (p, res, w) in
  if ble_sm_sc_keys_generated w then
    ble_sm_sc_keys_generated w' = true /\
    ble_sm_sc_pub_key w' = ble_sm_sc_pub_key w /\
    ble_sm_sc_priv_key w' = ble_sm_sc_priv_key w
  else True.
Proof.
  pose proof (run_calls_keeps cs p res w) as Hk.
  destruct (run_calls cs (p, res, w)) as [[q r] w'].
  destruct Hk as (_ & (_ & Hg)).
  destruct (ble_sm_sc_keys_generated w); [apply Hg; reflexivity | exact I].
Qed.

(** *** Ri and the bit counter belong to the Confirm step *)

Lemma passkey_action_ri_bits (p : ble_sm_proc) :
  ri (snd (ble_sm_sc_passkey_action p)) = ri p /\
  passkey_bits_exchanged (snd (ble_sm_sc_passkey_action p))
  = passkey_bits_exchanged p.
Proof.
  unfold ble_sm_sc_passkey_action.
  destruct (passkey_action_of p); destruct p; split; reflexivity.
Qed.

Lemma random_advance_ri_bits (p : ble_sm_proc) (w : world) :
  ri (snd (fst (ble_sm_sc_random_advance p w))) = ri p /\
  passkey_bits_exchanged (snd (fst (ble_sm_sc_random_advance p w)))
  = passkey_bits_exchanged p.
Proof.
  pose proof (random_advance_frame p w) as Hf.
  destruct (ble_sm_sc_random_advance p w) as [[rc q] w'].
  destruct Hf as ((s & a & b & ->) & _). destruct p; split; reflexivity.
Qed.

(** X23.  Ri and the passkey bit counter are written by the Confirm step
    only.  Every other step leaves both as they were, so the Ri that
    [ble_sm_sc_random_rx] checks the peer's confirm value with is the one
    the last Confirm step generated; and the Confirm step itself moves the
    counter only with PasskeyEntry, by one. *)
Theorem run_call_ri_bits (c : sc_call)
  (p : ble_sm_proc) (res : ble_sm_result) (w : world) :
  let '(q, _, _) := run_call c (p, res, w) in
  match c with
  | CallConfirmGo =>
      passkey_bits_exchanged q
      = match pair_alg p with
        | BLE_SM_PAIR_ALG_PASSKEY => u8_incr (passkey_bits_exchanged p)
        | _ => passkey_bits_exchanged p
        end
  | _ => ri q = ri p /\ passkey_bits_exchanged q = passkey_bits_exchanged p
  end.
Proof.
  destruct c; cbn [run_call].
  - (* public_key_go *)
    unfold ble_sm_sc_public_key_go.
    destruct (ble_sm_sc_ensure_keys_generated w) as [rck wk].
    destruct (failed rck); [auto | ].
    destruct (ble_sm_public_key_tx _ _ _) as [rct e].
    destruct (failed rct); [auto | ].
    pose proof (passkey_action_ri_bits p) as Hq.
    destruct (ble_sm_sc_passkey_action p) as [a q]. cbn [snd] in Hq.
    destruct (negb (F_INITIATOR (flags q))); [ | exact Hq].
    destruct (ble_sm_proc_can_advance _ && negb _);
      destruct q; cbn in *; exact Hq.
  - (* public_key_rx *)
    unfold ble_sm_sc_public_key_rx, found_proc.
    destruct (failed (ble_hs_misc_pullup_base om BLE_SM_PUBLIC_KEY_SZ));
      [auto | ].
    destruct (ble_sm_sc_ensure_keys_generated w) as [rck wk].
    destruct (failed rck); [auto | ].
    destruct (ble_sm_alg_gen_dhkey _ _ _ _) as [rcd dh].
    set (p1 := set_dhkey dh _).
    assert (H1 : ri p1 = ri p /\
                 passkey_bits_exchanged p1 = passkey_bits_exchanged p)
      by (subst p1; destruct p; split; reflexivity).
    destruct (failed rcd); [exact H1 | ].
    destruct (F_INITIATOR (flags p1)); [ | exact H1].
    destruct (ble_sm_proc_can_advance _ && _); destruct p1; cbn in *; exact H1.
  - (* confirm_go *)
    destruct (pair_alg p) eqn:Ea.
    + unfold ble_sm_sc_confirm_go, ble_sm_sc_gen_ri. rewrite Ea.
      cbn [failed]. set (p1 := set_ri 0 p).
      assert (H1 : passkey_bits_exchanged p1 = passkey_bits_exchanged p)
        by (subst p1; destruct p; reflexivity).
      destruct (ble_sm_alg_f4 _ _ _ _) as [rc4 v].
      destruct (failed rc4); [exact H1 | ].
      destruct (ble_sm_pair_confirm_tx _ _ _) as [rct e].
      destruct (failed rct); [exact H1 | ].
      destruct (negb _); [destruct p1; cbn in *; exact H1 | exact H1].
    + pose proof (confirm_go_counts_one_bit p res w Ea) as Hc.
      destruct (ble_sm_sc_confirm_go p res w) as [[q r] w'].
      exact (proj1 Hc).
    + unfold ble_sm_sc_confirm_go, ble_sm_sc_gen_ri. rewrite Ea.
      destruct (ble_hci_util_rand _ _ _) as [[rc out] x].
      set (p1 := set_ri _ p).
      assert (H1 : passkey_bits_exchanged p1 = passkey_bits_exchanged p)
        by (subst p1; destruct p; reflexivity).
      destruct (failed rc); [exact H1 | ].
      destruct (ble_sm_alg_f4 _ _ _ _) as [rc4 v].
      destruct (failed rc4); [exact H1 | ].
      destruct (ble_sm_pair_confirm_tx _ _ _) as [rct e].
      destruct (failed rct); [exact H1 | ].
      destruct (negb _); [destruct p1; cbn in *; exact H1 | exact H1].
    + unfold ble_sm_sc_confirm_go, ble_sm_sc_gen_ri. rewrite Ea.
      cbn [failed]. set (p1 := set_ri 0 p).
      assert (H1 : passkey_bits_exchanged p1 = passkey_bits_exchanged p)
        by (subst p1; destruct p; reflexivity).
      destruct (ble_sm_alg_f4 _ _ _ _) as [rc4 v].
      destruct (failed rc4); [exact H1 | ].
      destruct (ble_sm_pair_confirm_tx _ _ _) as [rct e].
      destruct (failed rct); [exact H1 | ].
      destruct (negb _); [destruct p1; cbn in *; exact H1 | exact H1].
  - (* random_go *)
    unfold ble_sm_sc_random_go.
    destruct (ble_sm_pair_random_tx _ _ _) as [rct e].
    destruct (failed rct); [auto | ].
    destruct (negb (F_INITIATOR (flags p))); [ | auto].
    set (w1 := log _ _).
    pose proof (random_advance_ri_bits p w1) as Ha.
    destruct (ble_sm_sc_random_advance p w1) as [[rc q] w2].
    cbn [fst snd] in Ha.
    destruct (failed rc); [exact Ha | ].
    pose proof (random_pkact_proc false q res w2) as Hq.
    pose proof (passkey_action_ri_bits q) as Hb.
    destruct (random_pkact false q res w2) as [[q2 r2] w3].
    cbn [fst snd] in Hq. subst q2.
    destruct Ha as (A1 & A2). destruct Hb as (B1 & B2). split; congruence.
  - (* random_rx *)
    assert (Hk : forall w0, let '(q, _, _) := random_rx_keys p res w0 in
              ri q = ri p /\
              passkey_bits_exchanged q = passkey_bits_exchanged p).
    { intros w0. unfold random_rx_keys.
      destruct (ble_sm_addrs (w_ext w0) p) as [rca [[[iat ia] rat] ra]].
      destruct (failed rca); [auto | ].
      destruct (ble_sm_alg_f5 _ _ _ _ _ _ _ _ _) as [rc5 [mk lk]].
      destruct (failed rc5); [destruct p; split; reflexivity | ].
      cbv zeta. set (p2 := set_keys _ _ _).
      assert (H2 : ri p2 = ri p /\
                   passkey_bits_exchanged p2 = passkey_bits_exchanged p)
        by (subst p2; destruct p; split; reflexivity).
      destruct (F_INITIATOR (flags p2)); [ | exact H2].
      pose proof (random_advance_ri_bits p2 (log EvF5 w0)) as Ha.
      destruct (ble_sm_sc_random_advance p2 (log EvF5 w0)) as [[rc q] w2].
      cbn [fst snd] in Ha.
      pose proof (random_pkact_proc true q res w2) as Hq.
      pose proof (passkey_action_ri_bits q) as Hb.
      destruct (random_pkact true q res w2) as [[q2 r2] w3].
      cbn [fst snd] in Hq. subst q2.
      destruct H2 as (C1 & C2). destruct Ha as (A1 & A2).
      destruct Hb as (B1 & B2). split; congruence. }
    rewrite random_rx_unfold.
    destruct (random_rx_verifies p); [ | apply Hk].
    cbv zeta. destruct (ble_sm_alg_f4 _ _ _ _) as [rc cv].
    destruct (failed rc); [auto | ].
    destruct (memcmp_ne _ _ _); [auto | apply Hk].
  - (* dhkey_check_go *)
    unfold ble_sm_sc_dhkey_check_go.
    destruct (bls_hs_priv_copy_local_identity_addr (w_ext w)) as [oa ot].
    destruct (ble_sm_peer_addr (w_ext w) p) as [rca [pt pa]].
    destruct (failed rca); [auto | ].
    destruct (ble_sm_alg_f6 _ _ _ _ _ _ _ _ _) as [rc6 value].
    destruct (failed rc6); [auto | ].
    destruct (ble_sm_dhkey_check_tx _ _ _) as [rct e].
    destruct (failed rct); [auto | ].
    destruct (negb _); [destruct p; split; reflexivity | auto].
  - (* dhkey_check_rx *)
    unfold ble_sm_sc_dhkey_check_rx, found_proc.
    destruct (failed (ble_hs_misc_pullup_base om BLE_SM_DHKEY_CHECK_SZ));
      [auto | ].
    destruct (ble_sm_dhkey_check_parse om) as [rcq cmd].
    destruct (failed rcq); [auto | ].
    unfold ble_sm_dhkey_check_process.
    destruct (ble_sm_peer_addr (w_ext w) p) as [rca [pt pa]].
    destruct (failed rca); [auto | ].
    destruct (dhkey_check_expected p w pt pa) as [rc6 exp_value].
    destruct (failed rc6); [auto | ].
    destruct (memcmp_ne _ _ _); [auto | ].
    pose proof (passkey_action_ri_bits p) as Hq.
    destruct (ble_sm_sc_passkey_action p) as [a q]. cbn [snd] in Hq.
    set (q1 := if proc_state_eqb _ _ then _ else _).
    assert (H1 : ri q1 = ri p /\
                 passkey_bits_exchanged q1 = passkey_bits_exchanged p).
    { subst q1. destruct (proc_state_eqb _ _); [ | exact Hq].
      destruct q; cbn in *; exact Hq. }
    destruct (ble_sm_proc_can_advance q1); [ | exact H1].
    destruct (F_INITIATOR (flags q1)); [ | exact H1].
    destruct q1; cbn in *; exact H1.
Qed.

End Kept.

(** ** A nonce generator that fails *)

Section GeneratorFailure.
Context {H : Host}.

(** X24.  The initiator does not look at the code of the nonce generator.
    When a PasskeyEntry initiator whose passkey is injected gets through
    the confirm check and the key derivation with fewer than 20 bits
    exchanged, [ble_sm_sc_random_rx] goes back to CONFIRM, stores what the
    generator left in the nonce buffer and asks for the next step, with no
    other change to the result, whatever code the generator returned: a
    failure of the generator is not reported. *)
Theorem random_rx_drops_generator_code
  (p : ble_sm_proc) (res : ble_sm_result) (w : world) :
  F_INITIATOR (flags p) = true ->
  F_IO_INJECTED (flags p) = true ->
  pair_alg p = BLE_SM_PAIR_ALG_PASSKEY ->
  passkey_bits_exchanged p < BLE_SM_SC_PASSKEY_BITS ->
  confirm_check_passes p w = true ->
  failed (fst (ble_sm_addrs (w_ext w) p)) = false ->
  (forall iat ia rat ra,
     failed (fst (ble_sm_alg_f5 (dhkey p) (randm p) (rands p) iat ia rat ra
                    (mackey p) (ltk p))) = false) ->
  let '(rcg, r, _) := ble_sm_gen_pair_rand (w_ext w) (randm p) in
  let '(q, res', _) := ble_sm_sc_random_rx p res w in
  res' = set_execute res /\
  state q = BLE_SM_PROC_STATE_CONFIRM /\
  randm q = r.
Proof.
  intros Hi Hio Ha Hb Hc Haddr H5.
  destruct (random_rx_passes p res w Hc) as (w0 & E & He).
  rewrite E. unfold random_rx_keys. rewrite He.
  destruct (ble_sm_addrs (w_ext w) p) as [rca [[[iat ia] rat] ra]].
  cbn [fst] in Haddr. rewrite Haddr.
  specialize (H5 iat ia rat ra).
  destruct (ble_sm_alg_f5 _ _ _ _ _ _ _ _ _) as [rc5 [mk lk]].
  cbn [fst] in H5. rewrite H5. cbv zeta.
  set (p2 := set_keys _ _ _).
  assert (Hp2 : F_INITIATOR (flags p2) = true /\
                F_IO_INJECTED (flags p2) = true /\
                loops_back p2 = true /\ randm p2 = randm p).
  { subst p2. unfold loops_back, BLE_SM_SC_PASSKEY_BITS in *.
    destruct p; cbn in *. subst. repeat split; auto.
    apply Z.ltb_lt. exact Hb. }
  destruct Hp2 as (Hi2 & Hio2 & Hl2 & Hr2). rewrite Hi2.
  unfold ble_sm_sc_random_advance. rewrite loops_back_guard, Hl2.
  cbn [negb].
  replace (ble_sm_our_pair_rand (set_state BLE_SM_PROC_STATE_CONFIRM p2))
    with (randm p)
    by (unfold ble_sm_our_pair_rand; destruct p2; cbn in *;
        rewrite Hi2; symmetry; exact Hr2).
  replace (w_ext (log EvF5 w0)) with (w_ext w) by (symmetry; exact He).
  destruct (ble_sm_gen_pair_rand (w_ext w) (randm p)) as [[rcg r] x].
  set (q1 := set_our_pair_rand r _).
  assert (Hq1 : F_IO_INJECTED (flags q1) = true /\
                state q1 = BLE_SM_PROC_STATE_CONFIRM /\ randm q1 = r).
  { subst q1. unfold set_our_pair_rand.
    destruct p2; cbn in *. rewrite Hi2. cbn. auto. }
  destruct Hq1 as (Q1 & Q2 & Q3).
  assert (Hk : forall w1,
            let '(q, res', _) := random_pkact true q1 res w1 in
            res' = set_execute res /\
            state q = BLE_SM_PROC_STATE_CONFIRM /\ randm q = r).
  { intros w1. unfold random_pkact.
    pose proof (passkey_action_frame q1) as (Hq & _ & Hj).
    destruct (ble_sm_sc_passkey_action q1) as [a q]. cbn [snd] in Hq, Hj.
    rewrite Hj, Q1. rewrite andb_false_r.
    split; [reflexivity | ].
    rewrite Hq. destruct q1; cbn in *. auto. }
  destruct (failed rcg); apply Hk.
Qed.

End GeneratorFailure.

(** ** Asking the application *)

Section Suspension.
Context {H : Host}.

Lemma random_advance_g2 (p : ble_sm_proc) (w : world) :
  g2_calls (w_log (snd (ble_sm_sc_random_advance p w))) = g2_calls (w_log w).
Proof.
  unfold ble_sm_sc_random_advance.
  destruct (_ || _); [reflexivity | ].
  destruct (ble_sm_gen_pair_rand _ _) as [[rc r] x].
  destruct (failed rc); reflexivity.
Qed.

Lemma random_rx_keys_asks_or_executes
  (p : ble_sm_proc) (res : ble_sm_result) (w0 : world) :
  failed (fst (ble_sm_addrs (w_ext w0) p)) = false ->
  (forall iat ia rat ra,
     failed (fst (ble_sm_alg_f5 (dhkey p) (randm p) (rands p) iat ia rat ra
                    (mackey p) (ltk p))) = false) ->
  let '(q, res', w') := random_rx_keys p res w0 in
  let a := passkey_action_of p in
  if F_INITIATOR (flags p) &&
     proc_state_eqb (ble_sm_pkact_state a) (state q) &&
     negb (F_IO_INJECTED (flags p))
  then action (passkey_action res') = a /\
       execute res' = execute res /\
       g2_calls (w_log w') = S (g2_calls (w_log w0))
  else res' = set_execute res /\
       g2_calls (w_log w') = g2_calls (w_log w0).
Proof.
  intros Haddr H5. unfold random_rx_keys.
  destruct (ble_sm_addrs (w_ext w0) p) as [rca [[[iat ia] rat] ra]].
  cbn [fst] in Haddr. rewrite Haddr.
  specialize (H5 iat ia rat ra).
  destruct (ble_sm_alg_f5 _ _ _ _ _ _ _ _ _) as [rc5 [mk lk]].
  cbn [fst] in H5. rewrite H5. cbv zeta.
  set (p2 := set_keys _ _ _).
  assert (Hp2 : F_INITIATOR (flags p2) = F_INITIATOR (flags p) /\
                F_IO_INJECTED (flags p2) = F_IO_INJECTED (flags p) /\
                pair_req p2 = pair_req p /\ pair_rsp p2 = pair_rsp p)
    by (subst p2; destruct p; repeat split).
  destruct Hp2 as (Hi2 & Hj2 & Hreq2 & Hrsp2). rewrite Hi2.
  destruct (F_INITIATOR (flags p)) eqn:Ei; cbn [andb];
    [ | split; reflexivity].
  pose proof (random_advance_frame p2 (log EvF5 w0)) as Hf.
  pose proof (random_advance_g2 p2 (log EvF5 w0)) as Hg.
  destruct (ble_sm_sc_random_advance p2 (log EvF5 w0)) as [[rc q1] w1].
  destruct Hf as ((s & x & y & Hq1) & _). cbn [snd] in Hg.
  change (g2_calls (w_log (log EvF5 w0))) with (g2_calls (w_log w0)) in Hg.
  assert (Hq1' : F_INITIATOR (flags q1) = true /\
                 F_IO_INJECTED (flags q1) = F_IO_INJECTED (flags p) /\
                 pair_req q1 = pair_req p /\ pair_rsp q1 = pair_rsp p).
  { rewrite Hq1. destruct p2; cbn in *. auto. }
  destruct Hq1' as (Hi1 & Hj1 & Hreq1 & Hrsp1).
  assert (Ha : passkey_action_of q1 = passkey_action_of p).
  { apply passkey_action_of_stable; congruence. }
  unfold random_pkact.
  pose proof (passkey_action_alg q1) as (_ & Hfst).
  pose proof (passkey_action_frame q1) as (Hq2 & _ & Hj).
  destruct (ble_sm_sc_passkey_action q1) as [a q2]. cbn [fst snd] in *.
  subst a.
  assert (Hs2 : state q2 = state q1) by (rewrite Hq2; destruct q1; reflexivity).
  rewrite Hj, Hj1, Ha.
  destruct (proc_state_eqb (ble_sm_pkact_state (passkey_action_of p))
              (state q2) && negb (F_IO_INJECTED (flags p))) eqn:Ec.
  - unfold ble_sm_sc_gen_numcmp.
    destruct (ble_sm_alg_g2 _ _ _ _ _) as [rcn n].
    destruct (failed rcn); cbn [log w_log]; rewrite Ec;
      (repeat split; [unfold g2_calls in *; cbn; rewrite <- Hg; reflexivity]).
  - rewrite Ec. split; [reflexivity | exact Hg].
Qed.

(** X25.  Ask the application or go on, not both.  When
    [ble_sm_sc_random_rx] gets through the confirm check and the key
    derivation, an initiator whose passkey action is due in the state the
    advance has led to, and to whom no IO was injected, computes the
    comparison value with g2, hands the action to the application and does
    not touch [execute]; in every other case, a responder included, g2 is
    not called and [execute] is the only field of the result that is
    written. *)
Theorem random_rx_asks_or_executes
  (p : ble_sm_proc) (res : ble_sm_result) (w : world) :
  confirm_check_passes p w = true ->
  failed (fst (ble_sm_addrs (w_ext w) p)) = false ->
  (forall iat ia rat ra,
     failed (fst (ble_sm_alg_f5 (dhkey p) (randm p) (rands p) iat ia rat ra
                    (mackey p) (ltk p))) = false) ->
  let '(q, res', w') := ble_sm_sc_random_rx p res w in
  let a := passkey_action_of p in
  if F_INITIATOR (flags p) &&
     proc_state_eqb (ble_sm_pkact_state a) (state q) &&
     negb (F_IO_INJECTED (flags p))
  then action (passkey_action res') = a /\
       execute res' = execute res /\
       g2_calls (w_log w') = S (g2_calls (w_log w))
  else res' = set_execute res /\
       g2_calls (w_log w') = g2_calls (w_log w).
Proof.
  intros Hc Haddr H5. unfold confirm_check_passes in Hc.
  rewrite random_rx_unfold.
  destruct (random_rx_verifies p).
  - cbn [negb orb] in Hc. cbv zeta.
    destruct (ble_sm_alg_f4 _ _ _ _) as [rc cv].
    apply andb_true_iff in Hc as [H1 H2].
    apply negb_true_iff in H1, H2. rewrite H1, H2.
    set (ev := EvF4 _ _ _ _).
    pose proof (random_rx_keys_asks_or_executes p res (log ev w) Haddr H5)
      as Hk.
    change (g2_calls (w_log (log ev w))) with (g2_calls (w_log w)) in Hk.
    exact Hk.
  - apply random_rx_keys_asks_or_executes; assumption.
Qed.

End Suspension.

(** ** Who sends a Pairing Confirm, over the loop *)

Section ConfirmByRole.
Context {H : Host}.





























End ConfirmByRole.

(** ** Examples on the concrete host *)

Import Example.

(** At the example procedure: passkey 0xa5, bit 0 is set, Ri is 0x81. *)
Lemma gen_ri_value_witness :
  ri (snd (fst (ble_sm_sc_gen_ri (H := Example.host)
     (Example.proc true BLE_SM_PAIR_ALG_PASSKEY BLE_SM_PROC_STATE_CONFIRM)
     Example.w0))) = 0x81.
Proof.
  rewrite (gen_ri_value (H := Example.host)
             (Example.proc true BLE_SM_PAIR_ALG_PASSKEY
                BLE_SM_PROC_STATE_CONFIRM) Example.w0).
  - reflexivity.
  - simpl. repeat constructor; unfold is_byte; lia.
  - simpl. unfold BLE_SM_SC_PASSKEY_BITS. lia.
Defined.

(** The key generator fails once, then succeeds; the third call finds the
    keys and does not call it. *)
Lemma ensure_keys_fail_then_ok :
  let '(rc1, w1) := ble_sm_sc_ensure_keys_generated w_fresh in
  let '(rc2, w2) := ble_sm_sc_ensure_keys_generated w1 in
  let '(rc3, w3) := ble_sm_sc_ensure_keys_generated w2 in
  rc1 = HS_ERR 1 /\ ble_sm_sc_keys_generated w1 = false /\
  rc2 = HS_OK /\ ble_sm_sc_keys_generated w2 = true /\
  rc3 = HS_OK /\
  ble_sm_sc_pub_key w3 = ble_sm_sc_pub_key w2 /\
  w_log w3 = w_log w2 /\ gen_calls (w_log w3) = 2%nat.
Proof. vm_compute. repeat split. Qed.

(** C1 as the spec words it fails both ways.  A JustWorks responder, for
    which the spec's rule asks for the check, makes no f4 call and derives
    the keys although the received confirm value does not match; a
    JustWorks initiator, for which the spec's rule skips the check, makes
    the f4 call and stops with the confirm-mismatch status. *)
Lemma random_rx_roles_swapped :
  let r := Example.proc false BLE_SM_PAIR_ALG_JW BLE_SM_PROC_STATE_RANDOM in
  let i := Example.proc true BLE_SM_PAIR_ALG_JW BLE_SM_PROC_STATE_RANDOM in
  let '(r', res_r, w_r) :=
    ble_sm_sc_random_rx (H := Example.host) r Example.res0 Example.w0 in
  let '(i', res_i, w_i) :=
    ble_sm_sc_random_rx (H := Example.host) i Example.res0 Example.w0 in
  (spec_must_verify r = true /\
   memcmp_ne (confirm_peer r)
     (snd (ble_sm_alg_f4 (pk_x (pub_key_peer r))
             (ble_sm_sc_pub_key Example.w0) (ble_sm_their_pair_rand r) (ri r)))
     16 = true /\
   f4_calls (w_log w_r) = 0%nat /\
   app_status res_r = HS_OK /\ enc_cb res_r = false /\ execute res_r = true /\
   ltk_valid (our_keys r') = true) /\
  (spec_must_verify i = false /\
   f4_calls (w_log w_i) = 1%nat /\
   app_status res_i = BLE_HS_SM_US_ERR BLE_SM_ERR_CONFIRM_MISMATCH /\
   enc_cb res_i = true).
Proof. vm_compute. repeat split. Qed.

Lemma random_rx_confirm_mismatch_witness :
  let p := Example.proc true BLE_SM_PAIR_ALG_JW BLE_SM_PROC_STATE_RANDOM in
  let cv := snd (ble_sm_alg_f4 (pk_x (pub_key_peer p))
                   (ble_sm_sc_pub_key Example.w0)
                   (ble_sm_their_pair_rand p) (ri p)) in
  (random_rx_verifies p = true /\
   memcmp_ne (confirm_peer p) cv 16 = true) /\
  let '(p', res', w') :=
    ble_sm_sc_random_rx (H := Example.host) p Example.res0 Example.w0 in
  p' = p /\
  f5_calls (w_log w') = f5_calls (w_log Example.w0) /\
  ble_sm_sc_keys_generated w' = ble_sm_sc_keys_generated Example.w0 /\
  app_status res' = BLE_HS_SM_US_ERR BLE_SM_ERR_CONFIRM_MISMATCH /\
  enc_cb res' = true /\
  execute res' = execute Example.res0 /\
  sm_err res' = Some BLE_SM_ERR_UNSPECIFIED /\
  sm_err res' <> Some BLE_SM_ERR_CONFIRM_MISMATCH.
Proof.
  intros p cv. split; [split; reflexivity | ].
  apply (random_rx_confirm_mismatch (H := Example.host) p Example.res0
           Example.w0 cv); reflexivity.
Defined.

(** C6.  The nonce of a new round when the generator fails.  The input is
    a PasskeyEntry initiator in the Random step of its first round, one bit
    exchanged, the peer's confirm value right, on a host whose nonce
    generator fails with code 3 and leaves the buffer alone.
    [ble_sm_sc_random_rx] calls the generator on its way back to CONFIRM and
    drops its code: the result is a success that asks for the next step, and
    the Confirm step of the second round counts the second bit and sends a
    confirm value computed over the nonce of the first round.  A responder
    on the same host, which makes the same advance in
    [ble_sm_sc_random_go], reports the failure and does not go on. *)
Theorem passkey_round_reuses_nonce :
  let p0 := Lab.passkey_proc true in
  let w := Lab.w_a true in
  let p := set_confirm_peer (Lab.peer_confirm true p0 w) p0 in
  let '(q, res, w1) :=
    ble_sm_sc_random_rx (H := Lab.host true) p Example.res0 w in
  let '(q2, res2, w2) :=
    ble_sm_sc_confirm_go (H := Lab.host true) q Example.res0 w1 in
  let '(r, resr, wr) :=
    ble_sm_sc_random_go (H := Lab.host true) (Lab.passkey_proc false)
      Example.res0 (Lab.w_b true) in
  (passkey_action_of (H := Lab.host true) p = BLE_SM_PKACT_INPUT /\
   pair_alg p = BLE_SM_PAIR_ALG_PASSKEY /\
   passkey_bits_exchanged p = 1 /\
   confirm_check_passes (H := Lab.host true) p w = true) /\
  (fst (fst (ble_sm_gen_pair_rand (Host := Lab.host true) (w_ext w)
               (ble_sm_our_pair_rand p))) = HS_ERR 3 /\
   hd_error (w_log w1) = Some EvGenPairRand) /\
  (res = set_execute Example.res0 /\
   state q = BLE_SM_PROC_STATE_CONFIRM /\
   pair_alg q = BLE_SM_PAIR_ALG_PASSKEY /\
   passkey_bits_exchanged q = 1 /\
   ble_sm_our_pair_rand q = ble_sm_our_pair_rand p) /\
  (res2 = Example.res0 /\
   passkey_bits_exchanged q2 = 2 /\
   exists value,
     w_log w2
     = EvTxConfirm 1 value
       :: EvF4 (ble_sm_sc_pub_key w) (pk_x (pub_key_peer p))
            (ble_sm_our_pair_rand p) (ri q2)
       :: w_log w1) /\
  (hd_error (w_log wr) = Some EvGenPairRand /\
   app_status resr = HS_ERR 3 /\ enc_cb resr = true /\
   sm_err resr = Some BLE_SM_ERR_UNSPECIFIED /\ execute resr = false /\
   state r = BLE_SM_PROC_STATE_CONFIRM).
Proof.
  vm_compute. repeat split; eexists; reflexivity.
Qed.

Lemma dhkey_check_mismatch_aborts_witness :
  let p :=
    Example.proc true BLE_SM_PAIR_ALG_NUMCMP BLE_SM_PROC_STATE_DHKEY_CHECK in
  let cmd := repeat 0 16 in
  let exp_value := snd (dhkey_check_expected p w0 0 [6; 5; 4; 3; 2; 1]) in
  memcmp_ne cmd exp_value 16 = true /\
  let '(p', res', w') := ble_sm_dhkey_check_process p cmd res0 w0 in
  p' = p /\ state p' = state p /\
  w' = log EvF6 w0 /\
  app_status res' = BLE_HS_SM_US_ERR BLE_SM_ERR_DHKEY /\
  sm_err res' = Some BLE_SM_ERR_DHKEY /\
  enc_cb res' = true /\
  execute res' = execute res0 /\
  app_status res' <> BLE_HS_SM_US_ERR BLE_SM_ERR_CONFIRM_MISMATCH /\
  sm_err res' <> Some BLE_SM_ERR_CONFIRM_MISMATCH.
Proof.
  intros p cmd exp_value. split; [reflexivity | ].
  apply (dhkey_check_mismatch_aborts (H := Example.host) p cmd res0 w0 0
           [6; 5; 4; 3; 2; 1] exp_value); reflexivity.
Defined.

(** C3 as the spec words it fails.  A JustWorks responder in state RANDOM
    whose key sets are not valid receives the peer's nonce: after the step
    both key sets hold the LTK marked valid, the state is still RANDOM and
    no f6 call has been made.  A DHKey check that then fails leaves the
    LTK in place, still marked valid. *)
Lemma ltk_written_before_dhkey_check :
  let p := Example.proc false BLE_SM_PAIR_ALG_JW BLE_SM_PROC_STATE_RANDOM in
  let '(p', res', w') := ble_sm_sc_random_rx p res0 w0 in
  let '(q, res_q, _) := ble_sm_dhkey_check_process p' (repeat 0 16) res0 w' in
  (ltk_valid (our_keys p) = false /\ ltk_valid (peer_keys p) = false /\
   state p = BLE_SM_PROC_STATE_RANDOM) /\
  (ltk_valid (our_keys p') = true /\ ltk_valid (peer_keys p') = true /\
   keys_ltk (our_keys p') = ltk p' /\
   state p' = BLE_SM_PROC_STATE_RANDOM /\
   f6_calls (w_log w') = 0%nat) /\
  (app_status res_q = BLE_HS_SM_US_ERR BLE_SM_ERR_DHKEY /\
   ltk_valid (our_keys q) = true /\ keys_ltk (our_keys q) = ltk p').
Proof. vm_compute. repeat split. Qed.

Lemma random_rx_writes_ltk_witness :
  let p := Example.proc true BLE_SM_PAIR_ALG_PASSKEY BLE_SM_PROC_STATE_RANDOM in
  let cv := snd (ble_sm_alg_f4 (pk_x (pub_key_peer p)) (ble_sm_sc_pub_key w0)
                   (ble_sm_their_pair_rand p) (ri p)) in
  let p := set_confirm_peer cv p in
  let lk := snd (snd (ble_sm_alg_f5 (dhkey p) (randm p) (rands p)
                        0 [1; 2; 3; 4; 5; 6] 0 [6; 5; 4; 3; 2; 1]
                        (mackey p) (ltk p))) in
  (random_rx_verifies p = true /\ memcmp_ne (confirm_peer p) cv 16 = false) /\
  let '(p', _, w') := ble_sm_sc_random_rx p res0 w0 in
  ltk p' = lk /\ ltk_valid (our_keys p') = true /\
  keys_ltk (our_keys p') = lk /\
  f6_calls (w_log w') = f6_calls (w_log w0).
Proof.
  intros p0 cv p lk. split; [split; reflexivity | ].
  pose proof (random_rx_writes_ltk (H := Example.host) p res0 w0
                0 0 [1; 2; 3; 4; 5; 6] [6; 5; 4; 3; 2; 1]
                (fst (snd (ble_sm_alg_f5 (dhkey p) (randm p) (rands p)
                        0 [1; 2; 3; 4; 5; 6] 0 [6; 5; 4; 3; 2; 1]
                        (mackey p) (ltk p)))) lk
                (or_intror (ex_intro _ cv (conj eq_refl eq_refl)))
                eq_refl eq_refl) as Hw.
  destruct (ble_sm_sc_random_rx p res0 w0) as [[p' r'] w'].
  destruct Hw as ((H1 & _ & H3 & _) & H6 & _).
  rewrite H3. repeat split; assumption.
Defined.

(** ** More examples *)

Lemma passkey_action_oob_first_witness :
  let p := proc_io true (cmd BLE_SM_IO_CAP_DISP_ONLY 1 0)
             (cmd BLE_SM_IO_CAP_NO_IO 0 0) in
  oob_data_flag (pair_req p) = 1 /\
  let '(a, q) := ble_sm_sc_passkey_action (H := Example.host) p in
  a = BLE_SM_PKACT_OOB /\
  pair_alg q = BLE_SM_PAIR_ALG_OOB /\
  F_AUTHENTICATED (flags q) = true.
Proof.
  intros p. split; [reflexivity | ].
  apply (passkey_action_oob_first (H := Example.host) p).
  left. discriminate.
Defined.

Lemma passkey_action_no_mitm_witness :
  let p := proc_io false (cmd BLE_SM_IO_CAP_KEYBOARD_DISP 0 1)
             (cmd BLE_SM_IO_CAP_KEYBOARD_DISP 0 0) in
  ble_sm_sc_passkey_action (H := Example.host) p
  = (BLE_SM_PKACT_NONE, set_pair_alg BLE_SM_PAIR_ALG_JW p).
Proof.
  intros p.
  apply (passkey_action_no_mitm (H := Example.host) p); reflexivity.
Defined.

Lemma passkey_action_no_io_witness :
  let p := proc_io true (cmd BLE_SM_IO_CAP_NO_IO 0 4)
             (cmd BLE_SM_IO_CAP_KEYBOARD_DISP 0 4) in
  let '(a, q) := ble_sm_sc_passkey_action (H := Example.host) p in
  a = BLE_SM_PKACT_NONE /\ pair_alg q = BLE_SM_PAIR_ALG_JW /\
  flags q = flags p.
Proof.
  intros p.
  apply (passkey_action_no_io (H := Example.host) p);
    [reflexivity | reflexivity | left; reflexivity].
Defined.

(** An initiator on the first device receives the check value of the
    responder on the second. *)
Lemma dhkey_check_honest_peer_accepted_witness :
  let p :=
    Example.proc true BLE_SM_PAIR_ALG_NUMCMP BLE_SM_PROC_STATE_DHKEY_CHECK in
  let q :=
    Example.proc false BLE_SM_PAIR_ALG_NUMCMP BLE_SM_PROC_STATE_DHKEY_CHECK in
  let v :=
    snd (ble_sm_alg_f6 (Host := Lab.host false) (mackey q)
           (ble_sm_our_pair_rand q) (ble_sm_their_pair_rand q) (tk q)
           (ble_sm_sc_dhkey_check_iocap (pair_rsp q))
           0 Lab.addr_b 0 Lab.addr_a) in
  let '(_, res', _) :=
    ble_sm_dhkey_check_process (H := Lab.host false) p v res0
      (Lab.w_a false) in
  app_status res' = HS_OK /\ enc_cb res' = enc_cb res0 /\
  sm_err res' = sm_err res0.
Proof.
  intros p q v.
  apply (dhkey_check_honest_peer_accepted (H := Lab.host false)
           p q res0 res0 (Lab.w_a false) (Lab.w_b false)
           0 0 Lab.addr_a Lab.addr_b v); reflexivity.
Defined.

Lemma both_ends_derive_same_keys_witness :
  let q := Example.proc false BLE_SM_PAIR_ALG_JW BLE_SM_PROC_STATE_RANDOM in
  let p0 := Example.proc true BLE_SM_PAIR_ALG_JW BLE_SM_PROC_STATE_RANDOM in
  let cv := snd (ble_sm_alg_f4 (Host := Example.host) (pk_x (pub_key_peer p0))
                   (ble_sm_sc_pub_key w0) (ble_sm_their_pair_rand p0)
                   (ri p0)) in
  let p := set_confirm_peer cv p0 in
  (confirm_check_passes (H := Example.host) p w0 = true /\
   confirm_check_passes (H := Example.host) q w0 = true) /\
  let '(p', _, _) := ble_sm_sc_random_rx (H := Example.host) p res0 w0 in
  let '(q', _, _) := ble_sm_sc_random_rx (H := Example.host) q res0 w0 in
  ltk q' = ltk p' /\ mackey q' = mackey p' /\
  ltk_valid (our_keys p') = true /\ ltk_valid (our_keys q') = true /\
  keys_ltk (our_keys p') = memcpy (keys_ltk (our_keys p)) (ltk p') 16 /\
  keys_ltk (our_keys q') = memcpy (keys_ltk (our_keys q)) (ltk p') 16.
Proof.
  intros q p0 cv p. split; [split; reflexivity | ].
  apply (both_ends_derive_same_keys (H := Example.host) p q res0 res0 w0 w0
           0 0 [1; 2; 3; 4; 5; 6] [6; 5; 4; 3; 2; 1]); reflexivity.
Defined.

(** The passkey 0xa5 read back from twenty round values. *)
Lemma gen_ri_seq_spells_passkey_witness :
  let p :=
    Example.proc true BLE_SM_PAIR_ALG_PASSKEY BLE_SM_PROC_STATE_CONFIRM in
  low_bits_value
    (gen_ri_seq (H := Example.host) (Z.to_nat BLE_SM_SC_PASSKEY_BITS) p w0)
  = 0xa5.
Proof.
  intros p.
  rewrite (proj1 (gen_ri_seq_spells_passkey (H := Example.host) p w0
                    eq_refl eq_refl
                    ltac:(simpl; repeat constructor; unfold is_byte; lia))).
  reflexivity.
Defined.

(** A generator that fails with code 3: the initiator reports nothing. *)
Lemma random_rx_drops_generator_code_witness :
  let p0 :=
    set_flags (mk_flags true true false false true)
      (Example.proc true BLE_SM_PAIR_ALG_PASSKEY BLE_SM_PROC_STATE_RANDOM) in
  let cv := snd (ble_sm_alg_f4 (Host := Lab.host true) (pk_x (pub_key_peer p0))
                   (ble_sm_sc_pub_key (Lab.w_a true))
                   (ble_sm_their_pair_rand p0) (ri p0)) in
  let p := set_confirm_peer cv p0 in
  fst (fst (ble_sm_gen_pair_rand (Host := Lab.host true)
              (w_ext (Lab.w_a true)) (randm p))) = HS_ERR 3 /\
  let '(rcg, r, _) :=
    ble_sm_gen_pair_rand (Host := Lab.host true) (w_ext (Lab.w_a true))
      (randm p) in
  let '(q, res', _) :=
    ble_sm_sc_random_rx (H := Lab.host true) p res0 (Lab.w_a true) in
  res' = set_execute res0 /\
  state q = BLE_SM_PROC_STATE_CONFIRM /\
  randm q = r.
Proof.
  intros p0 cv p. split; [reflexivity | ].
  exact (random_rx_drops_generator_code (H := Lab.host true) p res0
           (Lab.w_a true) eq_refl eq_refl eq_refl eq_refl eq_refl eq_refl
           (fun _ _ _ _ => eq_refl)).
Defined.

(** A NumericComparison initiator whose peer confirm value is the one f4
    gives. *)
Lemma random_rx_asks_or_executes_witness :
  let p0 := Example.proc true BLE_SM_PAIR_ALG_NUMCMP BLE_SM_PROC_STATE_RANDOM in
  let cv := snd (ble_sm_alg_f4 (Host := Example.host) (pk_x (pub_key_peer p0))
                   (ble_sm_sc_pub_key w0) (ble_sm_their_pair_rand p0)
                   (ri p0)) in
  let p := set_confirm_peer cv p0 in
  confirm_check_passes (H := Example.host) p w0 = true /\
  let '(q, res', w') := ble_sm_sc_random_rx (H := Example.host) p res0 w0 in
  let a := passkey_action_of (H := Example.host) p in
  if F_INITIATOR (flags p) &&
     proc_state_eqb (ble_sm_pkact_state a) (state q) &&
     negb (F_IO_INJECTED (flags p))
  then action (passkey_action res') = a /\
       execute res' = execute res0 /\
       g2_calls (w_log w') = S (g2_calls (w_log w0))
  else res' = set_execute res0 /\
       g2_calls (w_log w') = g2_calls (w_log w0).
Proof.
  intros p0 cv p. split; [reflexivity | ].
  apply (random_rx_asks_or_executes (H := Example.host) p res0 w0);
    reflexivity.
Defined.

